(** * GameClient (src/game.js): a shallow embedding and its verified properties

    The browser client of a multiplayer world viewer.  The class [GameClient]
    keeps a mirror of the players and avatars announced by the server, a
    camera over a 2048x2048 world image, and a set of pressed movement keys
    that drives the commands sent over a WebSocket.

    Modelling conventions.
    - A JavaScript number is [NaN] or an exact rational [Fin q].  The
      source computes in IEEE doubles, whose additions and subtractions are
      exact on integers up to 2^53 and round elsewhere; a property that
      would not survive the rounding is stated on the range where the
      operations of the source are exact.
    - A message of the server is decoded by its [action] into a [Message];
      a payload of another shape is not modelled.  A property read out of a
      player is a JSON scalar ([value]), and a missing property reads as
      [VUndefined].  Player objects are maps from property names to values,
      because the server decides which properties it sends.
    - Objects used as maps ([players], [avatars], [loadedAvatarImages]) are
      [gmap]s over their own properties.  A read [obj[key]] of such an
      object also finds the members of [Object.prototype], and a read of an
      array those of [Array.prototype]: [property] and [array_get] say what
      a read finds, and the values of the realm that lie behind an
      inherited name are reached through the [Host].  An assignment under
      the name [__proto__], which replaces the prototype of the object
      instead of storing a property, is not modelled: the objects keep the
      prototype they were created with.  The order in which
      [Object.values] enumerates an object is not modelled: [map_to_list]
      stands for it, and no property below depends on it.
      [pressedKeys] is the list of its keys in insertion order, which is
      what [Object.keys] enumerates; the codes of a keyboard name no member
      of [Object.prototype].
    - Every method is a function from the client state to a completion:
      normal, or abrupt with a thrown exception, both carrying the state
      reached.  The console, the WebSocket and the 2D context are traces
      stored in the state; the text of a console line is its constant
      part, and assignments to the styles of the context and
      [event.preventDefault()] leave no trace.
    - Conversions the language performs and the class does not define
      (string to number, number to string), [JSON.parse] and the built-in
      objects of the realm are the operations of a [Host]. *)

From Stdlib Require Import QArith Qround Qminmax Lqa ZArith Lia.
From stdpp Require Import base option list gmap strings pretty.

Open Scope Q_scope.

(** ** JavaScript numbers *)

Inductive num : Type :=
| NaN
| Fin (q : Q).

Definition num_add (a b : num) : num :=
  match a, b with
  | Fin x, Fin y => Fin (x + y)
  | _, _ => NaN
  end.

Definition num_sub (a b : num) : num :=
  match a, b with
  | Fin x, Fin y => Fin (x - y)
  | _, _ => NaN
  end.

(** [Math.max] and [Math.min] return NaN as soon as one argument is NaN. *)
Definition Math_max (a b : num) : num :=
  match a, b with
  | Fin x, Fin y => Fin (Qmax x y)
  | _, _ => NaN
  end.

Definition Math_min (a b : num) : num :=
  match a, b with
  | Fin x, Fin y => Fin (Qmin x y)
  | _, _ => NaN
  end.

Definition Math_floor (a : num) : num :=
  match a with
  | Fin x => Fin (inject_Z (Qfloor x))
  | NaN => NaN
  end.

(** Equality of numbers up to the representation of the fraction. *)
Definition num_eq (a b : num) : Prop :=
  match a, b with
  | Fin x, Fin y => x == y
  | NaN, NaN => True
  | _, _ => False
  end.

Infix "=n=" := num_eq (at level 70, no associativity).

(** [lo <= a <= hi] for a number that is not NaN. *)
Definition num_between (lo : Q) (a : num) (hi : Q) : Prop :=
  match a with
  | Fin x => lo <= x /\ x <= hi
  | NaN => False
  end.

(** ** Values carried by messages *)

Inductive value : Type :=
| VUndefined
| VNull
| VBool (b : bool)
| VNum (n : num)
| VStr (s : string).

(** ToBoolean. *)
Definition truthy (v : value) : bool :=
  match v with
  | VUndefined | VNull => false
  | VBool b => b
  | VNum NaN => false
  | VNum (Fin q) => negb (Qeq_bool q 0)
  | VStr s => negb (String.eqb s "")
  end.

(** [a || b] *)
Definition js_or (a b : value) : value := if truthy a then a else b.

(** An object literal received from the server. *)
Abbreviation Obj := (gmap string value).

(** [o.k]: a missing property reads as [undefined]. *)
Definition get (o : Obj) (k : string) : value := default VUndefined (o !! k).

(** ** Reading a property

    [obj[key]] on an object created by [JSON.parse] or by a literal finds
    an own property, or else a member of [Object.prototype]: eleven
    functions and the accessor [__proto__], whose values are all truthy. *)

Definition Object_prototype : list string :=
  ["constructor"; "__defineGetter__"; "__defineSetter__"; "hasOwnProperty";
   "__lookupGetter__"; "__lookupSetter__"; "isPrototypeOf";
   "propertyIsEnumerable"; "toString"; "valueOf"; "__proto__";
   "toLocaleString"]%string.

Definition inherits (key : string) : bool :=
  bool_decide (key ∈ Object_prototype).

Inductive Property (A : Type) : Type :=
| Own (a : A)
| Inherited
| Missing.

Arguments Own {A} a.
Arguments Inherited {A}.
Arguments Missing {A}.

Definition property {A : Type} (obj : gmap string A) (key : string) : Property A :=
  match obj !! key with
  | Some a => Own a
  | None => if inherits key then Inherited else Missing
  end.

(** ** Data model *)

Abbreviation Player := (gmap string value).

Record Avatar : Type := mkAvatar {
  name : string;
  frames : gmap string (list string)
}.

(** [new Image()] with its [src] set. *)
Record Image : Type := mkImage { src : string }.

Inductive Direction : Type := up | down | dleft | dright.

Definition direction_name (d : Direction) : string :=
  match d with
  | up => "up" | down => "down" | dleft => "left" | dright => "right"
  end.

(** The [keyMap] literal of [handleKeyDown], [handleKeyUp] and the interval
    callback: [keyMap[code]] is [undefined] for every other code of a
    keyboard. *)
Definition keyMap (code : string) : option Direction :=
  if String.eqb code "ArrowUp" then Some up
  else if String.eqb code "ArrowDown" then Some down
  else if String.eqb code "ArrowLeft" then Some dleft
  else if String.eqb code "ArrowRight" then Some dright
  else if String.eqb code "KeyW" then Some up
  else if String.eqb code "KeyS" then Some down
  else if String.eqb code "KeyA" then Some dleft
  else if String.eqb code "KeyD" then Some dright
  else None.

(** Messages of the server, decoded by their [action]. *)
Inductive Message : Type :=
| join_game (success : bool) (playerId : value)
    (players : gmap string Player) (avatars : gmap string Avatar)
| player_joined (player : Player) (avatar : Avatar)
| players_moved (players : gmap string Player)
| player_left (playerId : value)
| unknown_action (action : value).

(** Messages of the client, as handed to [websocket.send]. *)
Inductive Outbound : Type :=
| send_join_game (username : string)
| send_move (direction : Direction)
| send_stop.

Inductive ReadyState : Type := CONNECTING | OPEN | CLOSING | CLOSED.

Inductive LogEntry : Type :=
| console_log (text : string) (args : list value)
| console_error (text : string).

(** Calls on a 2D context.  A canvas can itself be drawn: the temporary
    canvas of [renderAvatar] is the list of calls made on its context. *)
Inductive CanvasOp : Type :=
| clearRect (x y w h : num)
| scale (x y : Q)
| drawImage (image : Drawable) (dx dy dw dh : num)
| drawImageSub (image : Drawable) (sx sy sw sh dx dy dw dh : num)
| strokeText (text : value) (x y : num)
| fillText (text : value) (x y : num)
with Drawable : Type :=
| img (i : Image)
| tempCanvas (width height : Q) (ops : list CanvasOp).

Inductive Exn : Type := SyntaxError | TypeError | InvalidStateError.

(** ** The client state

    The fields of [this], in the order of the constructor, followed by the
    traces of the collaborators the class talks to.  [canvas_width] and
    [canvas_height] are the size of the canvas, which is the viewport (the
    inner size of a window, far below the 2^32 at which the attributes of
    a canvas wrap around);
    [ctx] lists the calls made on the 2D context, oldest first;
    [movementInterval] holds the handle returned by [setInterval];
    [timeouts] holds the handles of the reconnections that [setTimeout] has
    scheduled and that have not fired yet. *)

Record GameClient : Type := mkGameClient {
  (* this.canvas, this.ctx *)
  canvas_width : Z;
  canvas_height : Z;
  cursor : string;
  ctx : list CanvasOp;
  (* the world map *)
  worldImage : option Image;
  worldWidth : Q;
  worldHeight : Q;
  (* game state *)
  myPlayerId : value;
  players : gmap string Player;
  avatars : gmap string Avatar;
  websocket : option ReadyState;
  (* camera / viewport *)
  cameraX : num;
  cameraY : num;
  (* avatar rendering *)
  avatarSize : Q;
  loadedAvatarImages : gmap string (gmap string (list Image));
  (* movement *)
  pressedKeys : list string;
  isMoving : bool;
  movementInterval : option positive;
  movementSpeed : Q;
  (* camera dragging *)
  isDragging : bool;
  lastMouseX : Q;
  lastMouseY : Q;
  (* the outside world: console, socket output, next timer handle,
     pending reconnection timeouts *)
  console : list LogEntry;
  wire : list Outbound;
  timers : positive;
  timeouts : list positive
}.

(** Assignments to one field of [this]. *)

Definition set_canvas_width (v : Z) (st : GameClient) : GameClient :=
  {| canvas_width := v; canvas_height := canvas_height st;
     cursor := cursor st; ctx := ctx st; worldImage := worldImage st;
     worldWidth := worldWidth st; worldHeight := worldHeight st;
     myPlayerId := myPlayerId st; players := players st;
     avatars := avatars st; websocket := websocket st; cameraX := cameraX st;
     cameraY := cameraY st; avatarSize := avatarSize st;
     loadedAvatarImages := loadedAvatarImages st;
     pressedKeys := pressedKeys st; isMoving := isMoving st;
     movementInterval := movementInterval st;
     movementSpeed := movementSpeed st; isDragging := isDragging st;
     lastMouseX := lastMouseX st; lastMouseY := lastMouseY st;
     console := console st; wire := wire st; timers := timers st;
     timeouts := timeouts st |}.

Definition set_canvas_height (v : Z) (st : GameClient) : GameClient :=
  {| canvas_width := canvas_width st; canvas_height := v;
     cursor := cursor st; ctx := ctx st; worldImage := worldImage st;
     worldWidth := worldWidth st; worldHeight := worldHeight st;
     myPlayerId := myPlayerId st; players := players st;
     avatars := avatars st; websocket := websocket st; cameraX := cameraX st;
     cameraY := cameraY st; avatarSize := avatarSize st;
     loadedAvatarImages := loadedAvatarImages st;
     pressedKeys := pressedKeys st; isMoving := isMoving st;
     movementInterval := movementInterval st;
     movementSpeed := movementSpeed st; isDragging := isDragging st;
     lastMouseX := lastMouseX st; lastMouseY := lastMouseY st;
     console := console st; wire := wire st; timers := timers st;
     timeouts := timeouts st |}.

Definition set_cursor (v : string) (st : GameClient) : GameClient :=
  {| canvas_width := canvas_width st; canvas_height := canvas_height st;
     cursor := v; ctx := ctx st; worldImage := worldImage st;
     worldWidth := worldWidth st; worldHeight := worldHeight st;
     myPlayerId := myPlayerId st; players := players st;
     avatars := avatars st; websocket := websocket st; cameraX := cameraX st;
     cameraY := cameraY st; avatarSize := avatarSize st;
     loadedAvatarImages := loadedAvatarImages st;
     pressedKeys := pressedKeys st; isMoving := isMoving st;
     movementInterval := movementInterval st;
     movementSpeed := movementSpeed st; isDragging := isDragging st;
     lastMouseX := lastMouseX st; lastMouseY := lastMouseY st;
     console := console st; wire := wire st; timers := timers st;
     timeouts := timeouts st |}.

Definition set_ctx (v : list CanvasOp) (st : GameClient) : GameClient :=
  {| canvas_width := canvas_width st; canvas_height := canvas_height st;
     cursor := cursor st; ctx := v; worldImage := worldImage st;
     worldWidth := worldWidth st; worldHeight := worldHeight st;
     myPlayerId := myPlayerId st; players := players st;
     avatars := avatars st; websocket := websocket st; cameraX := cameraX st;
     cameraY := cameraY st; avatarSize := avatarSize st;
     loadedAvatarImages := loadedAvatarImages st;
     pressedKeys := pressedKeys st; isMoving := isMoving st;
     movementInterval := movementInterval st;
     movementSpeed := movementSpeed st; isDragging := isDragging st;
     lastMouseX := lastMouseX st; lastMouseY := lastMouseY st;
     console := console st; wire := wire st; timers := timers st;
     timeouts := timeouts st |}.

Definition set_myPlayerId (v : value) (st : GameClient) : GameClient :=
  {| canvas_width := canvas_width st; canvas_height := canvas_height st;
     cursor := cursor st; ctx := ctx st; worldImage := worldImage st;
     worldWidth := worldWidth st; worldHeight := worldHeight st;
     myPlayerId := v; players := players st; avatars := avatars st;
     websocket := websocket st; cameraX := cameraX st; cameraY := cameraY st;
     avatarSize := avatarSize st;
     loadedAvatarImages := loadedAvatarImages st;
     pressedKeys := pressedKeys st; isMoving := isMoving st;
     movementInterval := movementInterval st;
     movementSpeed := movementSpeed st; isDragging := isDragging st;
     lastMouseX := lastMouseX st; lastMouseY := lastMouseY st;
     console := console st; wire := wire st; timers := timers st;
     timeouts := timeouts st |}.

Definition set_players (v : gmap string Player) (st : GameClient) : GameClient :=
  {| canvas_width := canvas_width st; canvas_height := canvas_height st;
     cursor := cursor st; ctx := ctx st; worldImage := worldImage st;
     worldWidth := worldWidth st; worldHeight := worldHeight st;
     myPlayerId := myPlayerId st; players := v; avatars := avatars st;
     websocket := websocket st; cameraX := cameraX st; cameraY := cameraY st;
     avatarSize := avatarSize st;
     loadedAvatarImages := loadedAvatarImages st;
     pressedKeys := pressedKeys st; isMoving := isMoving st;
     movementInterval := movementInterval st;
     movementSpeed := movementSpeed st; isDragging := isDragging st;
     lastMouseX := lastMouseX st; lastMouseY := lastMouseY st;
     console := console st; wire := wire st; timers := timers st;
     timeouts := timeouts st |}.

Definition set_avatars (v : gmap string Avatar) (st : GameClient) : GameClient :=
  {| canvas_width := canvas_width st; canvas_height := canvas_height st;
     cursor := cursor st; ctx := ctx st; worldImage := worldImage st;
     worldWidth := worldWidth st; worldHeight := worldHeight st;
     myPlayerId := myPlayerId st; players := players st; avatars := v;
     websocket := websocket st; cameraX := cameraX st; cameraY := cameraY st;
     avatarSize := avatarSize st;
     loadedAvatarImages := loadedAvatarImages st;
     pressedKeys := pressedKeys st; isMoving := isMoving st;
     movementInterval := movementInterval st;
     movementSpeed := movementSpeed st; isDragging := isDragging st;
     lastMouseX := lastMouseX st; lastMouseY := lastMouseY st;
     console := console st; wire := wire st; timers := timers st;
     timeouts := timeouts st |}.

Definition set_websocket (v : option ReadyState) (st : GameClient) : GameClient :=
  {| canvas_width := canvas_width st; canvas_height := canvas_height st;
     cursor := cursor st; ctx := ctx st; worldImage := worldImage st;
     worldWidth := worldWidth st; worldHeight := worldHeight st;
     myPlayerId := myPlayerId st; players := players st;
     avatars := avatars st; websocket := v; cameraX := cameraX st;
     cameraY := cameraY st; avatarSize := avatarSize st;
     loadedAvatarImages := loadedAvatarImages st;
     pressedKeys := pressedKeys st; isMoving := isMoving st;
     movementInterval := movementInterval st;
     movementSpeed := movementSpeed st; isDragging := isDragging st;
     lastMouseX := lastMouseX st; lastMouseY := lastMouseY st;
     console := console st; wire := wire st; timers := timers st;
     timeouts := timeouts st |}.

Definition set_cameraX (v : num) (st : GameClient) : GameClient :=
  {| canvas_width := canvas_width st; canvas_height := canvas_height st;
     cursor := cursor st; ctx := ctx st; worldImage := worldImage st;
     worldWidth := worldWidth st; worldHeight := worldHeight st;
     myPlayerId := myPlayerId st; players := players st;
     avatars := avatars st; websocket := websocket st; cameraX := v;
     cameraY := cameraY st; avatarSize := avatarSize st;
     loadedAvatarImages := loadedAvatarImages st;
     pressedKeys := pressedKeys st; isMoving := isMoving st;
     movementInterval := movementInterval st;
     movementSpeed := movementSpeed st; isDragging := isDragging st;
     lastMouseX := lastMouseX st; lastMouseY := lastMouseY st;
     console := console st; wire := wire st; timers := timers st;
     timeouts := timeouts st |}.

Definition set_cameraY (v : num) (st : GameClient) : GameClient :=
  {| canvas_width := canvas_width st; canvas_height := canvas_height st;
     cursor := cursor st; ctx := ctx st; worldImage := worldImage st;
     worldWidth := worldWidth st; worldHeight := worldHeight st;
     myPlayerId := myPlayerId st; players := players st;
     avatars := avatars st; websocket := websocket st; cameraX := cameraX st;
     cameraY := v; avatarSize := avatarSize st;
     loadedAvatarImages := loadedAvatarImages st;
     pressedKeys := pressedKeys st; isMoving := isMoving st;
     movementInterval := movementInterval st;
     movementSpeed := movementSpeed st; isDragging := isDragging st;
     lastMouseX := lastMouseX st; lastMouseY := lastMouseY st;
     console := console st; wire := wire st; timers := timers st;
     timeouts := timeouts st |}.

Definition set_loadedAvatarImages (v : gmap string (gmap string (list Image))) (st : GameClient) : GameClient :=
  {| canvas_width := canvas_width st; canvas_height := canvas_height st;
     cursor := cursor st; ctx := ctx st; worldImage := worldImage st;
     worldWidth := worldWidth st; worldHeight := worldHeight st;
     myPlayerId := myPlayerId st; players := players st;
     avatars := avatars st; websocket := websocket st; cameraX := cameraX st;
     cameraY := cameraY st; avatarSize := avatarSize st;
     loadedAvatarImages := v; pressedKeys := pressedKeys st;
     isMoving := isMoving st; movementInterval := movementInterval st;
     movementSpeed := movementSpeed st; isDragging := isDragging st;
     lastMouseX := lastMouseX st; lastMouseY := lastMouseY st;
     console := console st; wire := wire st; timers := timers st;
     timeouts := timeouts st |}.

Definition set_pressedKeys (v : list string) (st : GameClient) : GameClient :=
  {| canvas_width := canvas_width st; canvas_height := canvas_height st;
     cursor := cursor st; ctx := ctx st; worldImage := worldImage st;
     worldWidth := worldWidth st; worldHeight := worldHeight st;
     myPlayerId := myPlayerId st; players := players st;
     avatars := avatars st; websocket := websocket st; cameraX := cameraX st;
     cameraY := cameraY st; avatarSize := avatarSize st;
     loadedAvatarImages := loadedAvatarImages st; pressedKeys := v;
     isMoving := isMoving st; movementInterval := movementInterval st;
     movementSpeed := movementSpeed st; isDragging := isDragging st;
     lastMouseX := lastMouseX st; lastMouseY := lastMouseY st;
     console := console st; wire := wire st; timers := timers st;
     timeouts := timeouts st |}.

Definition set_isMoving (v : bool) (st : GameClient) : GameClient :=
  {| canvas_width := canvas_width st; canvas_height := canvas_height st;
     cursor := cursor st; ctx := ctx st; worldImage := worldImage st;
     worldWidth := worldWidth st; worldHeight := worldHeight st;
     myPlayerId := myPlayerId st; players := players st;
     avatars := avatars st; websocket := websocket st; cameraX := cameraX st;
     cameraY := cameraY st; avatarSize := avatarSize st;
     loadedAvatarImages := loadedAvatarImages st;
     pressedKeys := pressedKeys st; isMoving := v;
     movementInterval := movementInterval st;
     movementSpeed := movementSpeed st; isDragging := isDragging st;
     lastMouseX := lastMouseX st; lastMouseY := lastMouseY st;
     console := console st; wire := wire st; timers := timers st;
     timeouts := timeouts st |}.

Definition set_movementInterval (v : option positive) (st : GameClient) : GameClient :=
  {| canvas_width := canvas_width st; canvas_height := canvas_height st;
     cursor := cursor st; ctx := ctx st; worldImage := worldImage st;
     worldWidth := worldWidth st; worldHeight := worldHeight st;
     myPlayerId := myPlayerId st; players := players st;
     avatars := avatars st; websocket := websocket st; cameraX := cameraX st;
     cameraY := cameraY st; avatarSize := avatarSize st;
     loadedAvatarImages := loadedAvatarImages st;
     pressedKeys := pressedKeys st; isMoving := isMoving st;
     movementInterval := v; movementSpeed := movementSpeed st;
     isDragging := isDragging st; lastMouseX := lastMouseX st;
     lastMouseY := lastMouseY st; console := console st; wire := wire st;
     timers := timers st; timeouts := timeouts st |}.

Definition set_isDragging (v : bool) (st : GameClient) : GameClient :=
  {| canvas_width := canvas_width st; canvas_height := canvas_height st;
     cursor := cursor st; ctx := ctx st; worldImage := worldImage st;
     worldWidth := worldWidth st; worldHeight := worldHeight st;
     myPlayerId := myPlayerId st; players := players st;
     avatars := avatars st; websocket := websocket st; cameraX := cameraX st;
     cameraY := cameraY st; avatarSize := avatarSize st;
     loadedAvatarImages := loadedAvatarImages st;
     pressedKeys := pressedKeys st; isMoving := isMoving st;
     movementInterval := movementInterval st;
     movementSpeed := movementSpeed st; isDragging := v;
     lastMouseX := lastMouseX st; lastMouseY := lastMouseY st;
     console := console st; wire := wire st; timers := timers st;
     timeouts := timeouts st |}.

Definition set_lastMouseX (v : Q) (st : GameClient) : GameClient :=
  {| canvas_width := canvas_width st; canvas_height := canvas_height st;
     cursor := cursor st; ctx := ctx st; worldImage := worldImage st;
     worldWidth := worldWidth st; worldHeight := worldHeight st;
     myPlayerId := myPlayerId st; players := players st;
     avatars := avatars st; websocket := websocket st; cameraX := cameraX st;
     cameraY := cameraY st; avatarSize := avatarSize st;
     loadedAvatarImages := loadedAvatarImages st;
     pressedKeys := pressedKeys st; isMoving := isMoving st;
     movementInterval := movementInterval st;
     movementSpeed := movementSpeed st; isDragging := isDragging st;
     lastMouseX := v; lastMouseY := lastMouseY st; console := console st;
     wire := wire st; timers := timers st; timeouts := timeouts st |}.

Definition set_lastMouseY (v : Q) (st : GameClient) : GameClient :=
  {| canvas_width := canvas_width st; canvas_height := canvas_height st;
     cursor := cursor st; ctx := ctx st; worldImage := worldImage st;
     worldWidth := worldWidth st; worldHeight := worldHeight st;
     myPlayerId := myPlayerId st; players := players st;
     avatars := avatars st; websocket := websocket st; cameraX := cameraX st;
     cameraY := cameraY st; avatarSize := avatarSize st;
     loadedAvatarImages := loadedAvatarImages st;
     pressedKeys := pressedKeys st; isMoving := isMoving st;
     movementInterval := movementInterval st;
     movementSpeed := movementSpeed st; isDragging := isDragging st;
     lastMouseX := lastMouseX st; lastMouseY := v; console := console st;
     wire := wire st; timers := timers st; timeouts := timeouts st |}.

Definition set_console (v : list LogEntry) (st : GameClient) : GameClient :=
  {| canvas_width := canvas_width st; canvas_height := canvas_height st;
     cursor := cursor st; ctx := ctx st; worldImage := worldImage st;
     worldWidth := worldWidth st; worldHeight := worldHeight st;
     myPlayerId := myPlayerId st; players := players st;
     avatars := avatars st; websocket := websocket st; cameraX := cameraX st;
     cameraY := cameraY st; avatarSize := avatarSize st;
     loadedAvatarImages := loadedAvatarImages st;
     pressedKeys := pressedKeys st; isMoving := isMoving st;
     movementInterval := movementInterval st;
     movementSpeed := movementSpeed st; isDragging := isDragging st;
     lastMouseX := lastMouseX st; lastMouseY := lastMouseY st; console := v;
     wire := wire st; timers := timers st; timeouts := timeouts st |}.

Definition set_wire (v : list Outbound) (st : GameClient) : GameClient :=
  {| canvas_width := canvas_width st; canvas_height := canvas_height st;
     cursor := cursor st; ctx := ctx st; worldImage := worldImage st;
     worldWidth := worldWidth st; worldHeight := worldHeight st;
     myPlayerId := myPlayerId st; players := players st;
     avatars := avatars st; websocket := websocket st; cameraX := cameraX st;
     cameraY := cameraY st; avatarSize := avatarSize st;
     loadedAvatarImages := loadedAvatarImages st;
     pressedKeys := pressedKeys st; isMoving := isMoving st;
     movementInterval := movementInterval st;
     movementSpeed := movementSpeed st; isDragging := isDragging st;
     lastMouseX := lastMouseX st; lastMouseY := lastMouseY st;
     console := console st; wire := v; timers := timers st;
     timeouts := timeouts st |}.

Definition set_timers (v : positive) (st : GameClient) : GameClient :=
  {| canvas_width := canvas_width st; canvas_height := canvas_height st;
     cursor := cursor st; ctx := ctx st; worldImage := worldImage st;
     worldWidth := worldWidth st; worldHeight := worldHeight st;
     myPlayerId := myPlayerId st; players := players st;
     avatars := avatars st; websocket := websocket st; cameraX := cameraX st;
     cameraY := cameraY st; avatarSize := avatarSize st;
     loadedAvatarImages := loadedAvatarImages st;
     pressedKeys := pressedKeys st; isMoving := isMoving st;
     movementInterval := movementInterval st;
     movementSpeed := movementSpeed st; isDragging := isDragging st;
     lastMouseX := lastMouseX st; lastMouseY := lastMouseY st;
     console := console st; wire := wire st; timers := v;
     timeouts := timeouts st |}.

Definition set_timeouts (v : list positive) (st : GameClient) : GameClient :=
  {| canvas_width := canvas_width st; canvas_height := canvas_height st;
     cursor := cursor st; ctx := ctx st; worldImage := worldImage st;
     worldWidth := worldWidth st; worldHeight := worldHeight st;
     myPlayerId := myPlayerId st; players := players st;
     avatars := avatars st; websocket := websocket st; cameraX := cameraX st;
     cameraY := cameraY st; avatarSize := avatarSize st;
     loadedAvatarImages := loadedAvatarImages st;
     pressedKeys := pressedKeys st; isMoving := isMoving st;
     movementInterval := movementInterval st;
     movementSpeed := movementSpeed st; isDragging := isDragging st;
     lastMouseX := lastMouseX st; lastMouseY := lastMouseY st;
     console := console st; wire := wire st; timers := timers st;
     timeouts := v |}.

(** ** Methods as state transformers with exceptions *)

Inductive Completion (A : Type) : Type :=
| Normal (a : A) (st : GameClient)
| Throw (e : Exn) (st : GameClient).

Arguments Normal {A} a st.
Arguments Throw {A} e st.

Definition M (A : Type) : Type := GameClient -> Completion A.

Definition ret {A : Type} (a : A) : M A := fun st => Normal a st.

Definition bind {A B : Type} (m : M A) (k : A -> M B) : M B :=
  fun st =>
    match m st with
    | Normal a st' => k a st'
    | Throw e st' => Throw e st'
    end.

Definition throw {A : Type} (e : Exn) : M A := fun st => Throw e st.

(** [try { m } catch (error) { h error }] *)
Definition try_catch (m : M unit) (h : Exn -> M unit) : M unit :=
  fun st =>
    match m st with
    | Normal a st' => Normal a st'
    | Throw e st' => h e st'
    end.

(** Reading and assigning fields of [this]. *)
Definition this {A : Type} (f : GameClient -> A) : M A :=
  fun st => Normal (f st) st.

Definition assign (f : GameClient -> GameClient) : M unit :=
  fun st => Normal tt (f st).

Declare Scope js_scope.
Delimit Scope js_scope with js.
Notation "x <- m ;; k" := (bind m (fun x => k))
  (at level 100, m at next level, right associativity) : js_scope.
Notation "m ;; k" := (bind m (fun _ => k))
  (at level 100, right associativity) : js_scope.
Open Scope js_scope.

(** [l.forEach(f)]: an exception thrown by [f] ends the loop. *)
Fixpoint forEach {A : Type} (l : list A) (f : A -> M unit) : M unit :=
  match l with
  | [] => ret tt
  | a :: l' => f a ;; forEach l' f
  end.

(** The state a method leaves behind, however it completes. *)
Definition state_of {A : Type} (c : Completion A) : GameClient :=
  match c with
  | Normal _ st => st
  | Throw _ st => st
  end.

Definition completes {A : Type} (c : Completion A) : bool :=
  match c with
  | Normal _ _ => true
  | Throw _ _ => false
  end.

(** *** The collaborators *)

(** One more line on the console, one more call on the 2D context, one more
    message handed to the socket. *)
Definition logged (entry : LogEntry) (st : GameClient) : GameClient :=
  set_console (console st ++ [entry]) st.

Definition drawn (op : CanvasOp) (st : GameClient) : GameClient :=
  set_ctx (ctx st ++ [op]) st.

Definition sent (msg : Outbound) (st : GameClient) : GameClient :=
  set_wire (wire st ++ [msg]) st.

Definition log (text : string) (args : list value) : M unit :=
  assign (logged (console_log text args)).

Definition error (text : string) : M unit :=
  assign (logged (console_error text)).

Definition draw (op : CanvasOp) : M unit :=
  assign (drawn op).

(** [this.websocket.send(msg)]: a TypeError when [this.websocket] is null,
    an InvalidStateError while the socket is connecting; a closing or closed
    socket discards the data. *)
Definition websocket_send (msg : Outbound) : M unit :=
  ws <- this websocket ;;
  match ws with
  | None => throw TypeError
  | Some CONNECTING => throw InvalidStateError
  | Some OPEN => assign (sent msg)
  | Some _ => ret tt
  end.

(** [setInterval(callback, delay)] returns a fresh, non-zero handle. *)
Definition setInterval : M positive :=
  h <- this timers ;;
  assign (set_timers (Pos.succ h)) ;;
  ret h.

(** [setTimeout(callback, delay)]: the callback is pending until it
    fires. *)
Definition setTimeout : M positive :=
  h <- this timers ;;
  assign (set_timers (Pos.succ h)) ;;
  assign (fun st => set_timeouts (timeouts st ++ [h]) st) ;;
  ret h.

(** ** Camera *)

(** [Math.max(0, Math.min(camera, world - viewport))] *)
Definition clamp (camera : num) (world viewport : Q) : num :=
  Math_max (Fin 0) (Math_min camera (Fin (world - viewport))).

(** [worldToScreen(worldX, worldY)] *)
Definition worldToScreen (st : GameClient) (worldX worldY : num) : num * num :=
  (num_sub worldX (cameraX st), num_sub worldY (cameraY st)).

(** The conversion of the click handler, for [x = event.clientX - rect.left]
    and [y = event.clientY - rect.top]:
    [Math.floor(x + this.cameraX)], [Math.floor(y + this.cameraY)]. *)
Definition clickToWorld (st : GameClient) (x y : num) : num * num :=
  (Math_floor (num_add x (cameraX st)), Math_floor (num_add y (cameraY st))).

Definition onclick (clientX clientY rectLeft rectTop : Q) : M unit :=
  let x := Fin (clientX - rectLeft) in
  let y := Fin (clientY - rectTop) in
  world <- this (fun st => clickToWorld st x y) ;;
  log "Clicked at world coordinates:" [VNum (fst world); VNum (snd world)].

(** ** Frames of an avatar *)

(** What [frames[frameIndex]] can be: an array has its elements and
    [length] as own properties, and inherits the members of
    [Array.prototype] and of [Object.prototype]; [EInherited] stands for
    such a member and for any other truthy value of the realm, none of
    which is an image. *)
Inductive Element : Type :=
| EUndefined
| EImage (i : Image)
| ELength (n : nat)
| EInherited.

Definition element_truthy (e : Element) : bool :=
  match e with
  | EUndefined => false
  | EImage _ => true
  | ELength n => negb (Nat.eqb n 0)
  | EInherited => true
  end.

(** What [frames] can be once it is truthy: an array of images, or a value
    of the realm reached from [Object.prototype] along a path of property
    names. *)
Inductive Sequence : Type :=
| Frames (frames : list Image)
| Builtin (path : list string).

(** What a read in the realm comes to: the getter throws, or the value is
    falsy, or it is truthy. *)
Inductive Reached : Type :=
| Throws (e : Exn)
| Falsy
| Truthy.

Definition element_at (frames : list Image) (i : nat) : Element :=
  match frames !! i with
  | Some im => EImage im
  | None => EUndefined
  end.

(** A number names an element when it is a non-negative integer. *)
Definition index_of (q : Q) : option nat :=
  if Qle_bool 0 q && Qeq_bool (inject_Z (Qfloor q)) q
  then Some (Z.to_nat (Qfloor q))
  else None.

(** [facing === 'left' || facing === 'west'] *)
Definition is_west (facing : value) : bool :=
  match facing with
  | VStr s => String.eqb s "left" || String.eqb s "west"
  | _ => false
  end.

(** ** The host of the class

    Operations of the language and of the browser that the class relies on
    and does not define: the conversion of a string to a number, the
    conversion of a number to a string, and [JSON.parse] followed by the
    decoding of the message ([None] when the payload does not parse).

    The realm: [Array_prototype name] tells whether [Array.prototype] has a
    member of that name, and [builtin_read [k1; ...; kn]] what the read
    [Object.prototype[k1]...[kn]] comes to, the reads before the last
    having given truthy values. *)

Class Host : Type := {
  StringToNumber : string -> num;
  NumberToString : Q -> string;
  JSON_parse : string -> option Message;
  Array_prototype : string -> bool;
  builtin_read : list string -> Reached
}.

(** ** The methods of [GameClient] *)

Section Client.
Context `{Host}.

(** ToNumber, applied by [-] to its operands. *)
Definition ToNumber (v : value) : num :=
  match v with
  | VUndefined => NaN
  | VNull => Fin 0
  | VBool b => if b then Fin 1 else Fin 0
  | VNum n => n
  | VStr s => StringToNumber s
  end.

(** ToPropertyKey, applied by [o[v]] to [v]. *)
Definition ToPropertyKey (v : value) : string :=
  match v with
  | VUndefined => "undefined"
  | VNull => "null"
  | VBool b => if b then "true" else "false"
  | VNum NaN => "NaN"
  | VNum (Fin q) => NumberToString q
  | VStr s => s
  end.

(** [frames[frameIndex]]: a non-negative integer names the element at that
    index; a string names [length], or the element whose index prints as
    that string, or else a member that the array inherits; an array has no
    other property, and the names that numbers, booleans, [null] and
    [undefined] convert to are names of no member. *)
Definition array_get (frames : list Image) (frameIndex : value) : Element :=
  match frameIndex with
  | VNum (Fin q) =>
      match index_of q with
      | Some i => element_at frames i
      | None => EUndefined
      end
  | VStr s =>
      if String.eqb s "length" then ELength (length frames)
      else
        match
          find (fun i => String.eqb (NumberToString (inject_Z (Z.of_nat i))) s)
               (seq 0 (length frames))
        with
        | Some i => element_at frames i
        | None =>
            if Array_prototype s || inherits s then EInherited else EUndefined
        end
  | _ => EUndefined
  end.

(** [avatarImages[name]], for [avatarImages] the truthy value that
    [this.loadedAvatarImages[key]] has found: [None] when the read gives a
    falsy value. *)
Definition sequence_of (avatarImages : Property (gmap string (list Image)))
    (key name : string) : M (option Sequence) :=
  match avatarImages with
  | Own sequences =>
      match property sequences name with
      | Own frames => ret (Some (Frames frames))
      | Inherited => ret (Some (Builtin [name]))
      | Missing => ret None
      end
  | Inherited =>
      match builtin_read [key; name] with
      | Throws e => throw e
      | Falsy => ret None
      | Truthy => ret (Some (Builtin [key; name]))
      end
  | Missing => ret None
  end.

(** [frames[frameIndex]] *)
Definition frame_of (frames : Sequence) (frameIndex : value) : M Element :=
  match frames with
  | Frames images => ret (array_get images frameIndex)
  | Builtin path =>
      match builtin_read (path ++ [ToPropertyKey frameIndex]) with
      | Throws e => throw e
      | Falsy => ret EUndefined
      | Truthy => ret EInherited
      end
  end.

(** [ctx.drawImage(avatarImg, ...)] throws a TypeError when its first
    argument is not an image. *)
Definition drawn_image (e : Element) : M Image :=
  match e with
  | EImage i => ret i
  | _ => throw TypeError
  end.

Definition renderAvatar (player : Player) (screenX screenY : num) : M unit :=
  known <- this avatars ;;
  loaded <- this loadedAvatarImages ;;
  let key := ToPropertyKey (get player "avatar") in
  match property known key, property loaded key with
  | Missing, _ | _, Missing => ret tt
  | _, avatarImages =>
      let facing := get player "facing" in
      let frameIndex := js_or (get player "animationFrame") (VNum (Fin 0)) in
      selected <-
        (if is_west facing
         then frames <- sequence_of avatarImages key "east" ;;
              log "Rendering west-facing avatar with flip" [] ;;
              ret (frames, true)
         else frames <- sequence_of avatarImages key (ToPropertyKey facing) ;;
              log "Rendering avatar facing:" [facing] ;;
              ret (frames, false)) ;;
      let shouldFlip : bool := snd selected in
      match fst selected with
      | None => ret tt
      | Some frames =>
          avatarImg <- frame_of frames frameIndex ;;
          if negb (element_truthy avatarImg) then ret tt
          else
            size <- this avatarSize ;;
            let avatarX := num_sub screenX (Fin (size / 2)) in
            let avatarY := num_sub screenY (Fin (size / 2)) in
            log "Avatar position:"
                [VNum screenX; VNum screenY; VNum avatarX; VNum avatarY;
                 VBool shouldFlip] ;;
            (if shouldFlip
             then
               log "Flipping avatar for west direction" [] ;;
               i <- drawn_image avatarImg ;;
               draw (drawImage
                       (tempCanvas size size
                          [scale (-1) 1;
                           drawImage (img i)
                             (Fin (- size)) (Fin 0) (Fin size) (Fin size)])
                       avatarX avatarY (Fin size) (Fin size)) ;;
               log "Flipped avatar drawn at:" [VNum avatarX; VNum avatarY]
             else
               i <- drawn_image avatarImg ;;
               draw (drawImage (img i) avatarX avatarY (Fin size) (Fin size))) ;;
            let labelY := num_sub avatarY (Fin 5) in
            let labelX := screenX in
            draw (strokeText (get player "username") labelX labelY) ;;
            draw (fillText (get player "username") labelX labelY)
      end
  end.

Definition renderAvatars : M unit :=
  all <- this players ;;
  log "Rendering" [VNum (Fin (inject_Z (Z.of_nat (size all))))] ;;
  forEach (map_to_list all) (fun entry =>
    let player : Player := snd entry in
    screenPos <- this (fun st =>
      worldToScreen st (ToNumber (get player "x")) (ToNumber (get player "y"))) ;;
    log "Player at world -> screen"
        [get player "username"; get player "x"; get player "y";
         VNum (fst screenPos); VNum (snd screenPos)] ;;
    renderAvatar player (fst screenPos) (snd screenPos)).

Definition drawWorld : M unit :=
  world <- this worldImage ;;
  match world with
  | None => ret tt
  | Some worldImg =>
      width <- this canvas_width ;;
      height <- this canvas_height ;;
      draw (clearRect (Fin 0) (Fin 0) (Fin (inject_Z width)) (Fin (inject_Z height))) ;;
      let viewportWidth := inject_Z width in
      let viewportHeight := inject_Z height in
      assign (fun st =>
        set_cameraX (clamp (cameraX st) (worldWidth st) viewportWidth) st) ;;
      assign (fun st =>
        set_cameraY (clamp (cameraY st) (worldHeight st) viewportHeight) st) ;;
      cx <- this cameraX ;;
      cy <- this cameraY ;;
      draw (drawImageSub (img worldImg)
              cx cy (Fin viewportWidth) (Fin viewportHeight)
              (Fin 0) (Fin 0) (Fin viewportWidth) (Fin viewportHeight)) ;;
      renderAvatars
  end.

(** Under a name that [players] inherits, [myPlayer] is a member of
    [Object.prototype], which has no property [x] or [y]: both read
    [undefined]. *)
Definition centerCameraOnMyAvatar : M unit :=
  me <- this myPlayerId ;;
  all <- this players ;;
  if truthy me then
    match property all (ToPropertyKey me) with
    | Own myPlayer =>
        width <- this canvas_width ;;
        height <- this canvas_height ;;
        assign (set_cameraX
          (num_sub (ToNumber (get myPlayer "x")) (Fin (inject_Z width / 2)))) ;;
        assign (set_cameraY
          (num_sub (ToNumber (get myPlayer "y")) (Fin (inject_Z height / 2))))
    | Inherited =>
        width <- this canvas_width ;;
        height <- this canvas_height ;;
        assign (set_cameraX
          (num_sub (ToNumber VUndefined) (Fin (inject_Z width / 2)))) ;;
        assign (set_cameraY
          (num_sub (ToNumber VUndefined) (Fin (inject_Z height / 2))))
    | Missing => ret tt
    end
  else ret tt.

(** *** Mouse: dragging the camera *)

Definition onmousedown (clientX clientY : Q) : M unit :=
  assign (set_isDragging true) ;;
  assign (set_lastMouseX clientX) ;;
  assign (set_lastMouseY clientY) ;;
  assign (set_cursor "grabbing").

Definition onmousemove (clientX clientY : Q) : M unit :=
  dragging <- this isDragging ;;
  if dragging then
    deltaX <- this (fun st => clientX - lastMouseX st) ;;
    deltaY <- this (fun st => clientY - lastMouseY st) ;;
    assign (fun st => set_cameraX (num_sub (cameraX st) (Fin deltaX)) st) ;;
    assign (fun st => set_cameraY (num_sub (cameraY st) (Fin deltaY)) st) ;;
    assign (set_lastMouseX clientX) ;;
    assign (set_lastMouseY clientY) ;;
    drawWorld
  else ret tt.

Definition onmouseup : M unit :=
  assign (set_isDragging false) ;;
  assign (set_cursor "crosshair").

Definition onmouseleave : M unit :=
  assign (set_isDragging false) ;;
  assign (set_cursor "crosshair").

(** *** The server connection *)

Definition joinGame : M unit :=
  websocket_send (send_join_game "Robert") ;;
  log "Sent join_game message" [].

(** The socket reaches OPEN, then the [onopen] listener runs. *)
Definition onopen : M unit :=
  assign (set_websocket (Some OPEN)) ;;
  log "Connected to game server" [] ;;
  joinGame.

(** One avatar of [Object.values(this.avatars).forEach(...)]: the guard
    [!this.loadedAvatarImages[avatar.name]] lets through a name under which
    the read finds nothing, own or inherited. *)
Definition loadAvatarImage (avatar : Avatar) : M unit :=
  loaded <- this loadedAvatarImages ;;
  match property loaded (name avatar) with
  | Own _ | Inherited => ret tt
  | Missing =>
      assign (set_loadedAvatarImages (<[name avatar := ∅]> loaded)) ;;
      forEach ["north"; "south"; "east"]%string (fun direction =>
        match frames avatar !! direction with
        | Some frameData =>
            assign (fun st =>
              set_loadedAvatarImages
                (<[name avatar :=
                     <[direction := map mkImage frameData]>
                       (default ∅ (loadedAvatarImages st !! name avatar))]>
                   (loadedAvatarImages st)) st)
        | None => ret tt
        end)
  end.

Definition loadAvatarImages : M unit :=
  known <- this avatars ;;
  forEach (map_to_list known) (fun entry => loadAvatarImage (snd entry)).

Definition handleServerMessage (message : Message) : M unit :=
  log "Received message:" [] ;;
  count <- this (fun st => size (players st)) ;;
  log "Current players count:" [VNum (Fin (inject_Z (Z.of_nat count)))] ;;
  log "Current players:" [] ;;
  match message with
  | join_game success playerId newPlayers newAvatars =>
      if success then
        assign (set_myPlayerId playerId) ;;
        assign (set_players newPlayers) ;;
        assign (set_avatars newAvatars) ;;
        log "Joined game successfully!" [] ;;
        log "My player ID:" [playerId] ;;
        log "All players received:" [] ;;
        log "Players data:" [] ;;
        loadAvatarImages ;;
        centerCameraOnMyAvatar ;;
        drawWorld
      else error "Failed to join game:"
  | player_joined player avatar =>
      log "New player joined:" [get player "username"] ;;
      assign (fun st =>
        set_players (<[ToPropertyKey (get player "id") := player]> (players st)) st) ;;
      assign (fun st => set_avatars (<[name avatar := avatar]> (avatars st)) st) ;;
      loadAvatarImages ;;
      drawWorld
  | players_moved moved =>
      log "Players moved, updating positions:" [] ;;
      (* Object.assign(this.players, message.players): every own property
         of the source is copied onto the target *)
      assign (fun st => set_players (moved ∪ players st) st) ;;
      centerCameraOnMyAvatar ;;
      drawWorld
  | player_left playerId =>
      log "Player left:" [playerId] ;;
      assign (fun st => set_players (delete (ToPropertyKey playerId) (players st)) st) ;;
      drawWorld
  | unknown_action action =>
      log "Unknown message type:" [action]
  end.

(** [this.websocket.onmessage], on [event.data]. *)
Definition onmessage (data : string) : M unit :=
  try_catch
    (match JSON_parse data with
     | Some message => handleServerMessage message
     | None => throw SyntaxError
     end)
    (fun _ => error "Error parsing server message:").

(** *** Keyboard: the movement commands *)

Definition sendMoveCommand (direction : Direction) : M unit :=
  ws <- this websocket ;;
  match ws with
  | Some OPEN =>
      websocket_send (send_move direction) ;;
      log "Sent move command:" [VStr (direction_name direction)]
  | _ => log "WebSocket not connected, cannot send move command" []
  end.

Definition sendStopCommand : M unit :=
  ws <- this websocket ;;
  match ws with
  | Some OPEN =>
      websocket_send send_stop ;;
      log "Sent stop command" []
  | _ => log "WebSocket not connected, cannot send stop command" []
  end.

(** The callback given to [setInterval]. *)
Definition movementTick : M unit :=
  keys <- this pressedKeys ;;
  match keys with
  | first :: _ =>
      match keyMap first with
      | Some direction => sendMoveCommand direction
      | None => ret tt
      end
  | [] => ret tt
  end.

Definition startContinuousMovement : M unit :=
  running <- this movementInterval ;;
  match running with
  | Some _ => ret tt
  | None =>
      h <- setInterval ;;
      assign (set_movementInterval (Some h))
  end.

Definition stopContinuousMovement : M unit :=
  running <- this movementInterval ;;
  match running with
  | Some _ => assign (set_movementInterval None)
  | None => ret tt
  end.

Definition checkMovementState : M unit :=
  hasMovementKeys <- this (fun st => Nat.ltb 0 (length (pressedKeys st))) ;;
  moving <- this isMoving ;;
  if moving && negb hasMovementKeys then
    assign (set_isMoving false) ;;
    stopContinuousMovement ;;
    sendStopCommand
  else ret tt.

(** [this.pressedKeys[code]] is [true] or absent. *)
Definition pressed (code : string) (st : GameClient) : bool :=
  existsb (String.eqb code) (pressedKeys st).

Definition handleKeyDown (code : string) : M unit :=
  if String.eqb code "KeyC" then
    centerCameraOnMyAvatar ;;
    drawWorld
  else
    match keyMap code with
    | Some direction =>
        held <- this (pressed code) ;;
        if held then ret tt
        else
          assign (fun st => set_pressedKeys (pressedKeys st ++ [code]) st) ;;
          sendMoveCommand direction ;;
          startContinuousMovement
    | None => ret tt
    end.

Definition handleKeyUp (code : string) : M unit :=
  match keyMap code with
  | Some direction =>
      held <- this (pressed code) ;;
      if held then
        assign (fun st =>
          set_pressedKeys
            (filter (fun k => k <> code) (pressedKeys st)) st) ;;
        checkMovementState
      else ret tt
  | None => ret tt
  end.

(** *** The window, the world image and the life of the socket *)

(** The [resize] listener of [setupCanvas]. *)
Definition onresize (innerWidth innerHeight : Z) : M unit :=
  assign (set_canvas_width innerWidth) ;;
  assign (set_canvas_height innerHeight) ;;
  drawWorld.

(** [this.worldImage.onload] *)
Definition onload : M unit := drawWorld.

(** [connectToServer]: a new socket, connecting. *)
Definition connectToServer : M unit :=
  try_catch
    (assign (set_websocket (Some CONNECTING)))
    (fun _ => error "Failed to connect to server:").

(** The callback given to [setTimeout] by [onclose]. *)
Definition reconnect : M unit :=
  log "Attempting to reconnect..." [] ;;
  connectToServer.

(** The socket reaches CLOSED, then the [onclose] listener runs. *)
Definition onclose : M unit :=
  assign (set_websocket (Some CLOSED)) ;;
  log "Disconnected from game server" [] ;;
  _ <- setTimeout ;;
  ret tt.

Definition onerror : M unit := error "WebSocket error:".

(** *** The events of a session *)

Inductive Event : Type :=
| KeyDown (code : string)
| KeyUp (code : string)
| IntervalTick
| MouseDown (clientX clientY : Q)
| MouseMove (clientX clientY : Q)
| MouseUp
| MouseLeave
| Click (clientX clientY rectLeft rectTop : Q)
| Resize (innerWidth innerHeight : Z)
| WorldImageLoaded
| SocketOpen
| SocketMessage (data : string)
| SocketError
| SocketClose
| ReconnectTimeout.

(** The listener of one event.  The interval callback runs only while the
    interval of [movementInterval] has not been cleared, and a reconnection
    fires only when one is pending. *)
Definition dispatch (e : Event) : M unit :=
  match e with
  | KeyDown code => handleKeyDown code
  | KeyUp code => handleKeyUp code
  | IntervalTick =>
      running <- this movementInterval ;;
      match running with
      | Some _ => movementTick
      | None => ret tt
      end
  | MouseDown x y => onmousedown x y
  | MouseMove x y => onmousemove x y
  | MouseUp => onmouseup
  | MouseLeave => onmouseleave
  | Click x y l t => onclick x y l t
  | Resize w h => onresize w h
  | WorldImageLoaded => onload
  | SocketOpen => onopen
  | SocketMessage data => onmessage data
  | SocketError => onerror
  | SocketClose => onclose
  | ReconnectTimeout =>
      pending <- this timeouts ;;
      match pending with
      | _ :: rest => assign (set_timeouts rest) ;; reconnect
      | [] => ret tt
      end
  end.

(** A run: the listeners of the events in turn.  An exception that leaves
    a listener is reported by the browser and the next event is served. *)
Fixpoint run (events : list Event) (st : GameClient) : GameClient :=
  match events with
  | [] => st
  | e :: rest => run rest (state_of (dispatch e st))
  end.

End Client.

(** The state once the constructor has run in a window of the given inner
    size: the world image is requested and the socket is connecting. *)
Definition constructed (innerWidth innerHeight : Z) : GameClient :=
  {| canvas_width := innerWidth; canvas_height := innerHeight;
     cursor := ""; ctx := [];
     worldImage := Some (mkImage "world.jpg");
     worldWidth := 2048; worldHeight := 2048;
     myPlayerId := VNull; players := ∅; avatars := ∅;
     websocket := Some CONNECTING;
     cameraX := Fin 0; cameraY := Fin 0;
     avatarSize := 32; loadedAvatarImages := ∅;
     pressedKeys := []; isMoving := false; movementInterval := None;
     movementSpeed := 100;
     isDragging := false; lastMouseX := 0; lastMouseY := 0;
     console := []; wire := []; timers := 1%positive; timeouts := [] |}.

(** * Vocabulary of the properties *)

(** ** Methods *)

(** [respects R m]: the state [m] leaves behind is related by [R] to the
    state it started from, however [m] completes. *)
Definition respects {A : Type} (R : relation GameClient) (m : M A) : Prop :=
  forall st, R st (state_of (m st)).

(** [total m]: [m] never throws. *)
Definition total {A : Type} (m : M A) : Prop :=
  forall st, completes (m st) = true.

(** [preserves I m]: [m] keeps the invariant [I], however it completes. *)
Definition preserves {A : Type} (I : GameClient -> Prop) (m : M A) : Prop :=
  forall st, I st -> I (state_of (m st)).

(** [establishes P Q m]: from a state where [P] holds, [m] leaves a state
    where [Q] holds, however it completes. *)
Definition establishes {A : Type} (P Q : GameClient -> Prop) (m : M A) : Prop :=
  forall st, P st -> Q (state_of (m st)).

(** ** Parts of the state *)

(** The state without the traces of the canvas and of the console. *)
Definition quiet (st : GameClient) : GameClient :=
  set_ctx [] (set_console [] st).

Definition same_quiet : relation GameClient := fun a b => quiet b = quiet a.

(** The state without the camera and the two traces: what centering and
    drawing never write. *)
Definition still (st : GameClient) : GameClient :=
  set_cameraX NaN (set_cameraY NaN (quiet st)).

Definition same_still : relation GameClient := fun a b => still b = still a.

(** The state without the loaded images: what [loadAvatarImages] never
    writes. *)
Definition unloaded (st : GameClient) : GameClient :=
  set_loadedAvatarImages ∅ st.

Definition same_unloaded : relation GameClient :=
  fun a b => unloaded b = unloaded a.

(** The world image, the size of the world and the size of the viewport:
    what no message of the server writes. *)
Definition scene (st : GameClient) : option Image * Q * Q * Z * Z :=
  (worldImage st, worldWidth st, worldHeight st,
   canvas_width st, canvas_height st).

(** The camera, the players, the id of the local player and the scene:
    what most listeners leave alone. *)
Definition view (st : GameClient)
  : num * num * gmap string Player * value * (option Image * Q * Q * Z * Z) :=
  (cameraX st, cameraY st, players st, myPlayerId st, scene st).

Definition same_view : relation GameClient := fun a b => view b = view a.

(** ** Camera *)

(** The viewport is the canvas. *)
Definition viewportWidth (st : GameClient) : Q := inject_Z (canvas_width st).
Definition viewportHeight (st : GameClient) : Q := inject_Z (canvas_height st).

(** [0 <= camera <= max(0, world - viewport)] on both axes. *)
Definition camera_in_bounds (st : GameClient) : Prop :=
  num_between 0 (cameraX st) (Qmax 0 (worldWidth st - viewportWidth st)) /\
  num_between 0 (cameraY st) (Qmax 0 (worldHeight st - viewportHeight st)).

Definition camera_is_number (st : GameClient) : Prop :=
  exists cx cy, cameraX st = Fin cx /\ cameraY st = Fin cy.

(** What [this.myPlayerId && this.players[this.myPlayerId]] finds: a
    player of the store, a member of [Object.prototype], or nothing. *)
Definition followed `{Host} (st : GameClient) : Property Player :=
  if truthy (myPlayerId st)
  then property (players st) (ToPropertyKey (myPlayerId st))
  else Missing.

(** The local player: the player that the store holds under a truthy
    [myPlayerId]. *)
Definition local_player `{Host} (st : GameClient) : option Player :=
  if truthy (myPlayerId st)
  then players st !! ToPropertyKey (myPlayerId st)
  else None.

(** A player whose [x] and [y] are the numbers [x] and [y]. *)
Definition positioned (p : Player) (x y : Q) : Prop :=
  p !! "x" = Some (VNum (Fin x)) /\ p !! "y" = Some (VNum (Fin y)).

(** Equality of two points, axis by axis. *)
Definition point_eq (a b : num * num) : Prop :=
  fst a =n= fst b /\ snd a =n= snd b.

(** World to screen and back through the click handler. *)
Definition world_screen_world (st : GameClient) (world : num * num) : num * num :=
  let screen := worldToScreen st (fst world) (snd world) in
  clickToWorld st (fst screen) (snd screen).

(** Screen to world through the click handler and back. *)
Definition screen_world_screen (st : GameClient) (screen : num * num) : num * num :=
  let world := clickToWorld st (fst screen) (snd screen) in
  worldToScreen st (fst world) (snd world).

(** The claim of exact inverses, as the specification words it: both round
    trips give back the point they started from. *)
Definition exact_inverses (st : GameClient) : Prop :=
  forall x y : Q,
    point_eq (world_screen_world st (Fin x, Fin y)) (Fin x, Fin y) /\
    point_eq (screen_world_screen st (Fin x, Fin y)) (Fin x, Fin y).

(** The integers that a double holds exactly, and those on which the
    additions and subtractions of the source are exact: two integers of
    the [exact_range] add and subtract to an integer that is
    [held_exactly], so that no operation rounds. *)
Definition held_exactly (z : Z) : Prop := (Z.abs z <= 2 ^ 53)%Z.

Definition exact_range (z : Z) : Prop := (Z.abs z <= 2 ^ 52)%Z.

(** ** Store *)

(** The field-by-field merge, as the specification words it: the supplied
    fields take their new values and the other fields of the stored player
    keep their previous values. *)
Definition merged_fields (old update new : Player) : Prop :=
  (forall k v, update !! k = Some v -> new !! k = Some v) /\
  (forall k, update !! k = None -> new !! k = old !! k).

Definition players_moved_merges_fields `{Host}
    (st : GameClient) (moved : gmap string Player) (id : string) : Prop :=
  forall old update,
    players st !! id = Some old -> moved !! id = Some update ->
    exists new,
      players (state_of (handleServerMessage (players_moved moved) st)) !! id
        = Some new /\
      merged_fields old update new.

(** ** Rendering *)

(** The frame index [renderAvatar] uses: [player.animationFrame || 0]. *)
Definition frame_index (player : Player) : value :=
  js_or (get player "animationFrame") (VNum (Fin 0)).

(** The sequence [renderAvatar] resolves for a facing, among the loaded
    sequences of the avatar. *)
Definition sequence_for `{Host}
    (sequences : gmap string (list Image)) (facing : value)
  : option (list Image) :=
  if is_west facing then sequences !! "east"
  else sequences !! ToPropertyKey facing.


(** The temporary canvas on which a frame is drawn mirrored: under
    [scale(-1, 1)], at [x = -size]. *)
Definition mirrored (i : Image) (size : Q) : Drawable :=
  tempCanvas size size
    [scale (-1) 1;
     drawImage (img i) (Fin (- size)) (Fin 0) (Fin size) (Fin size)].

(** The calls that draw one player: the sprite centered on the screen
    position, then the name, outlined and filled, five pixels above. *)
Definition sprite_calls (st : GameClient) (player : Player)
    (screenX screenY : num) (sprite : Drawable) : list CanvasOp :=
  let size := avatarSize st in
  let avatarX := num_sub screenX (Fin (size / 2)) in
  let avatarY := num_sub screenY (Fin (size / 2)) in
  [drawImage sprite avatarX avatarY (Fin size) (Fin size);
   strokeText (get player "username") screenX (num_sub avatarY (Fin 5));
   fillText (get player "username") screenX (num_sub avatarY (Fin 5))].


(** A player is drawn with a sprite when the method returns normally after
    exactly the calls of that sprite. *)
Definition drawn_with (st : GameClient) (player : Player)
    (screenX screenY : num) (sprite : Drawable) (c : Completion unit) : Prop :=
  completes c = true /\
  ctx (state_of c) = ctx st ++ sprite_calls st player screenX screenY sprite.


(** ** Session *)

(** The state in which [checkMovementState] finds the client as long as
    nothing has set [isMoving]: not moving, and no stop command sent. *)
Definition never_moving (st : GameClient) : Prop :=
  isMoving st = false /\ send_stop ∉ wire st.

(** Players and messages whose positions are numbers, as the server sends
    them, and whose player ids name no member of [Object.prototype]. *)
Definition numeric_position (p : Player) : Prop :=
  exists x y, positioned p x y.

Definition numeric_positions (ps : gmap string Player) : Prop :=
  forall id p, ps !! id = Some p -> numeric_position p.

(** The ids of the players name no member of [Object.prototype]; in
    particular none is [__proto__]. *)
Definition own_names (ps : gmap string Player) : Prop :=
  forall id p, ps !! id = Some p -> inherits id = false.

Definition well_positioned `{Host} (m : Message) : Prop :=
  match m with
  | join_game _ playerId newPlayers _ =>
      numeric_positions newPlayers /\ inherits (ToPropertyKey playerId) = false
  | player_joined player _ =>
      numeric_position player /\
      inherits (ToPropertyKey (get player "id")) = false
  | players_moved moved => numeric_positions moved /\ own_names moved
  | player_left _ | unknown_action _ => True
  end.

Definition well_formed `{Host} (e : Event) : Prop :=
  match e with
  | SocketMessage data =>
      forall m, JSON_parse data = Some m -> well_positioned m
  | _ => True
  end.

(** The id of the local player names no member of [Object.prototype]. *)
Definition own_id `{Host} (st : GameClient) : Prop :=
  inherits (ToPropertyKey (myPlayerId st)) = false.

(** What holds between two listeners: the world image is there, the
    players have numeric positions, the id of the local player is no
    inherited name and the camera is a number. *)
Definition ready `{Host} (st : GameClient) : Prop :=
  worldImage st <> None /\ numeric_positions (players st) /\ own_id st /\
  camera_is_number st.

(** What holds once the world has been drawn. *)
Definition framed `{Host} (st : GameClient) : Prop :=
  worldImage st <> None /\ numeric_positions (players st) /\ own_id st /\
  camera_in_bounds st.

(** ** Keyboard *)

(** The codes of [keyMap]. *)
Definition movement_keys : list string :=
  ["ArrowUp"; "ArrowDown"; "ArrowLeft"; "ArrowRight";
   "KeyW"; "KeyS"; "KeyA"; "KeyD"]%string.

(** The pressed keys are movement keys, each held once. *)
Definition keys_consistent (st : GameClient) : Prop :=
  NoDup (pressedKeys st) /\ Forall (fun k => is_Some (keyMap k)) (pressedKeys st).

(** Idle: no key held, no interval registered, the socket open. *)
Definition idle (st : GameClient) : Prop :=
  pressedKeys st = [] /\ movementInterval st = None /\ websocket st = Some OPEN.

(** The socket is not open and has been handed [sent_so_far]. *)
Definition offline (sent_so_far : list Outbound) (st : GameClient) : Prop :=
  websocket st <> Some OPEN /\ wire st = sent_so_far.

Definition is_SocketOpen (e : Event) : bool :=
  match e with
  | SocketOpen => true
  | _ => false
  end.

(** What a key event or a tick may change besides the console: the
    messages handed to the socket. [sends l a b]: [b] is [a] after [l] has
    been sent, with the same keys, interval, socket and [isMoving]. *)
Definition sends (l : list Outbound) (a b : GameClient) : Prop :=
  wire b = wire a ++ l /\
  pressedKeys b = pressedKeys a /\ movementInterval b = movementInterval a /\
  websocket b = websocket a /\ isMoving b = isMoving a.

(** The store: what the server announces. *)
Definition store (st : GameClient)
  : value * gmap string Player * gmap string Avatar
    * gmap string (gmap string (list Image)) :=
  (myPlayerId st, players st, avatars st, loadedAvatarImages st).

Definition same_store : relation GameClient := fun a b => store b = store a.

(** The command loop: what the keyboard, the interval and the socket
    own. *)
Definition command_loop (st : GameClient)
  : list Outbound * list string * option positive * option ReadyState
    * bool * positive * list positive :=
  (wire st, pressedKeys st, movementInterval st, websocket st,
   isMoving st, timers st, timeouts st).

Definition same_command_loop : relation GameClient :=
  fun a b => command_loop b = command_loop a.

Definition is_SocketMessage (e : Event) : bool :=
  match e with
  | SocketMessage _ => true
  | _ => false
  end.

(** ** Loaded images *)

(** The directions [loadAvatarImages] loads. *)
Definition loaded_directions : list string := ["north"; "south"; "east"]%string.

(** Every entry of the loaded images of [a] is an entry of those of [b],
    unchanged. *)
Definition images_kept : relation GameClient :=
  fun a b =>
    forall avatarName sequences,
      loadedAvatarImages a !! avatarName = Some sequences ->
      loadedAvatarImages b !! avatarName = Some sequences.

(** Every avatar of the store whose name is no member of
    [Object.prototype] has an entry among the loaded images, under its
    name. *)
Definition avatars_loaded (st : GameClient) : Prop :=
  forall key avatar,
    avatars st !! key = Some avatar ->
    inherits (name avatar) = false ->
    is_Some (loadedAvatarImages st !! name avatar).

(** ** Canvas *)

(** The calls on the canvas of [b] are those of [a] followed by others. *)
Definition canvas_grows : relation GameClient :=
  fun a b => exists calls, ctx b = ctx a ++ calls.

(** ** Connection *)

(** What the listeners of a reconnection keep: the messages sent, the
    store, the pressed keys and the interval. *)
Definition carried (a b : GameClient) : Prop :=
  wire b = wire a /\ store b = store a /\
  pressedKeys b = pressedKeys a /\ movementInterval b = movementInterval a.

(** * Sample data for the instances of the theorems *)

Module Sample.

(** A host for the sample data: it converts strings of decimal digits,
    prints integers in decimal (and any other rational as a fraction), and
    parses the empty object only.  Its realm is a small one: the arrays
    inherit the methods of [array_prototype], and the functions of
    [Object.prototype] have a [name] and a [length] (their number of
    parameters), throw on [caller] and [arguments], and inherit the
    members of [Function.prototype] and of [Object.prototype]; behind
    these, the reads are followed into the characters of a name and no
    further, and the other properties of the function [Object] are left
    out. *)
Fixpoint digits (s : string) (acc : Z) : option Z :=
  match s with
  | EmptyString => Some acc
  | String c rest =>
      let n := (Z.of_nat (Ascii.nat_of_ascii c) - 48)%Z in
      if (0 <=? n)%Z && (n <=? 9)%Z then digits rest (10 * acc + n)%Z else None
  end.

Definition string_to_number (s : string) : num :=
  match digits s 0 with
  | Some n => Fin (inject_Z n)
  | None => NaN
  end.

Definition number_to_string (q : Q) : string :=
  if Qeq_bool (inject_Z (Qfloor q)) q
  then pretty (Qfloor q)
  else pretty (Qnum q) +:+ "/" +:+ pretty (Zpos (Qden q)).

Definition parse (data : string) : option Message :=
  if String.eqb data "{}" then Some (unknown_action VUndefined) else None.

Definition array_prototype : list string :=
  ["at"; "concat"; "constructor"; "copyWithin"; "entries"; "every"; "fill";
   "filter"; "find"; "findIndex"; "findLast"; "findLastIndex"; "flat";
   "flatMap"; "forEach"; "includes"; "indexOf"; "join"; "keys";
   "lastIndexOf"; "map"; "pop"; "push"; "reduce"; "reduceRight"; "reverse";
   "shift"; "slice"; "some"; "sort"; "splice"; "toLocaleString";
   "toReversed"; "toSorted"; "toSpliced"; "toString"; "unshift"; "values";
   "with"]%string.

(** The functions of [Object.prototype] without parameters. *)
Definition nullary : list string :=
  ["toString"; "valueOf"; "toLocaleString"]%string.

(** [Object.prototype[member][key]] for a member that is a function: its
    own [name] and [length], the members of [Function.prototype], of which
    [caller] and [arguments] throw, and those of [Object.prototype]; the
    function [Object] has a [prototype] as well. *)
Definition function_read (member key : string) : Reached :=
  if String.eqb key "name" then Truthy
  else if String.eqb key "length"
  then (if bool_decide (member ∈ nullary) then Falsy else Truthy)
  else if String.eqb key "caller" || String.eqb key "arguments"
  then Throws TypeError
  else if bool_decide (key ∈ ["apply"; "bind"; "call"]%string) || inherits key
  then Truthy
  else if String.eqb member "constructor" && String.eqb key "prototype"
  then Truthy
  else Falsy.

(** The name of the function [Object.prototype[member]]. *)
Definition function_name (member : string) : string :=
  if String.eqb member "constructor" then "Object" else member.

Definition realm (path : list string) : Reached :=
  match path with
  | [member] => if inherits member then Truthy else Falsy
  | [member; key] =>
      if negb (inherits member) then Falsy
      else if String.eqb member "__proto__"
      then (if String.eqb key "__proto__" then Falsy
            else if inherits key then Truthy else Falsy)
      else function_read member key
  | [member; key; index] =>
      if negb (inherits member) || String.eqb member "__proto__" then Falsy
      else if String.eqb key "name"
      then (if String.eqb index "length" then Truthy
            else if existsb (fun i => String.eqb (pretty (Z.of_nat i)) index)
                      (seq 0 (String.length (function_name member)))
            then Truthy else Falsy)
      else Falsy
  | _ => Falsy
  end.

#[export] Instance host : Host :=
  {| StringToNumber := string_to_number;
     NumberToString := number_to_string;
     JSON_parse := parse;
     Array_prototype := fun key => bool_decide (key ∈ array_prototype);
     builtin_read := realm |}.

(** The snapshot of the join scenario: the local player [p1] stands at
    (1000, 1000) and faces west; [p2] stands at (40, 50). *)
Definition p1 : Player :=
  {[ "id" := VStr "p1"; "username" := VStr "Robert";
     "x" := VNum (Fin 1000); "y" := VNum (Fin 1000);
     "facing" := VStr "west"; "avatar" := VStr "knight" ]}.

Definition p2 : Player :=
  {[ "id" := VStr "p2"; "username" := VStr "Ada";
     "x" := VNum (Fin 40); "y" := VNum (Fin 50);
     "facing" := VStr "south"; "avatar" := VStr "knight";
     "animationFrame" := VNum (Fin 1) ]}.


(** A player whose frame index names the length of the sequence. *)
Definition frame_length : Player :=
  <["animationFrame" := VStr "length"]> p2.

(** The images of the avatar [knight] once loaded. *)
Definition knight_images : gmap string (list Image) :=
  {[ "north" := [mkImage "n0"; mkImage "n1"];
     "south" := [mkImage "s0"; mkImage "s1"];
     "east" := [mkImage "e0"; mkImage "e1"] ]}.

(** An update of [p1] that carries a position only. *)
Definition position_only : Player :=
  {[ "x" := VNum (Fin 0); "y" := VNum (Fin 0) ]}.

(** An update of [p1] that carries [y] only. *)
Definition height_only : Player := {[ "y" := VNum (Fin 0) ]}.


Definition knight : Avatar :=
  mkAvatar "knight"
    {[ "north" := ["n0"; "n1"]%string;
       "south" := ["s0"; "s1"]%string;
       "east" := ["e0"; "e1"]%string ]}.

Definition snapshot : Message :=
  join_game true (VStr "p1") {[ "p1" := p1; "p2" := p2 ]} {[ "knight" := knight ]}.

(** A snapshot that assigns the id [toString], under which it holds no
    player. *)
Definition nameless : Message :=
  join_game true (VStr "toString") {[ "p1" := p1 ]} {[ "knight" := knight ]}.


(** A client in a window of 800x600 whose socket has opened and whose join
    has been answered by [snapshot]. *)
Definition joined : GameClient :=
  state_of (handleServerMessage snapshot
              (state_of (onopen (constructed 800 600)))).

(** The client of the sample in a window of 801x600: the camera is centered
    on a half pixel. *)
Definition joined_odd : GameClient :=
  state_of (handleServerMessage snapshot
              (state_of (onopen (constructed 801 600)))).

(** The joined client with the key ArrowUp held. *)
Definition moving : GameClient := run [KeyDown "ArrowUp"] joined.

(** A third player. *)
Definition newcomer : Player := <["id" := VStr "p3"]> p2.

(** The avatar [knight] announced again, with other frames. *)
Definition knight_repainted : Avatar :=
  mkAvatar "knight" {[ "north" := ["x0"]%string ]}.

(** A host whose parser knows the payloads of a scripted session by name:
    the class only sees what [JSON.parse] returns. *)
Definition script (data : string) : option Message :=
  if String.eqb data "snapshot" then Some snapshot
  else if String.eqb data "repaint"
  then Some (player_joined newcomer knight_repainted)
  else if String.eqb data "move"
  then Some (players_moved {[ "p1" := <["x" := VNum (Fin 0)]> p1 ]})
  else if String.eqb data "bad frame"
  then Some (players_moved {[ "p2" := frame_length ]})
  else None.

Definition scripted : Host :=
  {| StringToNumber := string_to_number;
     NumberToString := number_to_string;
     JSON_parse := script;
     Array_prototype := fun key => bool_decide (key ∈ array_prototype);
     builtin_read := realm |}.

End Sample.

(** * Properties *)

(** ** Reasoning about methods *)


Section Respects.
Context (R : relation GameClient) `{!Reflexive R} `{!Transitive R}.

Lemma respects_ret {A : Type} (a : A) : respects R (ret a).
Proof. intros st. simpl. reflexivity. Qed.

Lemma respects_throw {A : Type} (e : Exn) : respects R (@throw A e).
Proof. intros st. simpl. reflexivity. Qed.

Lemma respects_this {A : Type} (f : GameClient -> A) : respects R (this f).
Proof. intros st. simpl. reflexivity. Qed.

Lemma respects_assign (f : GameClient -> GameClient) :
  (forall st, R st (f st)) -> respects R (assign f).
Proof. intros Hf st. apply Hf. Qed.

Lemma respects_bind {A B : Type} (m : M A) (k : A -> M B) :
  respects R m -> (forall a, respects R (k a)) -> respects R (bind m k).
Proof.
  intros Hm Hk st. unfold bind. specialize (Hm st).
  destruct (m st) as [a st'|e st']; simpl in *.
  - transitivity st'; [exact Hm | apply Hk].
  - exact Hm.
Qed.

Lemma respects_try_catch (m : M unit) (h : Exn -> M unit) :
  respects R m -> (forall e, respects R (h e)) -> respects R (try_catch m h).
Proof.
  intros Hm Hh st. unfold try_catch. specialize (Hm st).
  destruct (m st) as [a st'|e st']; simpl in *.
  - exact Hm.
  - transitivity st'; [exact Hm | apply Hh].
Qed.

Lemma respects_forEach {A : Type} (l : list A) (f : A -> M unit) :
  (forall a, respects R (f a)) -> respects R (forEach l f).
Proof.
  intros Hf. induction l as [|a l IH]; simpl.
  - apply respects_ret.
  - apply respects_bind; auto.
Qed.

End Respects.

Lemma total_ret {A : Type} (a : A) : total (ret a).
Proof. intros st. reflexivity. Qed.

Lemma total_this {A : Type} (f : GameClient -> A) : total (this f).
Proof. intros st. reflexivity. Qed.

Lemma total_assign (f : GameClient -> GameClient) : total (assign f).
Proof. intros st. reflexivity. Qed.

Lemma total_bind {A B : Type} (m : M A) (k : A -> M B) :
  total m -> (forall a, total (k a)) -> total (bind m k).
Proof.
  intros Hm Hk st. unfold bind. specialize (Hm st).
  destruct (m st) as [a st'|e st']; simpl in *; [apply Hk | discriminate].
Qed.

Lemma total_forEach {A : Type} (l : list A) (f : A -> M unit) :
  (forall a, total (f a)) -> total (forEach l f).
Proof.
  intros Hf. induction l as [|a l IH]; simpl.
  - apply total_ret.
  - apply total_bind; auto.
Qed.

Lemma total_normal (m : M unit) (st : GameClient) :
  total m -> m st = Normal tt (state_of (m st)).
Proof.
  intros Hm. specialize (Hm st). destruct (m st) as [[] st'|e st']; simpl in *.
  - reflexivity.
  - discriminate.
Qed.

Lemma bind_this {A B : Type} (f : GameClient -> A) (k : A -> M B) st :
  bind (this f) k st = k (f st) st.
Proof. reflexivity. Qed.

Lemma bind_assign {B : Type} (f : GameClient -> GameClient) (k : unit -> M B) st :
  bind (assign f) k st = k tt (f st).
Proof. reflexivity. Qed.

Lemma bind_log {B : Type} text args (k : unit -> M B) st :
  bind (log text args) k st = k tt (logged (console_log text args) st).
Proof. reflexivity. Qed.

Lemma bind_error {B : Type} text (k : unit -> M B) st :
  bind (error text) k st = k tt (logged (console_error text) st).
Proof. reflexivity. Qed.

Lemma bind_draw {B : Type} op (k : unit -> M B) st :
  bind (draw op) k st = k tt (drawn op st).
Proof. reflexivity. Qed.

Lemma bind_ret {A B : Type} (a : A) (k : A -> M B) st :
  bind (ret a) k st = k a st.
Proof. reflexivity. Qed.

Lemma bind_assoc {A B C : Type} (m : M A) (k : A -> M B) (h : B -> M C) st :
  bind (bind m k) h st = bind m (fun a => bind (k a) h) st.
Proof. unfold bind. destruct (m st); reflexivity. Qed.

Lemma run_assign (f : GameClient -> GameClient) st :
  assign f st = Normal tt (f st).
Proof. reflexivity. Qed.

Lemma run_log text args st :
  log text args st = Normal tt (logged (console_log text args) st).
Proof. reflexivity. Qed.

Lemma run_error text st :
  error text st = Normal tt (logged (console_error text) st).
Proof. reflexivity. Qed.

Lemma run_draw op st : draw op st = Normal tt (drawn op st).
Proof. reflexivity. Qed.

Lemma run_ret {A : Type} (a : A) st : ret a st = Normal a st.
Proof. reflexivity. Qed.

Lemma bind_total {B : Type} (m : M unit) (k : unit -> M B) (st : GameClient) :
  total m -> bind m k st = k tt (state_of (m st)).
Proof. intros Hm. unfold bind. rewrite (total_normal m st Hm). reflexivity. Qed.

(** Running the assignments, the reads and the traces at the head of a
    method. *)
Ltac exec :=
  repeat progress
    (rewrite ?bind_assoc, ?bind_ret, ?bind_this, ?bind_assign, ?bind_log,
       ?bind_error, ?bind_draw, ?run_assign, ?run_log, ?run_error, ?run_draw,
       ?run_ret;
     cbv beta).

(** Reading a field through the assignments made so far. *)
Ltac fields :=
  cbn [
    canvas_width canvas_height cursor ctx worldImage worldWidth worldHeight
    myPlayerId players avatars websocket cameraX cameraY avatarSize
    loadedAvatarImages pressedKeys isMoving movementInterval movementSpeed
    isDragging lastMouseX lastMouseY console wire timers timeouts
    set_canvas_width set_canvas_height set_cursor set_ctx set_myPlayerId
    set_players set_avatars set_websocket set_cameraX set_cameraY
    set_loadedAvatarImages set_pressedKeys set_isMoving
    set_movementInterval set_isDragging set_lastMouseX set_lastMouseY
    set_console set_wire set_timers set_timeouts logged drawn sent
  ].

Tactic Notation "fields" "in" hyp(H) :=
  cbn [
    canvas_width canvas_height cursor ctx worldImage worldWidth worldHeight
    myPlayerId players avatars websocket cameraX cameraY avatarSize
    loadedAvatarImages pressedKeys isMoving movementInterval movementSpeed
    isDragging lastMouseX lastMouseY console wire timers timeouts
    set_canvas_width set_canvas_height set_cursor set_ctx set_myPlayerId
    set_players set_avatars set_websocket set_cameraX set_cameraY
    set_loadedAvatarImages set_pressedKeys set_isMoving
    set_movementInterval set_isDragging set_lastMouseX set_lastMouseY
    set_console set_wire set_timers set_timeouts logged drawn sent
  ] in H.

(** One step through the structure of a method. *)
Ltac use lem := apply lem; try typeclasses eauto.

Ltac method_step :=
  lazymatch goal with
  | |- respects _ (bind _ _) => use respects_bind; [| intros ?]
  | |- respects _ (try_catch _ _) => use respects_try_catch; [| intros ?]
  | |- respects _ (forEach _ _) => use respects_forEach; intros ?
  | |- respects _ (ret _) => use respects_ret
  | |- respects _ (throw _) => use respects_throw
  | |- respects _ (this _) => use respects_this
  | |- respects _ (assign _) => use respects_assign; intros ?
  | |- respects _ (log _ _) => use respects_assign; intros ?
  | |- respects _ (error _) => use respects_assign; intros ?
  | |- respects _ (draw _) => use respects_assign; intros ?
  | |- respects _ (match ?x with _ => _ end) => destruct x
  | |- total (bind _ _) => apply total_bind; [| intros ?]
  | |- total (forEach _ _) => apply total_forEach; intros ?
  | |- total (ret _) => apply total_ret
  | |- total (this _) => apply total_this
  | |- total (assign _) => apply total_assign
  | |- total (log _ _) => apply total_assign
  | |- total (draw _) => apply total_assign
  | |- total (match ?x with _ => _ end) => destruct x
  end.

(** *** Drawing and logging only *)

#[local] Instance same_quiet_refl : Reflexive same_quiet.
Proof. intros a. reflexivity. Qed.

#[local] Instance same_quiet_trans : Transitive same_quiet.
Proof. intros a b c Hab Hbc. unfold same_quiet in *. congruence. Qed.

#[local] Instance same_still_refl : Reflexive same_still.
Proof. intros a. reflexivity. Qed.

#[local] Instance same_still_trans : Transitive same_still.
Proof. intros a b c Hab Hbc. unfold same_still in *. congruence. Qed.

Lemma same_quiet_still (a b : GameClient) : same_quiet a b -> same_still a b.
Proof. unfold same_quiet, same_still, still. intros ->. reflexivity. Qed.

Section Frames.
Context `{Host}.

Lemma renderAvatar_paints player screenX screenY :
  respects same_quiet (renderAvatar player screenX screenY).
Proof.
  unfold renderAvatar, drawn_image, sequence_of, frame_of.
  repeat (method_step; try reflexivity).
Qed.

Lemma renderAvatars_paints :
  respects same_quiet renderAvatars.
Proof.
  unfold renderAvatars.
  repeat (method_step; try reflexivity).
  apply renderAvatar_paints.
Qed.

Lemma drawWorld_views :
  respects same_still drawWorld.
Proof.
  unfold drawWorld.
  repeat (method_step; try reflexivity).
  intros st. apply same_quiet_still, renderAvatars_paints.
Qed.

Lemma centerCameraOnMyAvatar_views :
  respects same_still centerCameraOnMyAvatar.
Proof.
  unfold centerCameraOnMyAvatar.
  repeat (method_step; try reflexivity).
Qed.

Lemma centerCameraOnMyAvatar_total :
  total centerCameraOnMyAvatar.
Proof. unfold centerCameraOnMyAvatar. repeat method_step. Qed.

End Frames.

(** ** Camera *)

Lemma clamp_between (c world viewport : Q) :
  num_between 0 (clamp (Fin c) world viewport) (Qmax 0 (world - viewport)).
Proof.
  simpl. split.
  - apply Q.le_max_l.
  - apply Q.max_le_compat_l, Q.le_min_r.
Qed.

Lemma clamp_inside (c world viewport : Q) :
  0 <= c -> c <= world - viewport -> clamp (Fin c) world viewport =n= Fin c.
Proof.
  intros H0 H1. simpl.
  rewrite Q.min_l by exact H1. apply Q.max_r. exact H0.
Qed.

(** Fields that [still] keeps can be read off either state. *)
Lemma same_still_fields (a b : GameClient) :
  same_still a b ->
  worldImage b = worldImage a /\
  worldWidth b = worldWidth a /\ worldHeight b = worldHeight a /\
  canvas_width b = canvas_width a /\ canvas_height b = canvas_height a /\
  players b = players a /\ avatars b = avatars a /\
  myPlayerId b = myPlayerId a /\ isMoving b = isMoving a /\
  wire b = wire a /\ pressedKeys b = pressedKeys a /\
  movementInterval b = movementInterval a.
Proof.
  unfold same_still. intros E.
  repeat split;
    match goal with
    | |- ?f b = ?f a => change (f (still b) = f (still a)); rewrite E; reflexivity
    end.
Qed.

Lemma same_quiet_camera (a b : GameClient) :
  same_quiet a b -> cameraX b = cameraX a /\ cameraY b = cameraY a.
Proof.
  unfold same_quiet. intros E.
  split;
    match goal with
    | |- ?f b = ?f a => change (f (quiet b) = f (quiet a)); rewrite E; reflexivity
    end.
Qed.

Section CameraFacts.
Context `{Host}.

Lemma drawWorld_clamps st w :
  worldImage st = Some w ->
  cameraX (state_of (drawWorld st))
    = clamp (cameraX st) (worldWidth st) (viewportWidth st) /\
  cameraY (state_of (drawWorld st))
    = clamp (cameraY st) (worldHeight st) (viewportHeight st).
Proof.
  intros Hw.
  assert (E : exists s, drawWorld st = renderAvatars s /\
            cameraX s = clamp (cameraX st) (worldWidth st) (viewportWidth st) /\
            cameraY s = clamp (cameraY st) (worldHeight st) (viewportHeight st)).
  { unfold drawWorld, bind at 1, this at 1. rewrite Hw.
    eexists. split; [reflexivity |]. split; reflexivity. }
  destruct E as (s & -> & <- & <-).
  apply (same_quiet_camera s _ (renderAvatars_paints s)).
Qed.

Lemma drawWorld_in_bounds st :
  worldImage st <> None -> camera_is_number st ->
  camera_in_bounds (state_of (drawWorld st)).
Proof.
  intros Hw (cx & cy & Hx & Hy).
  destruct (worldImage st) as [w|] eqn:Ew; [clear Hw | congruence].
  destruct (drawWorld_clamps st w Ew) as [Ex Ey].
  destruct (same_still_fields _ _ (drawWorld_views st))
    as (_ & EW & EH & Ecw & Ech & _).
  unfold camera_in_bounds, viewportWidth, viewportHeight.
  rewrite Ex, Ey, EW, EH, Ecw, Ech, Hx, Hy.
  split; apply clamp_between.
Qed.

Lemma centerCameraOnMyAvatar_spec st p x y :
  local_player st = Some p -> positioned p x y ->
  centerCameraOnMyAvatar st
    = Normal tt (set_cameraY (Fin (y - viewportHeight st / 2))
                   (set_cameraX (Fin (x - viewportWidth st / 2)) st)).
Proof.
  unfold local_player, positioned. intros Hp [Hx Hy].
  unfold centerCameraOnMyAvatar, bind, this, property.
  destruct (truthy (myPlayerId st)); [| discriminate].
  rewrite Hp. unfold get. rewrite Hx, Hy. reflexivity.
Qed.

(** Centering, then drawing: what the key C and the messages of the server
    do to the camera. *)
Lemma center_then_draw_in_bounds st p x y :
  worldImage st <> None -> local_player st = Some p -> positioned p x y ->
  camera_in_bounds (state_of ((centerCameraOnMyAvatar ;; drawWorld) st)).
Proof.
  intros Hw Hp Hxy. unfold bind.
  rewrite (centerCameraOnMyAvatar_spec st p x y Hp Hxy).
  apply drawWorld_in_bounds.
  - exact Hw.
  - eexists _, _. split; reflexivity.
Qed.

End CameraFacts.

(** ** Messages of the server *)

Lemma scene_worldImage (a b : GameClient) :
  scene b = scene a -> worldImage b = worldImage a.
Proof. unfold scene. intros E. injection E. auto. Qed.

Lemma scene_sizes (a b : GameClient) :
  scene b = scene a ->
  worldWidth b = worldWidth a /\ worldHeight b = worldHeight a /\
  canvas_width b = canvas_width a /\ canvas_height b = canvas_height a.
Proof. unfold scene. intros E. injection E. auto. Qed.

#[local] Instance same_unloaded_refl : Reflexive same_unloaded.
Proof. intros a. reflexivity. Qed.

#[local] Instance same_unloaded_trans : Transitive same_unloaded.
Proof. intros a b c Hab Hbc. unfold same_unloaded in *. congruence. Qed.

Lemma same_unloaded_fields (a b : GameClient) :
  same_unloaded a b ->
  players b = players a /\ myPlayerId b = myPlayerId a /\ scene b = scene a.
Proof.
  unfold same_unloaded. intros E.
  repeat split;
    match goal with
    | |- ?f b = ?f a =>
        change (f (unloaded b) = f (unloaded a)); rewrite E; reflexivity
    end.
Qed.

Section ServerFacts.
Context `{Host}.

Lemma loadAvatarImages_total : total loadAvatarImages.
Proof. unfold loadAvatarImages, loadAvatarImage. repeat method_step. Qed.

Lemma loadAvatarImages_keeps : respects same_unloaded loadAvatarImages.
Proof.
  unfold loadAvatarImages, loadAvatarImage.
  repeat (method_step; try reflexivity).
Qed.

(** The local player depends on [myPlayerId] and [players] only. *)
Lemma local_player_ext (a b : GameClient) :
  myPlayerId b = myPlayerId a -> players b = players a ->
  local_player b = local_player a.
Proof. unfold local_player. intros -> ->. reflexivity. Qed.

(** [players_moved]: the merge, then centering and drawing. *)
Lemma handle_players_moved st moved :
  exists s,
    handleServerMessage (players_moved moved) st
      = (centerCameraOnMyAvatar ;; drawWorld) s /\
    still s = still (set_players (moved ∪ players st) st).
Proof.
  unfold handleServerMessage. exec.
  eexists. split; reflexivity.
Qed.

(** A successful [join_game]: the snapshot, the images, then centering and
    drawing. *)
Lemma handle_join_game st playerId newPlayers newAvatars :
  exists s,
    handleServerMessage (join_game true playerId newPlayers newAvatars) st
      = (centerCameraOnMyAvatar ;; drawWorld) s /\
    myPlayerId s = playerId /\ players s = newPlayers /\
    scene s = scene st.
Proof.
  unfold handleServerMessage. exec.
  match goal with
  | |- context [bind loadAvatarImages ?k ?s0] =>
      rewrite (bind_total loadAvatarImages k s0 loadAvatarImages_total);
      destruct (same_unloaded_fields _ _ (loadAvatarImages_keeps s0))
        as (Ep & Em & Es)
  end.
  eexists. split; [reflexivity |].
  rewrite Ep, Em, Es. repeat split.
Qed.

Lemma players_after_center_draw s :
  players (state_of ((centerCameraOnMyAvatar ;; drawWorld) s)) = players s.
Proof.
  assert (V : respects same_still (centerCameraOnMyAvatar ;; drawWorld)).
  { use respects_bind; [apply centerCameraOnMyAvatar_views |].
    intros _. apply drawWorld_views. }
  apply (same_still_fields _ _ (V s)).
Qed.

(** What [players_moved] does to the store. *)
Lemma players_after_players_moved st moved :
  players (state_of (handleServerMessage (players_moved moved) st))
    = moved ∪ players st.
Proof.
  destruct (handle_players_moved st moved) as (s & -> & Es).
  rewrite players_after_center_draw.
  change (players (still s) = moved ∪ players st). rewrite Es. reflexivity.
Qed.

End ServerFacts.

(** ** The camera stays inside the world *)

Section CameraBounds.
Context `{Host}.

(** C3, as amended. Whenever the camera has been centered (by the key C,
    by a [players_moved] message or by a successful [join_game]) on a local
    player that the store holds with a numeric [x] and [y], or panned by a
    drag from a camera that is a number, and the world has been drawn, it
    satisfies [0 <= cameraX <= max(0, worldWidth - viewportWidth)] and
    [0 <= cameraY <= max(0, worldHeight - viewportHeight)]. *)
Theorem camera_in_bounds_after_centering_or_panning (st : GameClient) :
  worldImage st <> None ->
  (forall p x y,
      local_player st = Some p -> positioned p x y ->
      camera_in_bounds (state_of (handleKeyDown "KeyC" st))) /\
  (forall moved p x y,
      local_player (set_players (moved ∪ players st) st) = Some p ->
      positioned p x y ->
      camera_in_bounds
        (state_of (handleServerMessage (players_moved moved) st))) /\
  (forall playerId newPlayers newAvatars p x y,
      local_player (set_myPlayerId playerId (set_players newPlayers st)) = Some p ->
      positioned p x y ->
      camera_in_bounds
        (state_of (handleServerMessage
                     (join_game true playerId newPlayers newAvatars) st))) /\
  (forall clientX clientY,
      isDragging st = true -> camera_is_number st ->
      camera_in_bounds (state_of (onmousemove clientX clientY st))).
Proof.
  intros Hw. split; [| split; [| split]].
  - intros p x y Hp Hxy.
    change (handleKeyDown "KeyC" st)
      with ((centerCameraOnMyAvatar ;; drawWorld) st).
    apply (center_then_draw_in_bounds st p x y); assumption.
  - intros moved p x y Hp Hxy.
    destruct (handle_players_moved st moved) as (s & -> & Es).
    apply (center_then_draw_in_bounds s p x y); [| | exact Hxy].
    + change (worldImage (still s) <> None). rewrite Es. exact Hw.
    + rewrite <- Hp. apply local_player_ext.
      * change (myPlayerId (still s) = myPlayerId st). rewrite Es. reflexivity.
      * change (players (still s) = moved ∪ players st). rewrite Es. reflexivity.
  - intros playerId newPlayers newAvatars p x y Hp Hxy.
    destruct (handle_join_game st playerId newPlayers newAvatars)
      as (s & -> & Em & Eps & Es).
    apply (center_then_draw_in_bounds s p x y); [| | exact Hxy].
    + rewrite (scene_worldImage _ _ Es). exact Hw.
    + rewrite <- Hp. apply local_player_ext; assumption.
  - intros clientX clientY Hd Hc.
    unfold onmousemove. rewrite bind_this, Hd. exec.
    apply drawWorld_in_bounds.
    + exact Hw.
    + destruct Hc as (cx & cy & Hx & Hy).
      eexists _, _. cbn. rewrite Hx, Hy. split; reflexivity.
Qed.

End CameraBounds.


(** ** Centering on the local player *)

Lemma clamp_in_world (c world viewport : Q) :
  viewport <= world ->
  num_between 0 (clamp (Fin c) world viewport) (world - viewport).
Proof.
  intros Hv. simpl. split.
  - apply Q.le_max_l.
  - apply Q.max_lub; [lra | apply Q.le_min_r].
Qed.

Section Centering.
Context `{Host}.

Lemma center_then_draw_camera st p x y :
  worldImage st <> None -> local_player st = Some p -> positioned p x y ->
  cameraX (state_of ((centerCameraOnMyAvatar ;; drawWorld) st))
    = clamp (Fin (x - viewportWidth st / 2)) (worldWidth st) (viewportWidth st) /\
  cameraY (state_of ((centerCameraOnMyAvatar ;; drawWorld) st))
    = clamp (Fin (y - viewportHeight st / 2)) (worldHeight st) (viewportHeight st).
Proof.
  intros Hw Hp Hxy.
  destruct (worldImage st) as [w|] eqn:Ew; [clear Hw | congruence].
  unfold bind. rewrite (centerCameraOnMyAvatar_spec st p x y Hp Hxy).
  exact (drawWorld_clamps
           (set_cameraY (Fin (y - viewportHeight st / 2))
              (set_cameraX (Fin (x - viewportWidth st / 2)) st)) w Ew).
Qed.

(** C5. With the local player at [(x, y)], [centerCameraOnMyAvatar] sets
    the camera to [(x - viewportWidth/2, y - viewportHeight/2)], and the
    drawing that follows clamps each axis with
    [max(0, min(camera, world - viewport))], which lies in
    [[0, world - viewport]] and leaves a camera already in that interval
    unchanged.  In particular a successful join with the local player at
    (1000, 1000) in a viewport of 800x600 over a world of 2048x2048 leaves
    the camera at (600, 700). *)
Theorem centering_then_clamping (st : GameClient) (p : Player) (x y : Q) :
  worldImage st <> None ->
  local_player st = Some p -> positioned p x y ->
  let centered := state_of (centerCameraOnMyAvatar st) in
  let cx := x - viewportWidth st / 2 in
  let cy := y - viewportHeight st / 2 in
  (cameraX centered = Fin cx /\ cameraY centered = Fin cy) /\
  (cameraX (state_of (drawWorld centered))
     = Math_max (Fin 0) (Math_min (Fin cx) (Fin (worldWidth st - viewportWidth st))) /\
   cameraY (state_of (drawWorld centered))
     = Math_max (Fin 0) (Math_min (Fin cy) (Fin (worldHeight st - viewportHeight st)))) /\
  (viewportWidth st <= worldWidth st ->
   num_between 0 (cameraX (state_of (drawWorld centered)))
     (worldWidth st - viewportWidth st)) /\
  (viewportHeight st <= worldHeight st ->
   num_between 0 (cameraY (state_of (drawWorld centered)))
     (worldHeight st - viewportHeight st)) /\
  (0 <= cx <= worldWidth st - viewportWidth st ->
   cameraX (state_of (drawWorld centered)) =n= Fin cx) /\
  (0 <= cy <= worldHeight st - viewportHeight st ->
   cameraY (state_of (drawWorld centered)) =n= Fin cy) /\
  (forall pre playerId newPlayers newAvatars,
     worldImage pre <> None ->
     canvas_width pre = 800%Z -> canvas_height pre = 600%Z ->
     worldWidth pre == 2048 -> worldHeight pre == 2048 ->
     local_player (set_myPlayerId playerId (set_players newPlayers pre)) = Some p ->
     x == 1000 -> y == 1000 ->
     let joined :=
       state_of (handleServerMessage
                   (join_game true playerId newPlayers newAvatars) pre) in
     cameraX joined =n= Fin 600 /\ cameraY joined =n= Fin 700).
Proof.
  intros Hw Hp Hxy centered cx cy.
  assert (Ec : centered
               = set_cameraY (Fin cy) (set_cameraX (Fin cx) st)).
  { unfold centered. rewrite (centerCameraOnMyAvatar_spec st p x y Hp Hxy).
    reflexivity. }
  destruct (worldImage st) as [w|] eqn:Ew; [clear Hw | congruence].
  assert (Ewc : worldImage centered = Some w) by (rewrite Ec; exact Ew).
  assert (Ex : cameraX (state_of (drawWorld centered))
               = clamp (Fin cx) (worldWidth st) (viewportWidth st)).
  { rewrite (proj1 (drawWorld_clamps centered w Ewc)), Ec. reflexivity. }
  assert (Ey : cameraY (state_of (drawWorld centered))
               = clamp (Fin cy) (worldHeight st) (viewportHeight st)).
  { rewrite (proj2 (drawWorld_clamps centered w Ewc)), Ec. reflexivity. }
  split; [rewrite Ec; split; reflexivity |].
  split; [split; [exact Ex | exact Ey] |].
  rewrite Ex, Ey.
  split; [intros Hv; apply clamp_in_world; exact Hv |].
  split; [intros Hv; apply clamp_in_world; exact Hv |].
  split; [intros [H0 H1]; apply clamp_inside; assumption |].
  split; [intros [H0 H1]; apply clamp_inside; assumption |].
  intros pre playerId newPlayers newAvatars Hwp Hcw Hch HW HH Hlp Hx Hy joined.
  unfold joined.
  destruct (handle_join_game pre playerId newPlayers newAvatars)
    as (s & -> & Em & Eps & Es).
  assert (Hs : local_player s = Some p).
  { rewrite <- Hlp. apply local_player_ext; assumption. }
  assert (Hws : worldImage s <> None).
  { rewrite (scene_worldImage _ _ Es). exact Hwp. }
  destruct (center_then_draw_camera s p x y Hws Hs Hxy) as [-> ->].
  destruct (scene_sizes _ _ Es) as (EW & EH & Ecw & Ech).
  rewrite Hcw in Ecw. rewrite Hch in Ech. rewrite EW, EH.
  unfold viewportWidth, viewportHeight. rewrite Ecw, Ech.
  split.
  - change (Qmax 0 (Qmin (x - inject_Z 800 / 2) (worldWidth pre - inject_Z 800))
            == 600).
    rewrite Hx, HW. vm_compute. reflexivity.
  - change (Qmax 0 (Qmin (y - inject_Z 600 / 2) (worldHeight pre - inject_Z 600))
            == 700).
    rewrite Hy, HH. vm_compute. reflexivity.
Qed.


End Centering.

(** ** The store under [players_moved] *)

Section Store.
Context `{Host}.

(** C9. A [players_moved] message leaves the entry of every player it does
    not mention exactly as it was. *)
Theorem players_moved_keeps_other_players
    (st : GameClient) (moved : gmap string Player) (id : string) :
  moved !! id = None ->
  players (state_of (handleServerMessage (players_moved moved) st)) !! id
    = players st !! id.
Proof.
  intros Hid. rewrite players_after_players_moved.
  apply lookup_union_r. exact Hid.
Qed.

(** C2, as amended. A [players_moved] message replaces the stored player of
    every id it mentions by the object it carries: each supplied field has
    its supplied value, and a field the update does not supply is absent
    afterwards, whatever the stored player held. *)
Theorem players_moved_replaces_player
    (st : GameClient) (moved : gmap string Player) (id : string)
    (update : Player) :
  moved !! id = Some update ->
  players (state_of (handleServerMessage (players_moved moved) st)) !! id
    = Some update.
Proof.
  intros Hid. rewrite players_after_players_moved.
  apply lookup_union_Some_l. exact Hid.
Qed.

End Store.

(** ** Screen and world coordinates *)

(** C4, as amended. For a camera and a point with integer coordinates in
    the range where the arithmetic of the source is exact, world to screen
    and back through the click handler gives the world point, and screen
    to world through the click handler and back gives the screen point;
    the screen coordinates and the world coordinates computed on the way
    are integers that a double holds exactly. *)
Theorem round_trips_on_integer_pixels (st : GameClient) (cx cy : Z) :
  cameraX st =n= Fin (inject_Z cx) -> cameraY st =n= Fin (inject_Z cy) ->
  exact_range cx -> exact_range cy ->
  forall x y : Z,
    exact_range x -> exact_range y ->
    (point_eq (worldToScreen st (Fin (inject_Z x)) (Fin (inject_Z y)))
              (Fin (inject_Z (x - cx)), Fin (inject_Z (y - cy))) /\
     held_exactly (x - cx) /\ held_exactly (y - cy)) /\
    (point_eq (clickToWorld st (Fin (inject_Z x)) (Fin (inject_Z y)))
              (Fin (inject_Z (x + cx)), Fin (inject_Z (y + cy))) /\
     held_exactly (x + cx) /\ held_exactly (y + cy)) /\
    point_eq (world_screen_world st (Fin (inject_Z x), Fin (inject_Z y)))
             (Fin (inject_Z x), Fin (inject_Z y)) /\
    point_eq (screen_world_screen st (Fin (inject_Z x), Fin (inject_Z y)))
             (Fin (inject_Z x), Fin (inject_Z y)).
Proof.
  intros Hx Hy Hcx Hcy x y Hrx Hry.
  unfold point_eq, world_screen_world, screen_world_screen,
    worldToScreen, clickToWorld.
  destruct (cameraX st) as [|c]; [contradiction |].
  destruct (cameraY st) as [|d]; [contradiction |].
  cbn [num_eq] in Hx, Hy.
  cbn [fst snd num_sub num_add Math_floor num_eq].
  assert (Eback : forall (a : Z) (e : Q) (k : Z),
            e == inject_Z k -> inject_Z (Qfloor (inject_Z a - e + e)) == inject_Z a).
  { intros a e k _.
    rewrite (Qfloor_comp (inject_Z a - e + e) (inject_Z a)) by ring.
    rewrite Qfloor_Z. reflexivity. }
  assert (Eclick : forall (a : Z) (e : Q) (k : Z),
            e == inject_Z k -> inject_Z (Qfloor (inject_Z a + e)) == inject_Z (a + k)).
  { intros a e k He.
    rewrite (Qfloor_comp (inject_Z a + e) (inject_Z (a + k))).
    - rewrite Qfloor_Z. reflexivity.
    - rewrite inject_Z_plus, He. reflexivity. }
  assert (Escreen : forall (a : Z) (e : Q) (k : Z),
            e == inject_Z k -> inject_Z a - e == inject_Z (a - k)).
  { intros a e k He. unfold Z.sub, Qminus.
    rewrite inject_Z_plus, inject_Z_opp, He. reflexivity. }
  assert (Hsum : forall a k, exact_range a -> exact_range k ->
            held_exactly (a - k) /\ held_exactly (a + k)).
  { unfold exact_range, held_exactly. intros a k Ha Hk.
    change (2 ^ 53)%Z with (2 * 2 ^ 52)%Z. lia. }
  destruct (Hsum x cx Hrx Hcx) as [Hdx Hsx].
  destruct (Hsum y cy Hry Hcy) as [Hdy Hsy].
  split; [| split; [| split]].
  - split; [split |]; [exact (Escreen x c cx Hx) | exact (Escreen y d cy Hy) |].
    split; assumption.
  - split; [split |]; [exact (Eclick x c cx Hx) | exact (Eclick y d cy Hy) |].
    split; assumption.
  - split; [exact (Eback x c cx Hx) | exact (Eback y d cy Hy)].
  - split.
    + rewrite (Eclick x c cx Hx), inject_Z_plus, Hx. ring.
    + rewrite (Eclick y d cy Hy), inject_Z_plus, Hy. ring.
Qed.

(** ** Malformed messages and commands on a closed socket *)

Section Errors.
Context `{Host}.

(** C7. A payload that does not parse changes nothing in the store: the
    players, the avatars and the local player id are as before, the console
    has one more line, the error, and the listener completes normally. *)
Theorem unparseable_message_is_dropped (st : GameClient) (data : string) :
  JSON_parse data = None ->
  onmessage data st
    = Normal tt (logged (console_error "Error parsing server message:") st) /\
  let st' := state_of (onmessage data st) in
  players st' = players st /\ avatars st' = avatars st /\
  myPlayerId st' = myPlayerId st /\
  console st' = console st ++ [console_error "Error parsing server message:"] /\
  completes (onmessage data st) = true.
Proof.
  intros Hparse.
  assert (E : onmessage data st
              = Normal tt (logged (console_error "Error parsing server message:") st)).
  { unfold onmessage, try_catch. rewrite Hparse. reflexivity. }
  split; [exact E |].
  rewrite E. repeat split.
Qed.

(** C8. While the socket is absent or not OPEN, [sendMoveCommand] and
    [sendStopCommand] write one line on the console and return: nothing is
    handed to the socket and no other field of the client changes. *)
Theorem commands_dropped_when_socket_not_open
    (st : GameClient) (direction : Direction) :
  websocket st <> Some OPEN ->
  (sendMoveCommand direction st
     = Normal tt
         (logged (console_log "WebSocket not connected, cannot send move command" [])
                 st) /\
   wire (state_of (sendMoveCommand direction st)) = wire st) /\
  (sendStopCommand st
     = Normal tt
         (logged (console_log "WebSocket not connected, cannot send stop command" [])
                 st) /\
   wire (state_of (sendStopCommand st)) = wire st).
Proof.
  intros Hws. unfold sendMoveCommand, sendStopCommand.
  rewrite !bind_this.
  destruct (websocket st) as [[]|]; try congruence; repeat split.
Qed.

End Errors.

(** ** The movement keys *)

Lemma keyMap_not_KeyC (code : string) (d : Direction) :
  keyMap code = Some d -> String.eqb code "KeyC" = false.
Proof.
  intros Hk. destruct (String.eqb code "KeyC") eqn:E; [| reflexivity].
  apply String.eqb_eq in E. subst code. discriminate Hk.
Qed.

Lemma filter_out_only (code : string) :
  filter (fun k => k <> code) [code] = [].
Proof.
  rewrite filter_cons, filter_nil. destruct (decide (code <> code)); congruence.
Qed.

Section Keys.
Context `{Host}.

Lemma handleKeyDown_first_key st code d :
  keyMap code = Some d -> pressedKeys st = [] ->
  movementInterval st = None -> websocket st = Some OPEN ->
  handleKeyDown code st
    = Normal tt
        (set_movementInterval (Some (timers st))
           (set_timers (Pos.succ (timers st))
              (logged (console_log "Sent move command:" [VStr (direction_name d)])
                 (sent (send_move d) (set_pressedKeys [code] st))))).
Proof.
  intros Hk Hp Hi Hws.
  unfold handleKeyDown. rewrite (keyMap_not_KeyC code d Hk), Hk.
  rewrite bind_this. unfold pressed. rewrite Hp. cbn [existsb]. exec.
  rewrite Hp. cbn [app].
  unfold sendMoveCommand. exec. fields. rewrite Hws.
  unfold websocket_send. exec. fields. rewrite Hws. exec.
  unfold startContinuousMovement. exec. fields. rewrite Hi.
  unfold setInterval. exec. reflexivity.
Qed.

Lemma handleKeyUp_last_key st code d :
  keyMap code = Some d -> pressedKeys st = [code] -> isMoving st = false ->
  handleKeyUp code st = Normal tt (set_pressedKeys [] st).
Proof.
  intros Hk Hp Hm.
  unfold handleKeyUp. rewrite Hk.
  rewrite bind_this. unfold pressed. rewrite Hp.
  cbn [existsb]. rewrite String.eqb_refl. cbn [orb]. exec.
  rewrite Hp, filter_out_only.
  unfold checkMovementState. exec. fields. rewrite Hm. reflexivity.
Qed.

(** C1, as the code runs it. From Idle with an open socket, pressing one
    movement key and releasing it sends the move command and nothing else:
    no stop command follows, because [isMoving] is false when
    [checkMovementState] tests it, and the interval started by the key-down
    is still registered after the key-up that empties the pressed keys. *)
Theorem single_key_sends_move_but_no_stop
    (st : GameClient) (code : string) (d : Direction) :
  keyMap code = Some d ->
  pressedKeys st = [] -> isMoving st = false ->
  movementInterval st = None -> websocket st = Some OPEN ->
  let st' := run [KeyDown code; KeyUp code] st in
  wire st' = wire st ++ [send_move d] /\
  pressedKeys st' = [] /\
  movementInterval st' = Some (timers st) /\
  isMoving st' = false.
Proof.
  intros Hk Hp Hm Hi Hws st'. unfold st', run, dispatch.
  rewrite (handleKeyDown_first_key st code d Hk Hp Hi Hws). cbn [state_of].
  rewrite (handleKeyUp_last_key _ code d Hk); [| reflexivity | exact Hm].
  cbn [state_of]. fields. repeat split. exact Hm.
Qed.

End Keys.

(** ** Rendering one player *)

Section Rendering.
Context `{Host}.

Lemma frame_index_default (player : Player) :
  truthy (get player "animationFrame") = false ->
  frame_index player = VNum (Fin 0).
Proof. unfold frame_index, js_or. intros ->. reflexivity. Qed.


Lemma property_own {A : Type} (obj : gmap string A) (key : string) (a : A) :
  obj !! key = Some a -> property obj key = Own a.
Proof. unfold property. intros ->. reflexivity. Qed.

Lemma property_missing {A : Type} (obj : gmap string A) (key : string) :
  property obj key = Missing <-> obj !! key = None /\ inherits key = false.
Proof.
  unfold property. destruct (obj !! key); [split; [discriminate | intros [E _]; discriminate E] |].
  destruct (inherits key); split; try discriminate; auto.
  intros [_ E]. discriminate E.
Qed.



(** Behind the guard, with the images of the avatar loaded: the sequence is
    read, the facing is logged and the frame is read. *)
Lemma renderAvatar_loaded st player screenX screenY sequences :
  property (avatars st) (ToPropertyKey (get player "avatar")) <> Missing ->
  loadedAvatarImages st !! ToPropertyKey (get player "avatar") = Some sequences ->
  renderAvatar player screenX screenY st
    = (selected <-
         (if is_west (get player "facing")
          then frames <- sequence_of (Own sequences)
                           (ToPropertyKey (get player "avatar")) "east" ;;
               log "Rendering west-facing avatar with flip" [] ;;
               ret (frames, true)
          else frames <- sequence_of (Own sequences)
                           (ToPropertyKey (get player "avatar"))
                           (ToPropertyKey (get player "facing")) ;;
               log "Rendering avatar facing:" [get player "facing"] ;;
               ret (frames, false)) ;;
       match fst selected with
       | None => ret tt
       | Some frames =>
           avatarImg <- frame_of frames (frame_index player) ;;
           if negb (element_truthy avatarImg) then ret tt
           else
             size <- this avatarSize ;;
             log "Avatar position:"
                 [VNum screenX; VNum screenY;
                  VNum (num_sub screenX (Fin (size / 2)));
                  VNum (num_sub screenY (Fin (size / 2)));
                  VBool (snd selected)] ;;
             (if snd selected
              then
                log "Flipping avatar for west direction" [] ;;
                i <- drawn_image avatarImg ;;
                draw (drawImage (mirrored i size)
                        (num_sub screenX (Fin (size / 2)))
                        (num_sub screenY (Fin (size / 2)))
                        (Fin size) (Fin size)) ;;
                log "Flipped avatar drawn at:"
                    [VNum (num_sub screenX (Fin (size / 2)));
                     VNum (num_sub screenY (Fin (size / 2)))]
              else
                i <- drawn_image avatarImg ;;
                draw (drawImage (img i)
                        (num_sub screenX (Fin (size / 2)))
                        (num_sub screenY (Fin (size / 2)))
                        (Fin size) (Fin size))) ;;
             draw (strokeText (get player "username") screenX
                     (num_sub (num_sub screenY (Fin (size / 2))) (Fin 5))) ;;
             draw (fillText (get player "username") screenX
                     (num_sub (num_sub screenY (Fin (size / 2))) (Fin 5)))
       end) st.
Proof.
  intros Ha Hl. unfold renderAvatar. rewrite !bind_this.
  rewrite (property_own _ _ _ Hl).
  destruct (property (avatars st) _); [reflexivity | reflexivity | contradiction].
Qed.


Lemma renderAvatar_frame st player screenX screenY sequences frames i :
  property (avatars st) (ToPropertyKey (get player "avatar")) <> Missing ->
  loadedAvatarImages st !! ToPropertyKey (get player "avatar") = Some sequences ->
  sequence_for sequences (get player "facing") = Some frames ->
  array_get frames (frame_index player) = EImage i ->
  drawn_with st player screenX screenY
    (if is_west (get player "facing") then mirrored i (avatarSize st) else img i)
    (renderAvatar player screenX screenY st).
Proof.
  intros Ha Hl Hseq Hi.
  rewrite (renderAvatar_loaded st player screenX screenY sequences Ha Hl).
  unfold sequence_for in Hseq. unfold sequence_of.
  destruct (is_west (get player "facing"));
    rewrite (property_own _ _ _ Hseq); exec; cbn [fst snd];
    unfold frame_of; exec; rewrite Hi; cbn [element_truthy negb]; exec;
    unfold drawn_image; exec;
    (split; [reflexivity |]);
    cbn [state_of]; fields; unfold mirrored; rewrite <- !app_assoc; reflexivity.
Qed.

End Rendering.


Section RenderingClaims.
Context `{Host}.



(** C10. A player without [animationFrame], or with a falsy one, is drawn
    with the first frame of the resolved sequence whenever that sequence
    has one: the index used is 0 and the sprite is not skipped. *)
Theorem falsy_animation_frame_draws_first_frame
    (st : GameClient) (player : Player) (screenX screenY : num)
    (avatar : Avatar) (sequences : gmap string (list Image))
    (first : Image) (rest : list Image) :
  truthy (get player "animationFrame") = false ->
  avatars st !! ToPropertyKey (get player "avatar") = Some avatar ->
  loadedAvatarImages st !! ToPropertyKey (get player "avatar") = Some sequences ->
  sequence_for sequences (get player "facing") = Some (first :: rest) ->
  frame_index player = VNum (Fin 0) /\
  array_get (first :: rest) (frame_index player) = EImage first /\
  drawn_with st player screenX screenY
    (if is_west (get player "facing")
     then mirrored first (avatarSize st) else img first)
    (renderAvatar player screenX screenY st).
Proof.
  intros Hfalsy Ha Hl Hseq.
  pose proof (frame_index_default player Hfalsy) as Hidx.
  assert (Hfirst : array_get (first :: rest) (frame_index player) = EImage first).
  { rewrite Hidx. reflexivity. }
  split; [exact Hidx |]. split; [exact Hfirst |].
  assert (Hknown : property (avatars st) (ToPropertyKey (get player "avatar"))
                   <> Missing)
    by (rewrite (property_own _ _ _ Ha); discriminate).
  exact (renderAvatar_frame st player screenX screenY sequences
           (first :: rest) first Hknown Hl Hseq Hfirst).
Qed.

End RenderingClaims.

(** ** Invariants of the session *)

Section Preserves.
Context (I : GameClient -> Prop).

Lemma preserves_ret {A : Type} (a : A) : preserves I (ret a).
Proof. intros st HI. exact HI. Qed.

Lemma preserves_throw {A : Type} (e : Exn) : preserves I (@throw A e).
Proof. intros st HI. exact HI. Qed.

Lemma preserves_this {A : Type} (f : GameClient -> A) : preserves I (this f).
Proof. intros st HI. exact HI. Qed.

Lemma preserves_assign (f : GameClient -> GameClient) :
  (forall st, I st -> I (f st)) -> preserves I (assign f).
Proof. intros Hf st HI. apply Hf, HI. Qed.

Lemma preserves_bind {A B : Type} (m : M A) (k : A -> M B) :
  preserves I m -> (forall a, preserves I (k a)) -> preserves I (bind m k).
Proof.
  intros Hm Hk st HI. unfold bind. specialize (Hm st HI).
  destruct (m st) as [a st'|e st']; simpl in *.
  - apply Hk, Hm.
  - exact Hm.
Qed.

Lemma preserves_try_catch (m : M unit) (h : Exn -> M unit) :
  preserves I m -> (forall e, preserves I (h e)) -> preserves I (try_catch m h).
Proof.
  intros Hm Hh st HI. unfold try_catch. specialize (Hm st HI).
  destruct (m st) as [a st'|e st']; simpl in *.
  - exact Hm.
  - apply Hh, Hm.
Qed.

Lemma preserves_forEach {A : Type} (l : list A) (f : A -> M unit) :
  (forall a, preserves I (f a)) -> preserves I (forEach l f).
Proof.
  intros Hf. induction l as [|a l IH]; simpl.
  - apply preserves_ret.
  - apply preserves_bind; auto.
Qed.

(** A method that respects a relation along which [I] travels keeps [I]. *)
Lemma preserves_respects {A : Type} (R : relation GameClient) (m : M A) :
  (forall a b, R a b -> I a -> I b) -> respects R m -> preserves I m.
Proof. intros HR Hm st HI. exact (HR _ _ (Hm st) HI). Qed.

End Preserves.

Ltac invariant_step :=
  lazymatch goal with
  | |- preserves _ (bind _ _) => apply preserves_bind; [| intros ?]
  | |- preserves _ (try_catch _ _) => apply preserves_try_catch; [| intros ?]
  | |- preserves _ (forEach _ _) => apply preserves_forEach; intros ?
  | |- preserves _ (ret _) => apply preserves_ret
  | |- preserves _ (throw _) => apply preserves_throw
  | |- preserves _ (this _) => apply preserves_this
  | |- preserves _ (assign _) => apply preserves_assign; intros ? ?
  | |- preserves _ (log _ _) => apply preserves_assign; intros ? ?
  | |- preserves _ (error _) => apply preserves_assign; intros ? ?
  | |- preserves _ (draw _) => apply preserves_assign; intros ? ?
  | |- preserves _ (match ?x with _ => _ end) => destruct x
  end.

(** *** No stop command is ever sent *)

Lemma never_moving_still (a b : GameClient) :
  same_still a b -> never_moving a -> never_moving b.
Proof.
  intros E [Hm Hw].
  destruct (same_still_fields a b E) as (_ & _ & _ & _ & _ & _ & _ & _ & Em & Ew & _).
  unfold never_moving. rewrite Em, Ew. split; assumption.
Qed.

Lemma never_moving_unloaded (a b : GameClient) :
  same_unloaded a b -> never_moving a -> never_moving b.
Proof.
  unfold same_unloaded, never_moving. intros E [Hm Hw].
  change (isMoving (unloaded b) = false /\ send_stop ∉ wire (unloaded b)).
  rewrite E. split; assumption.
Qed.

Section NoStop.
Context `{Host}.

Lemma websocket_send_never_moving msg :
  msg <> send_stop -> preserves never_moving (websocket_send msg).
Proof.
  intros Hmsg. unfold websocket_send.
  repeat invariant_step; try assumption.
  match goal with H : never_moving _ |- _ => destruct H as [Hm Hw] end.
  split; [exact Hm |]. unfold sent. fields.
  rewrite elem_of_app, list_elem_of_singleton. intros [Hin | Heq].
  - exact (Hw Hin).
  - exact (Hmsg (eq_sym Heq)).
Qed.

Lemma checkMovementState_never_moving : preserves never_moving checkMovementState.
Proof.
  intros st [Hm Hw]. unfold checkMovementState. exec.
  rewrite Hm. cbn [andb]. exec. split; assumption.
Qed.

Ltac never_moving_leaf :=
  match goal with
  | H : never_moving ?s |- never_moving _ =>
      destruct H as [? ?]; split; assumption
  end.

Lemma dispatch_never_moving (e : Event) : preserves never_moving (dispatch e).
Proof.
  assert (Hcenter : preserves never_moving centerCameraOnMyAvatar).
  { apply (preserves_respects _ same_still);
      [apply never_moving_still | apply centerCameraOnMyAvatar_views]. }
  assert (Hdraw : preserves never_moving drawWorld).
  { apply (preserves_respects _ same_still);
      [apply never_moving_still | apply drawWorld_views]. }
  assert (Hload : preserves never_moving loadAvatarImages).
  { apply (preserves_respects _ same_unloaded);
      [apply never_moving_unloaded | apply loadAvatarImages_keeps]. }
  assert (Hmove : forall d, preserves never_moving (sendMoveCommand d)).
  { intros d. unfold sendMoveCommand.
    repeat (invariant_step; try never_moving_leaf);
      apply websocket_send_never_moving; discriminate. }
  destruct e; unfold dispatch.
  - unfold handleKeyDown, startContinuousMovement, setInterval.
    repeat (invariant_step; try never_moving_leaf); auto.
  - unfold handleKeyUp.
    repeat (invariant_step; try never_moving_leaf);
      apply checkMovementState_never_moving.
  - unfold movementTick.
    repeat (invariant_step; try never_moving_leaf); auto.
  - unfold onmousedown. repeat (invariant_step; try never_moving_leaf).
  - unfold onmousemove. repeat (invariant_step; try never_moving_leaf); auto.
  - unfold onmouseup. repeat (invariant_step; try never_moving_leaf).
  - unfold onmouseleave. repeat (invariant_step; try never_moving_leaf).
  - unfold onclick. repeat (invariant_step; try never_moving_leaf).
  - unfold onresize. repeat (invariant_step; try never_moving_leaf); auto.
  - exact Hdraw.
  - unfold onopen, joinGame.
    repeat (invariant_step; try never_moving_leaf).
    apply websocket_send_never_moving; discriminate.
  - unfold onmessage, handleServerMessage.
    repeat (invariant_step; try never_moving_leaf); auto.
  - unfold onerror. repeat (invariant_step; try never_moving_leaf).
  - unfold onclose, setTimeout.
    repeat (invariant_step; try never_moving_leaf).
  - unfold reconnect, connectToServer.
    repeat (invariant_step; try never_moving_leaf).
Qed.

(** Whatever the events, the socket of a client that started not moving
    is never handed a stop command. *)
Lemma run_never_moving (events : list Event) (st : GameClient) :
  never_moving st -> never_moving (run events st).
Proof.
  revert st. induction events as [|e events IH]; intros st Hst; simpl.
  - exact Hst.
  - apply IH, dispatch_never_moving, Hst.
Qed.

Lemma no_stop_is_ever_sent (events : list Event) (width height : Z) :
  send_stop ∉ wire (run events (constructed width height)).
Proof.
  apply (run_never_moving events (constructed width height)).
  split; [reflexivity | apply not_elem_of_nil].
Qed.

End NoStop.

(** *** The camera is in bounds after every event *)

#[local] Instance same_view_refl : Reflexive same_view.
Proof. intros a. reflexivity. Qed.

#[local] Instance same_view_trans : Transitive same_view.
Proof. intros a b c Hab Hbc. unfold same_view in *. congruence. Qed.

Lemma framed_ready `{Host} (st : GameClient) : framed st -> ready st.
Proof.
  intros (Hw & Hp & Hid & Hx & Hy).
  split; [exact Hw |]. split; [exact Hp |]. split; [exact Hid |].
  unfold num_between in Hx, Hy.
  destruct (cameraX st) as [|cx] eqn:Ex; [contradiction |].
  destruct (cameraY st) as [|cy] eqn:Ey; [contradiction |].
  exists cx, cy. split; assumption.
Qed.

Lemma framed_same_view `{Host} (a b : GameClient) :
  same_view a b -> framed a -> framed b.
Proof.
  unfold same_view, view, scene. intros E.
  injection E as Ex Ey Ep Eid Ewi EW EH Ecw Ech.
  unfold framed, own_id, camera_in_bounds, viewportWidth, viewportHeight.
  rewrite Ex, Ey, Ep, Eid, Ewi, EW, EH, Ecw, Ech. tauto.
Qed.

Lemma ready_same_view `{Host} (a b : GameClient) :
  same_view a b -> ready a -> ready b.
Proof.
  unfold same_view, view, scene. intros E.
  injection E as Ex Ey Ep Eid Ewi EW EH Ecw Ech.
  unfold ready, own_id, camera_is_number.
  rewrite Ex, Ey, Ep, Eid, Ewi. tauto.
Qed.

Lemma same_unloaded_view (a b : GameClient) :
  same_unloaded a b -> same_view a b.
Proof.
  unfold same_unloaded, same_view. intros E.
  change (view (unloaded b) = view (unloaded a)). rewrite E. reflexivity.
Qed.

Section Establishes.
Context (P P' Q : GameClient -> Prop).

Lemma establishes_bind {A B : Type} (m : M A) (k : A -> M B) :
  total m -> establishes P P' m -> (forall a, establishes P' Q (k a)) ->
  establishes P Q (bind m k).
Proof.
  intros Ht Hm Hk st HP. unfold bind.
  specialize (Ht st). specialize (Hm st HP).
  destruct (m st) as [a st'|e st']; simpl in *.
  - apply Hk, Hm.
  - discriminate.
Qed.

Lemma establishes_weaken {A : Type} (m : M A) :
  (forall st, P st -> P' st) -> establishes P' Q m -> establishes P Q m.
Proof. intros HP Hm st Hst. apply Hm, HP, Hst. Qed.

Lemma establishes_try_catch (m : M unit) (h : Exn -> M unit) :
  establishes P Q m -> (forall e, preserves Q (h e)) ->
  establishes P Q (try_catch m h).
Proof.
  intros Hm Hh st HP. unfold try_catch. specialize (Hm st HP).
  destruct (m st) as [a st'|e st']; simpl in *.
  - exact Hm.
  - apply Hh, Hm.
Qed.

End Establishes.

Lemma numeric_positions_union (a b : gmap string Player) :
  numeric_positions a -> numeric_positions b -> numeric_positions (a ∪ b).
Proof.
  intros Ha Hb id p Hp. apply lookup_union_Some_raw in Hp.
  destruct Hp as [Hp | [_ Hp]]; [exact (Ha id p Hp) | exact (Hb id p Hp)].
Qed.

Lemma numeric_positions_insert (k : string) (p : Player) (a : gmap string Player) :
  numeric_position p -> numeric_positions a -> numeric_positions (<[k := p]> a).
Proof.
  intros Hp Ha id q Hq. apply lookup_insert_Some in Hq.
  destruct Hq as [[_ <-] | [_ Hq]]; [exact Hp | exact (Ha id q Hq)].
Qed.

Lemma numeric_positions_delete (k : string) (a : gmap string Player) :
  numeric_positions a -> numeric_positions (delete k a).
Proof.
  intros Ha id q Hq. apply lookup_delete_Some in Hq.
  destruct Hq as [_ Hq]. exact (Ha id q Hq).
Qed.

Section Invariant.
Context `{Host}.

Lemma drawWorld_frames : establishes ready framed drawWorld.
Proof.
  intros st (Hw & Hp & Hid & Hc).
  destruct (same_still_fields _ _ (drawWorld_views st))
    as (Ewi & _ & _ & _ & _ & Eps & _ & Eid & _).
  split; [rewrite Ewi; exact Hw |]. split; [rewrite Eps; exact Hp |].
  split; [unfold own_id; rewrite Eid; exact Hid |].
  apply drawWorld_in_bounds; assumption.
Qed.

Lemma centerCameraOnMyAvatar_ready : preserves ready centerCameraOnMyAvatar.
Proof.
  intros st (Hw & Hp & Hid & Hc).
  destruct (local_player st) as [p|] eqn:Elp.
  - assert (Hin : players st !! ToPropertyKey (myPlayerId st) = Some p).
    { unfold local_player in Elp.
      destruct (truthy (myPlayerId st)); [exact Elp | discriminate]. }
    destruct (Hp _ _ Hin) as (x & y & Hxy).
    rewrite (centerCameraOnMyAvatar_spec st p x y Elp Hxy). cbn [state_of].
    split; [exact Hw |]. split; [exact Hp |]. split; [exact Hid |].
    eexists _, _. split; reflexivity.
  - assert (E : centerCameraOnMyAvatar st = Normal tt st).
    { unfold centerCameraOnMyAvatar, local_player, property in *. exec.
      destruct (truthy (myPlayerId st)); [| reflexivity].
      rewrite Elp. unfold own_id in Hid. rewrite Hid. reflexivity. }
    rewrite E. repeat split; assumption.
Qed.

Lemma loadAvatarImages_ready : preserves ready loadAvatarImages.
Proof.
  apply (preserves_respects _ same_view).
  - apply ready_same_view.
  - intros st. apply same_unloaded_view, loadAvatarImages_keeps.
Qed.

Ltac ready_leaf :=
  match goal with
  | Hr : ready ?s |- ready _ =>
      destruct Hr as (? & ? & ? & ?);
      split; [assumption |]; split; [assumption |]; split; assumption
  end.

Ltac framed_leaf :=
  match goal with
  | Hf : framed ?s |- framed _ =>
      apply (framed_same_view s); [reflexivity | exact Hf]
  end.

(** The end of a listener that draws: assignments that keep the client
    ready, then [drawWorld]. *)
Ltac to_draw :=
  apply (establishes_weaken framed ready framed); [apply framed_ready |];
  repeat
    lazymatch goal with
    | |- establishes _ _ (bind ?m _) =>
        apply (establishes_bind ready ready framed m);
        [ first [ apply loadAvatarImages_total
                | apply centerCameraOnMyAvatar_total
                | solve [repeat method_step] ]
        | change (preserves ready m);
          first [ apply loadAvatarImages_ready
                | apply centerCameraOnMyAvatar_ready
                | solve [repeat (invariant_step; try ready_leaf)]
                | idtac ]
        | intros ? ]
    end;
  try apply drawWorld_frames.

(** The head of a listener: reads and lines on the console. *)
Ltac head_step :=
  lazymatch goal with
  | |- establishes _ _ (bind ?m _) =>
      apply (establishes_bind framed framed framed m);
      [ solve [repeat method_step]
      | change (preserves framed m);
        solve [repeat (invariant_step; try framed_leaf)]
      | intros ? ]
  end.

Lemma handleServerMessage_framed (m : Message) :
  well_positioned m -> establishes framed framed (handleServerMessage m).
Proof.
  intros Hm. unfold handleServerMessage. do 4 head_step.
  destruct m as [success playerId newPlayers newAvatars | player avatar
                | moved | playerId | action]; cbn [well_positioned] in Hm.
  - destruct Hm as [Hnum Hid]. destruct success.
    + to_draw.
    + change (preserves framed (error "Failed to join game:")).
      repeat (invariant_step; try framed_leaf).
  - destruct Hm as [Hnum _]. to_draw.
    apply preserves_assign.
    intros st (Hw & Hp & Hc). split; [exact Hw |].
    split; [apply numeric_positions_insert; assumption | exact Hc].
  - destruct Hm as [Hnum _]. to_draw.
    apply preserves_assign.
    intros st (Hw & Hp & Hc). split; [exact Hw |].
    split; [apply numeric_positions_union; assumption | exact Hc].
  - to_draw.
    apply preserves_assign.
    intros st (Hw & Hp & Hc). split; [exact Hw |].
    split; [apply numeric_positions_delete; assumption | exact Hc].
  - change (preserves framed (log "Unknown message type:" [action])).
    repeat (invariant_step; try framed_leaf).
Qed.

Lemma onmousemove_framed clientX clientY :
  preserves framed (onmousemove clientX clientY).
Proof.
  unfold onmousemove.
  apply preserves_bind; [apply preserves_this | intros dragging].
  destruct dragging; [| apply preserves_ret].
  change (establishes framed framed
            (deltaX <- this (fun st => clientX - lastMouseX st) ;;
             deltaY <- this (fun st => clientY - lastMouseY st) ;;
             assign (fun st => set_cameraX (num_sub (cameraX st) (Fin deltaX)) st) ;;
             assign (fun st => set_cameraY (num_sub (cameraY st) (Fin deltaY)) st) ;;
             assign (set_lastMouseX clientX) ;;
             assign (set_lastMouseY clientY) ;;
             drawWorld)).
  to_draw.
  - apply preserves_assign. intros st (Hw & Hp & Hid & (cx & cy & Hx & Hy)).
    split; [exact Hw |]. split; [exact Hp |]. split; [exact Hid |].
    eexists _, cy. fields. rewrite Hx. split; [reflexivity | exact Hy].
  - apply preserves_assign. intros st (Hw & Hp & Hid & (cx & cy & Hx & Hy)).
    split; [exact Hw |]. split; [exact Hp |]. split; [exact Hid |].
    eexists cx, _. fields. rewrite Hy. split; [exact Hx | reflexivity].
Qed.

Lemma dispatch_framed (e : Event) :
  well_formed e -> preserves framed (dispatch e).
Proof.
  intros He. destruct e; unfold dispatch.
  - unfold handleKeyDown.
    destruct (String.eqb code "KeyC").
    + change (establishes framed framed (centerCameraOnMyAvatar ;; drawWorld)).
      to_draw.
    + unfold sendMoveCommand, websocket_send, startContinuousMovement,
        setInterval.
      repeat (invariant_step; try framed_leaf).
  - unfold handleKeyUp, checkMovementState, stopContinuousMovement,
      sendStopCommand, websocket_send.
    repeat (invariant_step; try framed_leaf).
  - unfold movementTick, sendMoveCommand, websocket_send.
    repeat (invariant_step; try framed_leaf).
  - unfold onmousedown. repeat (invariant_step; try framed_leaf).
  - apply onmousemove_framed.
  - unfold onmouseup. repeat (invariant_step; try framed_leaf).
  - unfold onmouseleave. repeat (invariant_step; try framed_leaf).
  - unfold onclick. repeat (invariant_step; try framed_leaf).
  - change (establishes framed framed (onresize innerWidth innerHeight)).
    unfold onresize. to_draw.
  - change (establishes framed framed drawWorld).
    apply (establishes_weaken framed ready framed);
      [apply framed_ready | apply drawWorld_frames].
  - unfold onopen, joinGame, websocket_send.
    repeat (invariant_step; try framed_leaf).
  - unfold onmessage. cbn [well_formed] in He.
    apply (establishes_try_catch framed framed).
    + destruct (JSON_parse data) as [m|].
      * apply handleServerMessage_framed, He. reflexivity.
      * intros st Hst. exact Hst.
    + intros e. repeat (invariant_step; try framed_leaf).
  - unfold onerror. repeat (invariant_step; try framed_leaf).
  - unfold onclose, setTimeout. repeat (invariant_step; try framed_leaf).
  - unfold reconnect, connectToServer.
    repeat (invariant_step; try framed_leaf).
Qed.

(** The invariant behind C3: in a session whose messages carry numeric
    positions and player ids that name no member of [Object.prototype],
    the camera is in bounds after every event. *)
Lemma camera_in_bounds_in_every_run
    (events : list Event) (width height : Z) :
  Forall well_formed events ->
  camera_in_bounds (run events (constructed width height)).
Proof.
  intros Hev.
  assert (Hrun : forall st, framed st -> framed (run events st)).
  { induction Hev as [|e events He _ IH]; intros st Hst; simpl.
    - exact Hst.
    - apply IH, dispatch_framed; assumption. }
  apply Hrun. split; [discriminate |]. split; [| split].
  - intros id p Hp. cbn [players constructed] in Hp.
    rewrite lookup_empty in Hp. discriminate.
  - reflexivity.
  - split; simpl; split; try apply Q.le_max_l; apply Qle_refl.
Qed.

(** X2. In a session whose messages carry numeric positions and player
    ids that name no member of [Object.prototype], the camera is in bounds
    after each of its events, whatever they are: keys, ticks, drags,
    resizes, messages, closes and reconnections. *)
Theorem camera_stays_in_bounds_throughout
    (events : list Event) (width height : Z) :
  Forall well_formed events ->
  forall n, camera_in_bounds (run (take n events) (constructed width height)).
Proof.
  intros Hev n. apply camera_in_bounds_in_every_run.
  apply Forall_take, Hev.
Qed.

End Invariant.

(** ** The keyboard loop *)

Lemma pressed_spec (code : string) (st : GameClient) :
  pressed code st = true <-> code ∈ pressedKeys st.
Proof.
  unfold pressed. rewrite existsb_exists, list_elem_of_In. split.
  - intros (k & Hin & Hk). apply String.eqb_eq in Hk. subst k. exact Hin.
  - intros Hin. exists code. split; [exact Hin | apply String.eqb_refl].
Qed.

Lemma keyMap_movement_keys (code : string) :
  is_Some (keyMap code) -> code ∈ movement_keys.
Proof.
  unfold keyMap, movement_keys. intros Hk.
  repeat
    match goal with
    | H : is_Some (if String.eqb code ?k then _ else _) |- _ =>
        let E := fresh "E" in
        destruct (String.eqb code k) eqn:E;
        [apply String.eqb_eq in E; subst code; set_solver |]
    end.
  destruct Hk as [d Hd]. discriminate Hd.
Qed.

Lemma same_still_keys (a b : GameClient) :
  same_still a b -> keys_consistent a -> keys_consistent b.
Proof.
  intros E. unfold keys_consistent.
  destruct (same_still_fields a b E)
    as (_ & _ & _ & _ & _ & _ & _ & _ & _ & _ & -> & _).
  tauto.
Qed.

Lemma same_unloaded_keys (a b : GameClient) :
  same_unloaded a b -> keys_consistent a -> keys_consistent b.
Proof.
  unfold same_unloaded, keys_consistent. intros E.
  change (pressedKeys b) with (pressedKeys (unloaded b)). rewrite E. tauto.
Qed.

(** An invariant that reads the state through fields the method does not
    write is kept as it is. *)
Ltac kept :=
  match goal with
  | H : ?I ?s |- ?I _ => exact H
  end.

Section Keyboard.
Context `{Host}.

Lemma drawing_keeps_keys :
  preserves keys_consistent centerCameraOnMyAvatar /\
  preserves keys_consistent drawWorld /\
  preserves keys_consistent loadAvatarImages.
Proof.
  split; [| split].
  - apply (preserves_respects _ same_still);
      [apply same_still_keys | apply centerCameraOnMyAvatar_views].
  - apply (preserves_respects _ same_still);
      [apply same_still_keys | apply drawWorld_views].
  - apply (preserves_respects _ same_unloaded);
      [apply same_unloaded_keys | apply loadAvatarImages_keeps].
Qed.

Lemma sendMoveCommand_keeps_keys d : preserves keys_consistent (sendMoveCommand d).
Proof.
  unfold sendMoveCommand, websocket_send. repeat (invariant_step; try kept).
Qed.

Lemma handleKeyDown_keeps_keys code : preserves keys_consistent (handleKeyDown code).
Proof.
  destruct drawing_keeps_keys as (Hcenter & Hdraw & _).
  intros st HI. unfold handleKeyDown.
  destruct (String.eqb code "KeyC").
  - revert st HI. apply preserves_bind; [exact Hcenter | intros _; exact Hdraw].
  - destruct (keyMap code) as [d|] eqn:Hk; [| exact HI].
    rewrite bind_this. destruct (pressed code st) eqn:Hp; [exact HI |].
    rewrite bind_assign.
    assert (Hrest : preserves keys_consistent
                      (sendMoveCommand d ;; startContinuousMovement)).
    { apply preserves_bind; [apply sendMoveCommand_keeps_keys | intros _].
      unfold startContinuousMovement, setInterval.
      repeat (invariant_step; try kept). }
    apply Hrest. destruct HI as [Hnd Hall]. split; fields.
    + apply NoDup_app. split; [exact Hnd |]. split; [| apply NoDup_singleton].
      intros k Hin Hk'. apply list_elem_of_singleton in Hk'. subst k.
      apply pressed_spec in Hin. congruence.
    + apply Forall_app. split; [exact Hall |].
      apply Forall_singleton. rewrite Hk. eauto.
Qed.

Lemma handleKeyUp_keeps_keys code : preserves keys_consistent (handleKeyUp code).
Proof.
  intros st HI. unfold handleKeyUp.
  destruct (keyMap code) as [d|]; [| exact HI].
  rewrite bind_this. destruct (pressed code st); [| exact HI].
  rewrite bind_assign.
  assert (Hrest : preserves keys_consistent checkMovementState).
  { unfold checkMovementState, stopContinuousMovement, sendStopCommand,
      websocket_send.
    repeat (invariant_step; try kept). }
  apply Hrest. destruct HI as [Hnd Hall]. split; fields.
  - apply NoDup_filter, Hnd.
  - rewrite Forall_forall in *. intros k Hk. apply Hall.
    apply list_elem_of_filter in Hk. tauto.
Qed.

Lemma dispatch_keeps_keys (e : Event) : preserves keys_consistent (dispatch e).
Proof.
  destruct drawing_keeps_keys as (Hcenter & Hdraw & Hload).
  destruct e; unfold dispatch.
  - apply handleKeyDown_keeps_keys.
  - apply handleKeyUp_keeps_keys.
  - unfold movementTick.
    repeat (invariant_step; try kept); apply sendMoveCommand_keeps_keys.
  - unfold onmousedown. repeat (invariant_step; try kept).
  - unfold onmousemove. repeat (invariant_step; try kept); auto.
  - unfold onmouseup. repeat (invariant_step; try kept).
  - unfold onmouseleave. repeat (invariant_step; try kept).
  - unfold onclick. repeat (invariant_step; try kept).
  - unfold onresize. repeat (invariant_step; try kept); auto.
  - exact Hdraw.
  - unfold onopen, joinGame, websocket_send. repeat (invariant_step; try kept).
  - unfold onmessage, handleServerMessage.
    repeat (invariant_step; try kept); auto.
  - unfold onerror. repeat (invariant_step; try kept).
  - unfold onclose, setTimeout. repeat (invariant_step; try kept).
  - unfold reconnect, connectToServer. repeat (invariant_step; try kept).
Qed.

Lemma run_keeps_keys (events : list Event) (st : GameClient) :
  keys_consistent st -> keys_consistent (run events st).
Proof.
  revert st. induction events as [|e events IH]; intros st Hst; simpl.
  - exact Hst.
  - apply IH, dispatch_keeps_keys, Hst.
Qed.

(** X6. In every run the pressed keys are movement keys, each held once;
    there are therefore at most eight of them. *)
Theorem pressed_keys_are_distinct_movement_keys
    (events : list Event) (width height : Z) :
  let st := run events (constructed width height) in
  NoDup (pressedKeys st) /\
  Forall (fun k => is_Some (keyMap k)) (pressedKeys st) /\
  (length (pressedKeys st) <= 8)%nat.
Proof.
  intros st.
  assert (Hst : keys_consistent st).
  { apply run_keeps_keys. split; [apply NoDup_nil_2 | apply Forall_nil_2]. }
  destruct Hst as [Hnd Hall]. split; [exact Hnd |]. split; [exact Hall |].
  change 8%nat with (length movement_keys).
  apply submseteq_length, NoDup_submseteq; [exact Hnd |].
  intros k Hk. apply keyMap_movement_keys.
  rewrite Forall_forall in Hall. exact (Hall k Hk).
Qed.

End Keyboard.

Section KeyEvents.
Context `{Host}.

(** X3. A key-down for a movement key that is already held, as the
    keyboard repeats it, changes nothing and sends nothing. *)
Theorem repeated_key_down_is_ignored (st : GameClient) (code : string) (d : Direction) :
  keyMap code = Some d -> code ∈ pressedKeys st ->
  handleKeyDown code st = Normal tt st.
Proof.
  intros Hk Hin. unfold handleKeyDown.
  rewrite (keyMap_not_KeyC code d Hk), Hk, bind_this.
  apply pressed_spec in Hin. rewrite Hin. reflexivity.
Qed.

(** X4. A key-up for a key that is not held changes nothing: no command
    is sent and the movement state is not examined. *)
Theorem key_up_of_unheld_key_is_ignored (st : GameClient) (code : string) :
  code ∉ pressedKeys st -> handleKeyUp code st = Normal tt st.
Proof.
  intros Hnot. unfold handleKeyUp.
  destruct (keyMap code); [| reflexivity].
  rewrite bind_this.
  destruct (pressed code st) eqn:Hp; [| reflexivity].
  apply pressed_spec in Hp. contradiction.
Qed.

(** X5. A key that is neither a movement key nor C does nothing, pressed
    or released. *)
Theorem other_keys_are_ignored (st : GameClient) (code : string) :
  keyMap code = None -> code <> "KeyC" ->
  handleKeyDown code st = Normal tt st /\ handleKeyUp code st = Normal tt st.
Proof.
  intros Hk HC. unfold handleKeyDown, handleKeyUp. rewrite Hk.
  destruct (String.eqb code "KeyC") eqn:E.
  - apply String.eqb_eq in E. contradiction.
  - split; reflexivity.
Qed.

Lemma handleKeyDown_while_moving st code d h :
  keyMap code = Some d -> code ∉ pressedKeys st ->
  movementInterval st = Some h -> websocket st = Some OPEN ->
  handleKeyDown code st
    = Normal tt
        (logged (console_log "Sent move command:" [VStr (direction_name d)])
           (sent (send_move d)
              (set_pressedKeys (pressedKeys st ++ [code]) st))).
Proof.
  intros Hk Hnot Hi Hws.
  unfold handleKeyDown. rewrite (keyMap_not_KeyC code d Hk), Hk, bind_this.
  destruct (pressed code st) eqn:Hp.
  { apply pressed_spec in Hp. contradiction. }
  exec.
  unfold sendMoveCommand. exec. fields. rewrite Hws.
  unfold websocket_send. exec. fields. rewrite Hws. exec.
  unfold startContinuousMovement. exec. fields. rewrite Hi. reflexivity.
Qed.

(** X7. A further movement key pressed while the interval runs is added
    after the keys already held and its move is sent at once; the interval
    is not registered again and no timer handle is consumed. *)
Theorem further_key_does_not_restart_interval
    (st : GameClient) (code : string) (d : Direction) (h : positive) :
  keyMap code = Some d -> code ∉ pressedKeys st ->
  movementInterval st = Some h -> websocket st = Some OPEN ->
  let st' := state_of (handleKeyDown code st) in
  pressedKeys st' = pressedKeys st ++ [code] /\
  wire st' = wire st ++ [send_move d] /\
  movementInterval st' = Some h /\ timers st' = timers st.
Proof.
  intros Hk Hnot Hi Hws st'. unfold st'.
  rewrite (handleKeyDown_while_moving st code d h Hk Hnot Hi Hws).
  cbn [state_of]. fields. repeat split. exact Hi.
Qed.

Lemma movementTick_first st code rest d :
  pressedKeys st = code :: rest -> keyMap code = Some d ->
  websocket st = Some OPEN ->
  movementTick st
    = Normal tt
        (logged (console_log "Sent move command:" [VStr (direction_name d)])
           (sent (send_move d) st)).
Proof.
  intros Hp Hk Hws. unfold movementTick. exec. rewrite Hp, Hk.
  unfold sendMoveCommand. exec. rewrite Hws.
  unfold websocket_send. exec. fields. rewrite Hws. exec. reflexivity.
Qed.

Lemma tick_without_keys st :
  pressedKeys st = [] -> dispatch IntervalTick st = Normal tt st.
Proof.
  intros Hp. unfold dispatch, movementTick. exec.
  destruct (movementInterval st); [| reflexivity].
  exec. rewrite Hp. reflexivity.
Qed.

Lemma ticks_without_keys n st :
  pressedKeys st = [] -> run (repeat IntervalTick n) st = st.
Proof.
  intros Hp. induction n as [|n IH]; cbn [run repeat]; [reflexivity |].
  rewrite (tick_without_keys st Hp). exact IH.
Qed.

Lemma ticks_while_held n tail st code rest d h :
  pressedKeys st = code :: rest -> keyMap code = Some d ->
  websocket st = Some OPEN -> movementInterval st = Some h ->
  exists st',
    run (repeat IntervalTick n ++ tail) st = run tail st' /\
    sends (repeat (send_move d) n) st st'.
Proof.
  intros Hp Hk Hws Hi. revert st Hp Hws Hi.
  induction n as [|n IH]; intros st Hp Hws Hi; cbn [run repeat app].
  - exists st. split; [reflexivity |]. unfold sends. rewrite app_nil_r. tauto.
  - unfold dispatch at 1. rewrite bind_this, Hi.
    rewrite (movementTick_first st code rest d Hp Hk Hws). cbn [state_of].
    destruct (IH (logged (console_log "Sent move command:"
                            [VStr (direction_name d)])
                    (sent (send_move d) st)))
      as (st' & -> & Hw & Hp' & Hi' & Hws' & Hm'); try assumption.
    exists st'. split; [reflexivity |].
    unfold sends. rewrite Hw, Hp', Hi', Hws', Hm'. fields.
    rewrite <- app_assoc. tauto.
Qed.

(** X8. From Idle, a movement key held for [n] ticks of the interval
    sends its move [n + 1] times; once it is released the interval still
    fires, and sends nothing. *)
Theorem held_key_repeats_its_move_then_falls_silent
    (st : GameClient) (code : string) (d : Direction) (n m : nat) :
  idle st -> isMoving st = false -> keyMap code = Some d ->
  wire (run (KeyDown code :: repeat IntervalTick n
               ++ KeyUp code :: repeat IntervalTick m) st)
    = wire st ++ repeat (send_move d) (S n).
Proof.
  intros (Hp & Hi & Hws) Hm Hk.
  cbn [run app]. unfold dispatch at 1.
  rewrite (handleKeyDown_first_key st code d Hk Hp Hi Hws). cbn [state_of].
  match goal with
  | |- wire (run _ ?s) = _ =>
      destruct (ticks_while_held n (KeyUp code :: repeat IntervalTick m)
                  s code [] d (timers st))
        as (st' & -> & Hw & Hp' & Hi' & Hws' & Hm');
      try reflexivity; try assumption
  end.
  cbn [run]. unfold dispatch at 1.
  rewrite (handleKeyUp_last_key st' code d Hk);
    [| rewrite Hp'; reflexivity | rewrite Hm'; exact Hm].
  cbn [state_of].
  rewrite ticks_without_keys by reflexivity.
  fields. rewrite Hw. fields. rewrite <- app_assoc. reflexivity.
Qed.

Lemma handleKeyUp_others_held st code d :
  keyMap code = Some d -> code ∈ pressedKeys st ->
  filter (fun k => k <> code) (pressedKeys st) <> [] ->
  handleKeyUp code st
    = Normal tt
        (set_pressedKeys (filter (fun k => k <> code) (pressedKeys st)) st).
Proof.
  intros Hk Hin Hrest. unfold handleKeyUp. rewrite Hk, bind_this.
  apply pressed_spec in Hin. rewrite Hin. exec.
  unfold checkMovementState. exec. fields.
  destruct (filter (fun k => k <> code) (pressedKeys st)) as [|k rest];
    [contradiction |].
  cbn [length Nat.ltb Nat.leb negb]. rewrite andb_false_r. reflexivity.
Qed.

(** X9. With two movement keys held, the interval repeats the move of the
    key pressed first; when that key is released it repeats the move of
    the other, and the release itself sends nothing. *)
Theorem first_pressed_key_drives_the_interval
    (st : GameClient) (a b : string) (da db : Direction) :
  idle st -> keyMap a = Some da -> keyMap b = Some db -> a <> b ->
  wire (run [KeyDown a; KeyDown b; IntervalTick; KeyUp a; IntervalTick] st)
    = wire st ++ [send_move da; send_move db; send_move da; send_move db].
Proof.
  intros (Hp & Hi & Hws) Ha Hb Hab.
  cbn [run]. unfold dispatch at 5.
  rewrite (handleKeyDown_first_key st a da Ha Hp Hi Hws). cbn [state_of].
  unfold dispatch at 4.
  rewrite (handleKeyDown_while_moving _ b db (timers st) Hb);
    [| fields; rewrite list_elem_of_singleton; congruence
     | reflexivity | exact Hws].
  cbn [state_of]. fields. cbn [app].
  unfold dispatch at 3. rewrite bind_this. fields.
  rewrite (movementTick_first _ a [b] da); [| reflexivity | exact Ha | exact Hws].
  cbn [state_of].
  unfold dispatch at 2.
  rewrite (handleKeyUp_others_held _ a da Ha);
    [| fields; set_solver
     | fields; rewrite filter_cons_False, filter_cons_True by congruence;
       discriminate].
  cbn [state_of]. fields.
  rewrite filter_cons_False, filter_cons_True, filter_nil by congruence.
  unfold dispatch at 1. rewrite bind_this. fields.
  rewrite (movementTick_first _ b [] db); [| reflexivity | exact Hb | exact Hws].
  cbn [state_of]. fields. rewrite <- !app_assoc. reflexivity.
Qed.

End KeyEvents.

(** ** Who writes what *)

#[local] Instance same_store_refl : Reflexive same_store.
Proof. intros a. reflexivity. Qed.

#[local] Instance same_store_trans : Transitive same_store.
Proof. intros a b c Hab Hbc. unfold same_store in *. congruence. Qed.

#[local] Instance same_command_loop_refl : Reflexive same_command_loop.
Proof. intros a. reflexivity. Qed.

#[local] Instance same_command_loop_trans : Transitive same_command_loop.
Proof. intros a b c Hab Hbc. unfold same_command_loop in *. congruence. Qed.

Lemma same_still_store (a b : GameClient) : same_still a b -> same_store a b.
Proof.
  unfold same_still, same_store. intros E.
  change (store (still b) = store (still a)). rewrite E. reflexivity.
Qed.

Lemma same_still_command_loop (a b : GameClient) :
  same_still a b -> same_command_loop a b.
Proof.
  unfold same_still, same_command_loop. intros E.
  change (command_loop (still b) = command_loop (still a)).
  rewrite E. reflexivity.
Qed.

Lemma same_unloaded_command_loop (a b : GameClient) :
  same_unloaded a b -> same_command_loop a b.
Proof.
  unfold same_unloaded, same_command_loop. intros E.
  change (command_loop (unloaded b) = command_loop (unloaded a)).
  rewrite E. reflexivity.
Qed.

Section Writers.
Context `{Host}.

Lemma drawing_keeps_store :
  respects same_store centerCameraOnMyAvatar /\ respects same_store drawWorld.
Proof.
  split; intros st; apply same_still_store;
    [apply centerCameraOnMyAvatar_views | apply drawWorld_views].
Qed.

Lemma drawing_keeps_command_loop :
  respects same_command_loop centerCameraOnMyAvatar /\
  respects same_command_loop drawWorld /\
  respects same_command_loop loadAvatarImages.
Proof.
  split; [| split]; intros st.
  - apply same_still_command_loop, centerCameraOnMyAvatar_views.
  - apply same_still_command_loop, drawWorld_views.
  - apply same_unloaded_command_loop, loadAvatarImages_keeps.
Qed.

Lemma dispatch_keeps_store (e : Event) :
  is_SocketMessage e = false -> respects same_store (dispatch e).
Proof.
  destruct drawing_keeps_store as (Hcenter & Hdraw).
  intros He. destruct e; try discriminate He; unfold dispatch.
  - unfold handleKeyDown, sendMoveCommand, websocket_send,
      startContinuousMovement, setInterval.
    repeat (method_step; try reflexivity); auto.
  - unfold handleKeyUp, checkMovementState, stopContinuousMovement,
      sendStopCommand, websocket_send.
    repeat (method_step; try reflexivity).
  - unfold movementTick, sendMoveCommand, websocket_send.
    repeat (method_step; try reflexivity).
  - unfold onmousedown. repeat (method_step; try reflexivity).
  - unfold onmousemove. repeat (method_step; try reflexivity); auto.
  - unfold onmouseup. repeat (method_step; try reflexivity).
  - unfold onmouseleave. repeat (method_step; try reflexivity).
  - unfold onclick. repeat (method_step; try reflexivity).
  - unfold onresize. repeat (method_step; try reflexivity); auto.
  - exact Hdraw.
  - unfold onopen, joinGame, websocket_send.
    repeat (method_step; try reflexivity).
  - unfold onerror. repeat (method_step; try reflexivity).
  - unfold onclose, setTimeout. repeat (method_step; try reflexivity).
  - unfold reconnect, connectToServer. repeat (method_step; try reflexivity).
Qed.

(** X10. Only a message of the server changes the store: along any run of
    other events (keys, ticks, mouse, resize, the life of the socket) the
    local player id, the players, the avatars and the loaded images stay as
    they were; in particular a close and a reconnection keep them. *)
Theorem only_messages_change_the_store
    (events : list Event) (st : GameClient) :
  Forall (fun e => is_SocketMessage e = false) events ->
  store (run events st) = store st.
Proof.
  intros Hev. revert st.
  induction Hev as [|e events He _ IH]; intros st; cbn [run].
  - reflexivity.
  - rewrite IH. exact (dispatch_keeps_store e He st).
Qed.

(** X11. A message of the server is never answered and never touches the
    command loop: whatever the payload, the messages handed to the socket,
    the pressed keys, the interval, the socket and the timers are the same
    after [onmessage] as before. *)
Theorem messages_leave_the_command_loop_alone (data : string) (st : GameClient) :
  command_loop (state_of (onmessage data st)) = command_loop st.
Proof.
  destruct drawing_keeps_command_loop as (Hcenter & Hdraw & Hload).
  revert st. change (respects same_command_loop (onmessage data)).
  unfold onmessage, handleServerMessage.
  repeat (method_step; try reflexivity); auto.
Qed.

End Writers.

(** ** The socket before it opens *)

Lemma same_still_offline l (a b : GameClient) :
  same_still a b -> offline l a -> offline l b.
Proof.
  intros E. apply same_still_command_loop in E.
  unfold same_command_loop, command_loop in E. injection E as Ew _ _ Es _ _ _.
  unfold offline. rewrite Ew, Es. tauto.
Qed.

Lemma same_unloaded_offline l (a b : GameClient) :
  same_unloaded a b -> offline l a -> offline l b.
Proof.
  intros E. apply same_unloaded_command_loop in E.
  unfold same_command_loop, command_loop in E. injection E as Ew _ _ Es _ _ _.
  unfold offline. rewrite Ew, Es. tauto.
Qed.

Section Offline.
Context `{Host}.

Lemma sendMoveCommand_offline l d : preserves (offline l) (sendMoveCommand d).
Proof.
  intros st [Hws Hw]. unfold sendMoveCommand. rewrite bind_this.
  destruct (websocket st) as [[]|] eqn:E; try congruence;
    exec; cbn [state_of]; (split; [fields; rewrite E; discriminate | exact Hw]).
Qed.

Lemma sendStopCommand_offline l : preserves (offline l) sendStopCommand.
Proof.
  intros st [Hws Hw]. unfold sendStopCommand. rewrite bind_this.
  destruct (websocket st) as [[]|] eqn:E; try congruence;
    exec; cbn [state_of]; (split; [fields; rewrite E; discriminate | exact Hw]).
Qed.

Ltac offline_leaf :=
  first
    [ kept
    | match goal with
      | Ho : offline _ _ |- offline _ _ =>
          destruct Ho as [? ?]; split; [discriminate | assumption]
      end ].

Lemma dispatch_offline l (e : Event) :
  is_SocketOpen e = false -> preserves (offline l) (dispatch e).
Proof.
  assert (Hcenter : preserves (offline l) centerCameraOnMyAvatar).
  { apply (preserves_respects _ same_still);
      [apply same_still_offline | apply centerCameraOnMyAvatar_views]. }
  assert (Hdraw : preserves (offline l) drawWorld).
  { apply (preserves_respects _ same_still);
      [apply same_still_offline | apply drawWorld_views]. }
  assert (Hload : preserves (offline l) loadAvatarImages).
  { apply (preserves_respects _ same_unloaded);
      [apply same_unloaded_offline | apply loadAvatarImages_keeps]. }
  pose proof (sendMoveCommand_offline l) as Hmove.
  pose proof (sendStopCommand_offline l) as Hstop.
  intros He. destruct e; try discriminate He; unfold dispatch.
  - unfold handleKeyDown, startContinuousMovement, setInterval.
    repeat (invariant_step; try offline_leaf); auto.
  - unfold handleKeyUp, checkMovementState, stopContinuousMovement.
    repeat (invariant_step; try offline_leaf); auto.
  - unfold movementTick. repeat (invariant_step; try offline_leaf); auto.
  - unfold onmousedown. repeat (invariant_step; try offline_leaf).
  - unfold onmousemove. repeat (invariant_step; try offline_leaf); auto.
  - unfold onmouseup. repeat (invariant_step; try offline_leaf).
  - unfold onmouseleave. repeat (invariant_step; try offline_leaf).
  - unfold onclick. repeat (invariant_step; try offline_leaf).
  - unfold onresize. repeat (invariant_step; try offline_leaf); auto.
  - exact Hdraw.
  - unfold onmessage, handleServerMessage.
    repeat (invariant_step; try offline_leaf); auto.
  - unfold onerror. repeat (invariant_step; try offline_leaf).
  - unfold onclose, setTimeout. repeat (invariant_step; try offline_leaf).
  - unfold reconnect, connectToServer.
    repeat (invariant_step; try offline_leaf).
Qed.

(** X12. As long as the socket has not opened, nothing is handed to it:
    along any run without an open event, from a state whose socket is
    absent, connecting, closing or closed, the sent messages stay as they
    were, whatever keys are pressed, and the socket is still not open. *)
Theorem nothing_is_sent_until_the_socket_opens
    (events : list Event) (st : GameClient) :
  websocket st <> Some OPEN ->
  Forall (fun e => is_SocketOpen e = false) events ->
  wire (run events st) = wire st /\ websocket (run events st) <> Some OPEN.
Proof.
  intros Hws Hev.
  assert (Hrun : forall s, offline (wire st) s -> offline (wire st) (run events s)).
  { induction Hev as [|e events He _ IH]; intros s Hs; cbn [run].
    - exact Hs.
    - apply IH, dispatch_offline; assumption. }
  destruct (Hrun st (conj Hws eq_refl)) as [Hws' Hw'].
  split; assumption.
Qed.

(** X1. In no run is a stop command handed to the socket, and [isMoving]
    is false after every event: nothing in the class sets it, so the branch
    of [checkMovementState] that stops the movement is never taken. *)
Theorem stop_command_is_never_sent
    (events : list Event) (width height : Z) :
  let st := run events (constructed width height) in
  isMoving st = false /\ Forall (fun msg => msg <> send_stop) (wire st).
Proof.
  intros st.
  destruct (run_never_moving events (constructed width height)) as [Hm Hw].
  { split; [reflexivity | apply not_elem_of_nil]. }
  split; [exact Hm |].
  apply Forall_forall. intros msg Hin ->. exact (Hw Hin).
Qed.

End Offline.

(** ** Players who join and leave *)

Lemma same_unloaded_avatars (a b : GameClient) :
  same_unloaded a b -> avatars b = avatars a.
Proof.
  unfold same_unloaded. intros E.
  change (avatars (unloaded b) = avatars (unloaded a)). rewrite E. reflexivity.
Qed.

Section JoinAndLeave.
Context `{Host}.

Lemma store_after_drawWorld s :
  store (state_of (drawWorld s)) = store s.
Proof. apply (proj2 drawing_keeps_store s). Qed.

Lemma handle_player_left st playerId :
  exists s,
    handleServerMessage (player_left playerId) st = drawWorld s /\
    players s = delete (ToPropertyKey playerId) (players st) /\
    avatars s = avatars st /\ myPlayerId s = myPlayerId st /\
    loadedAvatarImages s = loadedAvatarImages st /\
    cameraX s = cameraX st /\ cameraY s = cameraY st /\ scene s = scene st.
Proof.
  unfold handleServerMessage. exec.
  eexists. split; [reflexivity |]. repeat split.
Qed.

Lemma handle_player_joined st player avatar :
  exists s,
    handleServerMessage (player_joined player avatar) st = drawWorld s /\
    players s = <[ToPropertyKey (get player "id") := player]> (players st) /\
    avatars s = <[name avatar := avatar]> (avatars st) /\
    myPlayerId s = myPlayerId st.
Proof.
  unfold handleServerMessage. exec.
  match goal with
  | |- context [bind loadAvatarImages ?k ?s0] =>
      rewrite (bind_total loadAvatarImages k s0 loadAvatarImages_total);
      destruct (same_unloaded_fields _ _ (loadAvatarImages_keeps s0))
        as (Ep & Em & _);
      pose proof (same_unloaded_avatars _ _ (loadAvatarImages_keeps s0)) as Ea
  end.
  eexists. split; [reflexivity |].
  rewrite Ep, Em, Ea. repeat split.
Qed.

(** X13. [player_left] removes the player of that id and nothing else:
    the id is absent afterwards, every other player is as before, and for
    an id that was absent the players are unchanged.  The avatars, the
    loaded images and the local player id are kept, and the camera is not
    centered again: it is only clamped by the drawing. *)
Theorem player_left_removes_one_player (st : GameClient) (playerId : value) :
  let key := ToPropertyKey playerId in
  let st' := state_of (handleServerMessage (player_left playerId) st) in
  players st' = delete key (players st) /\
  players st' !! key = None /\
  (forall id, id <> key -> players st' !! id = players st !! id) /\
  (players st !! key = None -> players st' = players st) /\
  avatars st' = avatars st /\
  loadedAvatarImages st' = loadedAvatarImages st /\
  myPlayerId st' = myPlayerId st /\
  (forall w, worldImage st = Some w ->
     cameraX st' = clamp (cameraX st) (worldWidth st) (viewportWidth st) /\
     cameraY st' = clamp (cameraY st) (worldHeight st) (viewportHeight st)).
Proof.
  intros key st'. unfold st'.
  destruct (handle_player_left st playerId)
    as (s & -> & Ep & Ea & Em & El & Ex & Ey & Es).
  pose proof (store_after_drawWorld s) as Est.
  unfold store in Est. injection Est as Em' Ep' Ea' El'.
  rewrite Ep', Ea', El', Em', Ep, Ea, El, Em. fold key.
  split; [reflexivity |].
  split; [apply lookup_delete_eq |].
  split; [intros id Hid; apply lookup_delete_ne; congruence |].
  split; [intros Habsent; apply delete_id; exact Habsent |].
  repeat (split; [reflexivity |]).
  intros w Hw.
  assert (Hws : worldImage s = Some w).
  { rewrite (scene_worldImage _ _ Es). exact Hw. }
  destruct (drawWorld_clamps s w Hws) as [-> ->].
  destruct (scene_sizes _ _ Es) as (EW & EH & Ecw & Ech).
  unfold viewportWidth, viewportHeight.
  rewrite Ex, Ey, EW, EH, Ecw, Ech. split; reflexivity.
Qed.

(** X14. A player who joins under a fresh id and then leaves is gone
    without a trace among the players, which are exactly as before; the
    avatar announced with the player stays in the store. *)
Theorem join_then_leave_restores_players
    (st : GameClient) (player : Player) (avatar : Avatar) :
  players st !! ToPropertyKey (get player "id") = None ->
  let st' :=
    state_of (handleServerMessage (player_left (get player "id"))
                (state_of (handleServerMessage (player_joined player avatar) st))) in
  players st' = players st /\
  avatars st' !! name avatar = Some avatar.
Proof.
  intros Hfresh st'. unfold st'.
  destruct (handle_player_joined st player avatar) as (s1 & -> & Ep1 & Ea1 & _).
  pose proof (store_after_drawWorld s1) as Est1.
  unfold store in Est1. injection Est1 as _ Ep1' Ea1' _.
  destruct (handle_player_left (state_of (drawWorld s1)) (get player "id"))
    as (s2 & -> & Ep2 & Ea2 & _).
  pose proof (store_after_drawWorld s2) as Est2.
  unfold store in Est2. injection Est2 as _ Ep2' Ea2' _.
  rewrite Ep2', Ea2', Ep2, Ea2, Ep1', Ea1', Ep1, Ea1. split.
  - rewrite delete_insert_eq. apply delete_id. exact Hfresh.
  - apply lookup_insert_eq.
Qed.

(** X15. A join result that reports a failure, and a message with an
    action the client does not know, change nothing but the console:
    nothing is drawn and the method returns normally. *)
Theorem rejected_and_unknown_messages_are_logged_only (st : GameClient) :
  (forall playerId newPlayers newAvatars,
      let c := handleServerMessage
                 (join_game false playerId newPlayers newAvatars) st in
      completes c = true /\ quiet (state_of c) = quiet st /\
      ctx (state_of c) = ctx st /\
      last (console (state_of c)) = Some (console_error "Failed to join game:")) /\
  (forall action,
      let c := handleServerMessage (unknown_action action) st in
      completes c = true /\ quiet (state_of c) = quiet st /\
      ctx (state_of c) = ctx st).
Proof.
  split; intros; unfold c, handleServerMessage; exec; cbn [completes state_of];
    repeat split.
  fields. unfold logged. fields. apply last_snoc.
Qed.

End JoinAndLeave.

(** ** Loading the images of the avatars *)

#[local] Instance images_kept_refl : Reflexive images_kept.
Proof. intros a n m Hl. exact Hl. Qed.

#[local] Instance images_kept_trans : Transitive images_kept.
Proof. intros a b c Hab Hbc n m Hl. apply Hbc, Hab, Hl. Qed.

Lemma set_loadedAvatarImages_twice v v' st :
  set_loadedAvatarImages v (set_loadedAvatarImages v' st)
    = set_loadedAvatarImages v st.
Proof. reflexivity. Qed.

Lemma images_kept_eq (a b : GameClient) :
  loadedAvatarImages b = loadedAvatarImages a -> images_kept a b.
Proof. intros E n m Hl. rewrite E. exact Hl. Qed.

Lemma same_still_images (a b : GameClient) : same_still a b -> images_kept a b.
Proof.
  intros E. apply images_kept_eq. apply same_still_store in E.
  unfold same_store, store in E. injection E as _ _ _ El. exact El.
Qed.

Lemma loaded_directions_spec (direction : string) :
  direction ∈ loaded_directions
  <-> direction = "north" \/ direction = "south" \/ direction = "east".
Proof.
  unfold loaded_directions.
  rewrite !elem_of_cons, elem_of_nil. tauto.
Qed.

(** The sequence of a loaded direction, read through the insertions. *)
Ltac loaded_case E :=
  rewrite bool_decide_eq_true_2 by (apply loaded_directions_spec; tauto);
  rewrite E;
  rewrite ?lookup_insert_eq, ?lookup_insert_ne, ?lookup_empty by congruence;
  reflexivity.

Section Loading.
Context `{Host}.

Lemma loadAvatarImage_known st avatar :
  property (loadedAvatarImages st) (name avatar) <> Missing ->
  loadAvatarImage avatar st = Normal tt st.
Proof.
  intros Hl. unfold loadAvatarImage. exec.
  destruct (property (loadedAvatarImages st) (name avatar));
    [reflexivity | reflexivity | contradiction].
Qed.

Lemma loadAvatarImage_fresh st avatar :
  property (loadedAvatarImages st) (name avatar) = Missing ->
  exists sequences,
    loadAvatarImage avatar st
      = Normal tt (set_loadedAvatarImages
                     (<[name avatar := sequences]> (loadedAvatarImages st)) st) /\
    forall direction,
      sequences !! direction
        = if bool_decide (direction ∈ loaded_directions)
          then map mkImage <$> frames avatar !! direction
          else None.
Proof.
  intros Hl. unfold loadAvatarImage. exec. rewrite Hl. exec.
  apply property_missing in Hl. destruct Hl as [Hl _].
  cbn [forEach].
  destruct (frames avatar !! "north") as [north|] eqn:En;
    destruct (frames avatar !! "south") as [south|] eqn:Es;
    destruct (frames avatar !! "east") as [east|] eqn:Ee;
    exec; fields;
    rewrite ?lookup_insert_eq; cbn [default from_option id];
    rewrite ?set_loadedAvatarImages_twice, ?insert_insert_eq;
    (eexists; split; [reflexivity |]);
    intros direction;
    (destruct (decide (direction = "north")) as [->|Hn];
     [loaded_case En |]);
    (destruct (decide (direction = "south")) as [->|Hs];
     [loaded_case Es |]);
    (destruct (decide (direction = "east")) as [->|He];
     [loaded_case Ee |]);
    rewrite bool_decide_eq_false_2 by (rewrite loaded_directions_spec; tauto);
    rewrite ?lookup_insert_ne, ?lookup_empty by congruence;
    reflexivity.
Qed.

Lemma loadAvatarImage_keeps_images avatar :
  respects images_kept (loadAvatarImage avatar).
Proof.
  intros st.
  destruct (property (loadedAvatarImages st) (name avatar)) eqn:Hl.
  - rewrite (loadAvatarImage_known st avatar); [reflexivity |].
    rewrite Hl. discriminate.
  - rewrite (loadAvatarImage_known st avatar); [reflexivity |].
    rewrite Hl. discriminate.
  - destruct (loadAvatarImage_fresh st avatar Hl) as (sequences & -> & _).
    apply property_missing in Hl. destruct Hl as [Hl _].
    intros n m Hn. cbn [state_of]. fields.
    rewrite lookup_insert_ne; [exact Hn | congruence].
Qed.

Lemma loadAvatarImage_loads avatar st :
  inherits (name avatar) = false ->
  is_Some (loadedAvatarImages (state_of (loadAvatarImage avatar st))
             !! name avatar).
Proof.
  intros Hown.
  destruct (loadedAvatarImages st !! name avatar) as [sequences|] eqn:Hl.
  - rewrite (loadAvatarImage_known st avatar).
    + cbn [state_of]. rewrite Hl. eauto.
    + rewrite (property_own _ _ _ Hl). discriminate.
  - assert (Hm : property (loadedAvatarImages st) (name avatar) = Missing)
      by (apply property_missing; split; assumption).
    destruct (loadAvatarImage_fresh st avatar Hm) as (sequences & -> & _).
    cbn [state_of]. fields. rewrite lookup_insert_eq. eauto.
Qed.

Lemma loadAvatarImage_total avatar : total (loadAvatarImage avatar).
Proof. unfold loadAvatarImage. repeat method_step. Qed.

Lemma loadAvatarImages_keeps_images : respects images_kept loadAvatarImages.
Proof.
  unfold loadAvatarImages.
  use respects_bind; [use respects_this | intros known].
  use respects_forEach. intros entry. apply loadAvatarImage_keeps_images.
Qed.

(** After the loop over a list of avatars, each of them is loaded, unless
    its name is inherited. *)
Lemma forEach_loads (l : list (string * Avatar)) st :
  forall entry, entry ∈ l -> inherits (name (snd entry)) = false ->
    is_Some (loadedAvatarImages
               (state_of (forEach l (fun entry => loadAvatarImage (snd entry)) st))
               !! name (snd entry)).
Proof.
  revert st. induction l as [|first l IH]; intros st entry Hin Hown.
  - apply elem_of_nil in Hin. contradiction.
  - cbn [forEach]. rewrite (bind_total _ _ st (loadAvatarImage_total (snd first))).
    apply elem_of_cons in Hin. destruct Hin as [-> | Hin].
    + destruct (loadAvatarImage_loads (snd first) st Hown) as [m Hm].
      assert (Hkept : respects images_kept
                        (forEach l (fun entry => loadAvatarImage (snd entry)))).
      { use respects_forEach. intros e. apply loadAvatarImage_keeps_images. }
      exists m. exact (Hkept _ _ _ Hm).
    + apply IH; assumption.
Qed.

Lemma loadAvatarImages_loads st :
  avatars_loaded (state_of (loadAvatarImages st)).
Proof.
  intros key avatar Hk Hown.
  assert (Ea : avatars (state_of (loadAvatarImages st)) = avatars st).
  { apply same_unloaded_avatars, loadAvatarImages_keeps. }
  rewrite Ea in Hk.
  unfold loadAvatarImages. rewrite bind_this.
  apply (forEach_loads (map_to_list (avatars st)) st (key, avatar)).
  - apply elem_of_map_to_list. exact Hk.
  - exact Hown.
Qed.

Lemma avatars_loaded_store (a b : GameClient) :
  store b = store a -> avatars_loaded a -> avatars_loaded b.
Proof.
  unfold store. intros E. injection E as _ _ Ea El.
  unfold avatars_loaded. rewrite Ea, El. tauto.
Qed.

Lemma dispatch_keeps_images (e : Event) : respects images_kept (dispatch e).
Proof.
  assert (Hcenter : respects images_kept centerCameraOnMyAvatar).
  { intros st. apply same_still_images, centerCameraOnMyAvatar_views. }
  assert (Hdraw : respects images_kept drawWorld).
  { intros st. apply same_still_images, drawWorld_views. }
  pose proof loadAvatarImages_keeps_images as Hload.
  destruct e; unfold dispatch.
  - unfold handleKeyDown, sendMoveCommand, websocket_send,
      startContinuousMovement, setInterval.
    repeat (method_step; try (apply images_kept_eq; reflexivity)); auto.
  - unfold handleKeyUp, checkMovementState, stopContinuousMovement,
      sendStopCommand, websocket_send.
    repeat (method_step; try (apply images_kept_eq; reflexivity)).
  - unfold movementTick, sendMoveCommand, websocket_send.
    repeat (method_step; try (apply images_kept_eq; reflexivity)).
  - unfold onmousedown. repeat (method_step; try (apply images_kept_eq; reflexivity)).
  - unfold onmousemove. repeat (method_step; try (apply images_kept_eq; reflexivity)); auto.
  - unfold onmouseup. repeat (method_step; try (apply images_kept_eq; reflexivity)).
  - unfold onmouseleave. repeat (method_step; try (apply images_kept_eq; reflexivity)).
  - unfold onclick. repeat (method_step; try (apply images_kept_eq; reflexivity)).
  - unfold onresize. repeat (method_step; try (apply images_kept_eq; reflexivity)); auto.
  - exact Hdraw.
  - unfold onopen, joinGame, websocket_send.
    repeat (method_step; try (apply images_kept_eq; reflexivity)).
  - unfold onmessage, handleServerMessage.
    repeat (method_step; try (apply images_kept_eq; reflexivity)); auto.
  - unfold onerror. repeat (method_step; try (apply images_kept_eq; reflexivity)).
  - unfold onclose, setTimeout. repeat (method_step; try (apply images_kept_eq; reflexivity)).
  - unfold reconnect, connectToServer. repeat (method_step; try (apply images_kept_eq; reflexivity)).
Qed.

(** X16. The images of an avatar are loaded once: an entry of the loaded
    images is never replaced or removed, whatever events follow, even when
    the server announces an avatar of the same name again with other
    frames. *)
Theorem loaded_images_are_never_replaced
    (events : list Event) (st : GameClient)
    (avatarName : string) (sequences : gmap string (list Image)) :
  loadedAvatarImages st !! avatarName = Some sequences ->
  loadedAvatarImages (run events st) !! avatarName = Some sequences.
Proof.
  revert st. induction events as [|e events IH]; intros st Hl; cbn [run].
  - exact Hl.
  - apply IH. exact (dispatch_keeps_images e st _ _ Hl).
Qed.

(** X17. For an avatar under whose name the loaded images have no
    property, own or inherited from [Object.prototype], [loadAvatarImages]
    creates one image for each frame of its north, south and east
    sequences, in order, under that name; a direction without frames gets
    no sequence, and frames of any other direction (west included) are not
    loaded. *)
Theorem fresh_avatar_loads_three_directions (st : GameClient) (avatar : Avatar) :
  property (loadedAvatarImages st) (name avatar) = Missing ->
  exists sequences,
    loadedAvatarImages (state_of (loadAvatarImage avatar st)) !! name avatar
      = Some sequences /\
    (forall direction,
        direction ∈ loaded_directions ->
        sequences !! direction = map mkImage <$> frames avatar !! direction) /\
    (forall direction,
        direction ∉ loaded_directions -> sequences !! direction = None).
Proof.
  intros Hl.
  destruct (loadAvatarImage_fresh st avatar Hl) as (sequences & -> & Hseq).
  exists sequences. cbn [state_of]. fields.
  split; [apply lookup_insert_eq |].
  split; intros direction Hd; rewrite Hseq.
  - rewrite bool_decide_eq_true_2 by exact Hd. reflexivity.
  - rewrite bool_decide_eq_false_2 by exact Hd. reflexivity.
Qed.

(** X18. After a successful [join_game] and after a [player_joined],
    every avatar of the store whose name is no member of
    [Object.prototype] has loaded images under its name.  An avatar whose
    name is such a member is never loaded: the guard of the loader finds
    the inherited member and skips it. *)
Theorem announced_avatars_are_loaded (st : GameClient) :
  (forall playerId newPlayers newAvatars,
      avatars_loaded
        (state_of (handleServerMessage
                     (join_game true playerId newPlayers newAvatars) st))) /\
  (forall player avatar,
      avatars_loaded
        (state_of (handleServerMessage (player_joined player avatar) st))) /\
  (forall avatar,
      inherits (name avatar) = true ->
      loadAvatarImage avatar st = Normal tt st).
Proof.
  assert (Hview : forall s,
             store (state_of ((centerCameraOnMyAvatar ;; drawWorld) s)) = store s).
  { intros s.
    assert (V : respects same_store (centerCameraOnMyAvatar ;; drawWorld)).
    { destruct drawing_keeps_store as (Hc & Hd).
      use respects_bind; [exact Hc | intros _; exact Hd]. }
    exact (V s). }
  split; [| split].
  - intros playerId newPlayers newAvatars.
    unfold handleServerMessage. exec.
    match goal with
    | |- context [bind loadAvatarImages ?k ?s0] =>
        rewrite (bind_total loadAvatarImages k s0 loadAvatarImages_total);
        pose proof (loadAvatarImages_loads s0) as Hloaded
    end.
    eapply avatars_loaded_store; [apply Hview | exact Hloaded].
  - intros player avatar.
    unfold handleServerMessage. exec.
    match goal with
    | |- context [bind loadAvatarImages ?k ?s0] =>
        rewrite (bind_total loadAvatarImages k s0 loadAvatarImages_total);
        pose proof (loadAvatarImages_loads s0) as Hloaded
    end.
    eapply avatars_loaded_store; [apply store_after_drawWorld | exact Hloaded].
  - intros avatar Hin. apply loadAvatarImage_known.
    unfold property. rewrite Hin.
    destruct (loadedAvatarImages st !! name avatar); discriminate.
Qed.

End Loading.

(** ** Errors while a message is handled *)

Section HandlingErrors.
Context `{Host}.

Lemma onmessage_state (data : string) (st : GameClient) (m : Message) :
  JSON_parse data = Some m ->
  same_quiet (state_of (handleServerMessage m st)) (state_of (onmessage data st)).
Proof.
  intros Hparse. unfold onmessage, try_catch. rewrite Hparse.
  destruct (handleServerMessage m st) as [[] s|e s]; reflexivity.
Qed.

(** X19. No exception leaves [onmessage], whatever the payload; and a
    [players_moved] update is in the store afterwards even when the drawing
    that follows it throws: the catch only logs. *)
Theorem onmessage_never_throws_and_keeps_the_update
    (st : GameClient) (data : string) :
  completes (onmessage data st) = true /\
  (forall moved,
      JSON_parse data = Some (players_moved moved) ->
      players (state_of (onmessage data st)) = moved ∪ players st).
Proof.
  split.
  - unfold onmessage, try_catch.
    destruct (JSON_parse data) as [m|]; [| reflexivity].
    destruct (handleServerMessage m st) as [[] s|e s]; reflexivity.
  - intros moved Hparse.
    pose proof (onmessage_state data st _ Hparse) as E. unfold same_quiet in E.
    change (players (quiet (state_of (onmessage data st))) = moved ∪ players st).
    rewrite E. apply players_after_players_moved.
Qed.

(** X20. The guard [!frames[frameIndex]] does not stop a frame index that
    names the length of a sequence with frames: [frames[frameIndex]] is
    then a number, [drawImage] throws a TypeError, and nothing has been
    drawn on the canvas. *)
Theorem frame_index_length_makes_drawImage_throw
    (st : GameClient) (player : Player) (screenX screenY : num)
    (avatar : Avatar) (sequences : gmap string (list Image))
    (frames : list Image) :
  avatars st !! ToPropertyKey (get player "avatar") = Some avatar ->
  loadedAvatarImages st !! ToPropertyKey (get player "avatar") = Some sequences ->
  sequence_for sequences (get player "facing") = Some frames ->
  frames <> [] ->
  frame_index player = VStr "length" ->
  exists s,
    renderAvatar player screenX screenY st = Throw TypeError s /\
    ctx s = ctx st.
Proof.
  intros Ha Hl Hseq Hne Hidx.
  assert (Hknown : property (avatars st) (ToPropertyKey (get player "avatar"))
                   <> Missing)
    by (rewrite (property_own _ _ _ Ha); discriminate).
  rewrite (renderAvatar_loaded st player screenX screenY sequences Hknown Hl).
  unfold sequence_for in Hseq. unfold sequence_of. rewrite Hidx.
  assert (Hget : array_get frames (VStr "length") = ELength (length frames))
    by reflexivity.
  assert (Htruthy : element_truthy (ELength (length frames)) = true).
  { destruct frames; [contradiction | reflexivity]. }
  destruct (is_west (get player "facing"));
    rewrite (property_own _ _ _ Hseq); exec; cbn [fst snd];
    unfold frame_of; exec; rewrite Hget, Htruthy; cbn [negb]; exec;
    unfold drawn_image, throw; cbn [bind];
    (eexists; split; [reflexivity | reflexivity]).
Qed.

End HandlingErrors.

(** ** Drawing the world *)

#[local] Instance canvas_grows_refl : Reflexive canvas_grows.
Proof. intros a. exists []. symmetry. apply app_nil_r. Qed.

#[local] Instance canvas_grows_trans : Transitive canvas_grows.
Proof.
  intros a b c [l1 H1] [l2 H2]. exists (l1 ++ l2).
  rewrite H2, H1. symmetry. apply app_assoc.
Qed.

Lemma canvas_grows_drawn op st : canvas_grows st (drawn op st).
Proof. exists [op]. reflexivity. Qed.

Lemma canvas_grows_same (a b : GameClient) : ctx b = ctx a -> canvas_grows a b.
Proof. intros E. exists []. rewrite E. symmetry. apply app_nil_r. Qed.

Lemma clamp_idempotent (c : num) (world viewport : Q) :
  clamp (clamp c world viewport) world viewport =n= clamp c world viewport.
Proof.
  destruct c as [|c]; [exact I |]. unfold clamp. cbn [Math_max Math_min num_eq].
  set (b := world - viewport).
  assert (Hm : Qmin c b <= b) by apply Q.le_min_r.
  destruct (Qlt_le_dec b 0) as [Hb | Hb].
  - assert (E : Qmax 0 (Qmin c b) == 0) by (apply Q.max_l; lra).
    rewrite E. rewrite (Q.min_r 0 b) by lra. apply Q.max_l. lra.
  - assert (H0 : 0 <= Qmax 0 (Qmin c b)) by apply Q.le_max_l.
    assert (H1 : Qmax 0 (Qmin c b) <= b) by (apply Q.max_lub; assumption).
    rewrite (Q.min_l _ b) by exact H1. apply Q.max_r. exact H0.
Qed.

Lemma clamp_in_bounds (c world viewport : Q) :
  0 <= c -> c <= Qmax 0 (world - viewport) ->
  clamp (Fin c) world viewport =n= Fin c.
Proof.
  intros H0 H1. cbn [clamp Math_max Math_min num_eq].
  destruct (Qlt_le_dec (world - viewport) 0) as [Hb | Hb].
  - rewrite (Q.max_l 0 (world - viewport)) in H1 by lra.
    assert (Ec : c == 0) by lra.
    rewrite Ec. rewrite (Q.min_r 0 (world - viewport)) by lra.
    apply Q.max_l. lra.
  - rewrite (Q.max_r 0 (world - viewport)) in H1 by exact Hb.
    rewrite (Q.min_l c (world - viewport)) by exact H1.
    apply Q.max_r. exact H0.
Qed.

Section Drawing.
Context `{Host}.

Lemma renderAvatars_canvas_grows : respects canvas_grows renderAvatars.
Proof.
  unfold renderAvatars, renderAvatar, drawn_image, sequence_of, frame_of.
  repeat (method_step;
          try first [apply canvas_grows_drawn
                    | apply canvas_grows_same; reflexivity]).
Qed.

(** X21. [drawWorld] clears the whole canvas and then draws the part of
    the world image that starts at the clamped camera and has the size of
    the viewport, before any avatar; when the viewport fits in the world,
    that part lies inside the world image. *)
Theorem drawWorld_shows_the_world_inside_its_edges
    (st : GameClient) (world : Image) (cx cy : Q) :
  worldImage st = Some world -> cameraX st = Fin cx -> cameraY st = Fin cy ->
  exists (x y : Q) (avatarCalls : list CanvasOp),
    ctx (state_of (drawWorld st))
      = ctx st
        ++ clearRect (Fin 0) (Fin 0)
             (Fin (viewportWidth st)) (Fin (viewportHeight st))
        :: drawImageSub (img world) (Fin x) (Fin y)
             (Fin (viewportWidth st)) (Fin (viewportHeight st))
             (Fin 0) (Fin 0)
             (Fin (viewportWidth st)) (Fin (viewportHeight st))
        :: avatarCalls /\
    cameraX (state_of (drawWorld st)) = Fin x /\
    cameraY (state_of (drawWorld st)) = Fin y /\
    (viewportWidth st <= worldWidth st ->
     0 <= x /\ x + viewportWidth st <= worldWidth st) /\
    (viewportHeight st <= worldHeight st ->
     0 <= y /\ y + viewportHeight st <= worldHeight st).
Proof.
  intros Hw Hx Hy.
  exists (Qmax 0 (Qmin cx (worldWidth st - viewportWidth st))),
         (Qmax 0 (Qmin cy (worldHeight st - viewportHeight st))).
  destruct (drawWorld_clamps st world Hw) as [Ex Ey].
  rewrite Hx in Ex. rewrite Hy in Ey.
  assert (E : exists s, drawWorld st = renderAvatars s /\
            ctx s = ctx st
              ++ [clearRect (Fin 0) (Fin 0)
                    (Fin (viewportWidth st)) (Fin (viewportHeight st));
                  drawImageSub (img world)
                    (clamp (cameraX st) (worldWidth st) (viewportWidth st))
                    (clamp (cameraY st) (worldHeight st) (viewportHeight st))
                    (Fin (viewportWidth st)) (Fin (viewportHeight st))
                    (Fin 0) (Fin 0)
                    (Fin (viewportWidth st)) (Fin (viewportHeight st))]).
  { unfold drawWorld, bind at 1, this at 1. rewrite Hw. exec.
    eexists. split; [reflexivity |].
    fields. unfold drawn. fields. rewrite <- app_assoc. reflexivity. }
  destruct E as (s & Es & Ectx). rewrite Hx, Hy in Ectx.
  destruct (renderAvatars_canvas_grows s) as [calls Hcalls].
  exists calls.
  split.
  { rewrite Es, Hcalls, Ectx, <- app_assoc. reflexivity. }
  split; [exact Ex |]. split; [exact Ey |].
  split; intros Hfit.
  - destruct (clamp_in_world cx (worldWidth st) (viewportWidth st) Hfit)
      as [H0 H1].
    split; [exact H0 | lra].
  - destruct (clamp_in_world cy (worldHeight st) (viewportHeight st) Hfit)
      as [H0 H1].
    split; [exact H0 | lra].
Qed.

Lemma scene_after_drawWorld st : scene (state_of (drawWorld st)) = scene st.
Proof.
  destruct (same_still_fields _ _ (drawWorld_views st))
    as (Ewi & EW & EH & Ecw & Ech & _).
  unfold scene. rewrite Ewi, EW, EH, Ecw, Ech. reflexivity.
Qed.

(** X22. Drawing never moves a camera that is in bounds, and drawing
    twice leaves the camera where the first drawing put it. *)
Theorem drawWorld_is_idempotent_on_the_camera (st : GameClient) :
  worldImage st <> None ->
  let once := state_of (drawWorld st) in
  let twice := state_of (drawWorld once) in
  (cameraX twice =n= cameraX once /\ cameraY twice =n= cameraY once) /\
  (camera_in_bounds st ->
   cameraX once =n= cameraX st /\ cameraY once =n= cameraY st).
Proof.
  intros Hw once twice.
  destruct (worldImage st) as [w|] eqn:Ew; [clear Hw | congruence].
  destruct (drawWorld_clamps st w Ew) as [Ex Ey].
  pose proof (scene_after_drawWorld st) as Es.
  assert (Ew1 : worldImage once = Some w).
  { unfold once. rewrite (scene_worldImage _ _ Es). exact Ew. }
  destruct (drawWorld_clamps once w Ew1) as [Ex2 Ey2].
  destruct (scene_sizes _ _ Es) as (EW & EH & Ecw & Ech).
  fold once in EW, EH, Ecw, Ech, Ex, Ey.
  split.
  - unfold twice. rewrite Ex2, Ey2. unfold viewportWidth, viewportHeight.
    rewrite EW, EH, Ecw, Ech, Ex, Ey.
    split; apply clamp_idempotent.
  - intros [Hbx Hby]. rewrite Ex, Ey. unfold num_between in Hbx, Hby.
    destruct (cameraX st) as [|cx]; [contradiction |].
    destruct (cameraY st) as [|cy]; [contradiction |].
    split; apply clamp_in_bounds; tauto.
Qed.

(** X23. After a resize the canvas has the new size of the window and the
    camera is clamped against it. *)
Theorem resize_clamps_against_the_new_viewport
    (st : GameClient) (world : Image) (innerWidth innerHeight : Z) :
  worldImage st = Some world ->
  let st' := state_of (onresize innerWidth innerHeight st) in
  canvas_width st' = innerWidth /\ canvas_height st' = innerHeight /\
  cameraX st' = clamp (cameraX st) (worldWidth st) (inject_Z innerWidth) /\
  cameraY st' = clamp (cameraY st) (worldHeight st) (inject_Z innerHeight).
Proof.
  intros Hw st'. unfold st', onresize. exec.
  match goal with
  | |- context [drawWorld ?s] =>
      destruct (drawWorld_clamps s world Hw) as [-> ->];
      destruct (scene_sizes _ _ (scene_after_drawWorld s)) as (_ & _ & -> & ->)
  end.
  repeat split.
Qed.

End Drawing.

(** ** The pointer *)

Lemma same_still_pointer (a b : GameClient) :
  same_still a b ->
  isDragging b = isDragging a /\ lastMouseX b = lastMouseX a /\
  lastMouseY b = lastMouseY a /\ cursor b = cursor a.
Proof.
  unfold same_still. intros E.
  repeat split;
    match goal with
    | |- ?f b = ?f a => change (f (still b) = f (still a)); rewrite E; reflexivity
    end.
Qed.

Section Pointer.
Context `{Host}.

(** X24. While the button is held, a pointer move shifts the camera
    against the pointer by the distance from the last pointer position,
    clamps it in the drawing that follows, and remembers the new pointer
    position; the players are the same. *)
Theorem dragging_moves_the_camera_against_the_pointer
    (st : GameClient) (world : Image) (cx cy clientX clientY : Q) :
  isDragging st = true -> worldImage st = Some world ->
  cameraX st = Fin cx -> cameraY st = Fin cy ->
  let st' := state_of (onmousemove clientX clientY st) in
  cameraX st' = clamp (Fin (cx - (clientX - lastMouseX st)))
                  (worldWidth st) (viewportWidth st) /\
  cameraY st' = clamp (Fin (cy - (clientY - lastMouseY st)))
                  (worldHeight st) (viewportHeight st) /\
  lastMouseX st' = clientX /\ lastMouseY st' = clientY /\
  isDragging st' = true /\ players st' = players st.
Proof.
  intros Hd Hw Hx Hy st'. unfold st', onmousemove.
  rewrite bind_this, Hd. exec.
  match goal with
  | |- context [drawWorld ?s] =>
      destruct (drawWorld_clamps s world Hw) as [-> ->];
      destruct (same_still_pointer _ _ (drawWorld_views s)) as (-> & -> & -> & _);
      destruct (same_still_fields _ _ (drawWorld_views s))
        as (_ & _ & _ & _ & _ & -> & _)
  end.
  fields. unfold viewportWidth, viewportHeight. fields.
  rewrite Hx, Hy. repeat split; assumption.
Qed.

(** X25. Once the button is released, or the pointer has left the canvas,
    pointer moves change nothing, however many follow. *)
Theorem pointer_moves_after_release_change_nothing
    (st : GameClient) (moves : list (Q * Q)) :
  let moved := map (fun xy => MouseMove (fst xy) (snd xy)) moves in
  run moved (state_of (onmouseup st)) = state_of (onmouseup st) /\
  run moved (state_of (onmouseleave st)) = state_of (onmouseleave st).
Proof.
  assert (Hrun : forall s, isDragging s = false ->
            run (map (fun xy => MouseMove (fst xy) (snd xy)) moves) s = s).
  { induction moves as [|[x y] moves IH]; intros s Hs; cbn [map run].
    - reflexivity.
    - cbn [dispatch fst snd]. unfold onmousemove at 1.
      rewrite bind_this, Hs. cbn [state_of ret]. apply IH, Hs. }
  split; apply Hrun; reflexivity.
Qed.

End Pointer.

(** ** Following the local player *)

Section Following.
Context `{Host}.

Lemma onmousemove_setting (clientX clientY : Q) (st : GameClient) :
  scene (state_of (onmousemove clientX clientY st)) = scene st /\
  myPlayerId (state_of (onmousemove clientX clientY st)) = myPlayerId st /\
  players (state_of (onmousemove clientX clientY st)) = players st.
Proof.
  unfold onmousemove. rewrite bind_this.
  destruct (isDragging st); [| repeat split].
  exec.
  match goal with
  | |- context [drawWorld ?s] =>
      rewrite (scene_after_drawWorld s);
      destruct (same_still_fields _ _ (drawWorld_views s))
        as (_ & _ & _ & _ & _ & -> & _ & -> & _)
  end.
  repeat split.
Qed.

(** X26. A [players_moved] message puts the camera back on the local
    player wherever a drag had left it: the camera after the message is the
    clamped center, whatever it was before. *)
Theorem movement_message_undoes_panning
    (st : GameClient) (moved : gmap string Player) (p : Player)
    (x y clientX clientY : Q) :
  worldImage st <> None ->
  local_player (set_players (moved ∪ players st) st) = Some p ->
  positioned p x y ->
  let panned := state_of (onmousemove clientX clientY st) in
  let st' := state_of (handleServerMessage (players_moved moved) panned) in
  cameraX st' = clamp (Fin (x - viewportWidth st / 2))
                  (worldWidth st) (viewportWidth st) /\
  cameraY st' = clamp (Fin (y - viewportHeight st / 2))
                  (worldHeight st) (viewportHeight st).
Proof.
  intros Hw Hp Hxy panned st'.
  destruct (onmousemove_setting clientX clientY st) as (Esc & Eid & Eps).
  fold panned in Esc, Eid, Eps.
  destruct (scene_sizes _ _ Esc) as (EW & EH & Ecw & Ech).
  pose proof (scene_worldImage _ _ Esc) as Ewi.
  unfold st'.
  destruct (handle_players_moved panned moved) as (s & -> & Es).
  destruct (same_still_fields _ _ Es)
    as (Hwi & HW & HH & Hcw & Hch & Hps & _ & Hid & _).
  fields in Hwi. fields in HW. fields in HH. fields in Hcw. fields in Hch.
  fields in Hps. fields in Hid.
  assert (Hlp : local_player s = Some p).
  { rewrite <- Hp. apply local_player_ext.
    - fields. rewrite Hid. exact Eid.
    - fields. rewrite Hps, Eps. reflexivity. }
  assert (Hws : worldImage s <> None) by (rewrite Hwi, Ewi; exact Hw).
  destruct (center_then_draw_camera s p x y Hws Hlp Hxy) as [Ex Ey].
  rewrite Ex, Ey. unfold viewportWidth, viewportHeight.
  rewrite HW, HH, Hcw, Hch, EW, EH, Ecw, Ech. split; reflexivity.
Qed.

(** X27. When the local player is at least half a viewport away from
    every edge of the world, the key C puts it at the center of the
    viewport. *)
Theorem key_C_puts_the_local_player_at_the_viewport_center
    (st : GameClient) (p : Player) (x y : Q) :
  worldImage st <> None ->
  local_player st = Some p -> positioned p x y ->
  viewportWidth st / 2 <= x -> x <= worldWidth st - viewportWidth st / 2 ->
  viewportHeight st / 2 <= y -> y <= worldHeight st - viewportHeight st / 2 ->
  let st' := state_of (handleKeyDown "KeyC" st) in
  point_eq (worldToScreen st' (Fin x) (Fin y))
           (Fin (viewportWidth st / 2), Fin (viewportHeight st / 2)).
Proof.
  intros Hw Hp Hxy Hx0 Hx1 Hy0 Hy1 st'. unfold st'.
  change (handleKeyDown "KeyC" st)
    with ((centerCameraOnMyAvatar ;; drawWorld) st).
  destruct (center_then_draw_camera st p x y Hw Hp Hxy) as [Ex Ey].
  unfold point_eq, worldToScreen. rewrite Ex, Ey.
  pose proof (clamp_inside (x - viewportWidth st / 2) (worldWidth st)
                (viewportWidth st)) as Cx.
  pose proof (clamp_inside (y - viewportHeight st / 2) (worldHeight st)
                (viewportHeight st)) as Cy.
  assert (Ew : viewportWidth st == 2 * (viewportWidth st / 2)) by field.
  assert (Eh : viewportHeight st == 2 * (viewportHeight st / 2)) by field.
  set (hw := viewportWidth st / 2) in *.
  set (hh := viewportHeight st / 2) in *.
  cbn [clamp Math_max Math_min num_eq] in Cx, Cy.
  cbn [clamp Math_max Math_min fst snd num_sub num_eq].
  split.
  - rewrite Cx by lra. ring.
  - rewrite Cy by lra. ring.
Qed.

Lemma handle_players_moved_quiet st moved :
  exists s,
    handleServerMessage (players_moved moved) st
      = (centerCameraOnMyAvatar ;; drawWorld) s /\
    quiet s = quiet (set_players (moved ∪ players st) st).
Proof.
  unfold handleServerMessage. exec.
  eexists. split; reflexivity.
Qed.

Lemma followed_ext (a b : GameClient) :
  myPlayerId b = myPlayerId a -> players b = players a ->
  followed b = followed a.
Proof. unfold followed. intros -> ->. reflexivity. Qed.

Lemma centerCameraOnMyAvatar_missing (st : GameClient) :
  followed st = Missing -> centerCameraOnMyAvatar st = Normal tt st.
Proof.
  unfold followed, centerCameraOnMyAvatar, bind, this.
  destruct (truthy (myPlayerId st)); [| reflexivity].
  intros ->. reflexivity.
Qed.

Lemma centerCameraOnMyAvatar_inherited (st : GameClient) :
  followed st = Inherited ->
  centerCameraOnMyAvatar st
    = Normal tt (set_cameraY NaN (set_cameraX NaN st)).
Proof.
  unfold followed, centerCameraOnMyAvatar, bind, this.
  destruct (truthy (myPlayerId st)); [| discriminate].
  intros ->. reflexivity.
Qed.

(** X28. When the read of the local player finds nothing, neither a player
    of the store nor a member of [Object.prototype], the key C and a
    [players_moved] message (whose ids name no member of
    [Object.prototype]) move the camera no further than the clamp of the
    drawing.  When the read finds a member of [Object.prototype], the key C
    leaves the camera NaN on both axes. *)
Theorem without_local_player_the_camera_is_only_clamped
    (st : GameClient) (world : Image) (moved : gmap string Player) :
  worldImage st = Some world ->
  (followed st = Missing ->
   let st' := state_of (handleKeyDown "KeyC" st) in
   cameraX st' = clamp (cameraX st) (worldWidth st) (viewportWidth st) /\
   cameraY st' = clamp (cameraY st) (worldHeight st) (viewportHeight st)) /\
  (own_names moved ->
   followed (set_players (moved ∪ players st) st) = Missing ->
   let st' := state_of (handleServerMessage (players_moved moved) st) in
   cameraX st' = clamp (cameraX st) (worldWidth st) (viewportWidth st) /\
   cameraY st' = clamp (cameraY st) (worldHeight st) (viewportHeight st)) /\
  (followed st = Inherited ->
   let st' := state_of (handleKeyDown "KeyC" st) in
   cameraX st' = NaN /\ cameraY st' = NaN).
Proof.
  intros Hw.
  split; [| split].
  - intros Hp st'. unfold st'.
    change (handleKeyDown "KeyC" st)
      with ((centerCameraOnMyAvatar ;; drawWorld) st).
    unfold bind. rewrite (centerCameraOnMyAvatar_missing st Hp).
    exact (drawWorld_clamps st world Hw).
  - intros _ Hp st'. unfold st'.
    destruct (handle_players_moved_quiet st moved) as (s & -> & Es).
    destruct (same_quiet_camera _ _ Es) as [Ecx Ecy].
    destruct (same_still_fields _ _ (same_quiet_still _ _ Es))
      as (Hwi & HW & HH & Hcw & Hch & Hps & _ & Hid & _).
    fields in Ecx. fields in Ecy.
    fields in Hwi. fields in HW. fields in HH. fields in Hcw. fields in Hch.
    fields in Hps. fields in Hid.
    assert (Hs : followed s = Missing).
    { rewrite <- Hp. apply followed_ext; fields; assumption. }
    unfold bind. rewrite (centerCameraOnMyAvatar_missing s Hs).
    assert (Hws : worldImage s = Some world) by (rewrite Hwi; exact Hw).
    destruct (drawWorld_clamps s world Hws) as [-> ->].
    unfold viewportWidth, viewportHeight.
    rewrite HW, HH, Hcw, Hch, Ecx, Ecy.
    split; reflexivity.
  - intros Hp st'. unfold st'.
    change (handleKeyDown "KeyC" st)
      with ((centerCameraOnMyAvatar ;; drawWorld) st).
    unfold bind. rewrite (centerCameraOnMyAvatar_inherited st Hp).
    destruct (drawWorld_clamps (set_cameraY NaN (set_cameraX NaN st)) world Hw)
      as [-> ->].
    split; reflexivity.
Qed.

End Following.

(** ** Losing and regaining the connection *)

Section Reconnecting.
Context `{Host}.

Lemma onclose_state (st : GameClient) :
  let s := state_of (onclose st) in
  websocket s = Some CLOSED /\ timeouts s = timeouts st ++ [timers st] /\
  carried st s.
Proof.
  unfold onclose, setTimeout. exec. cbn [state_of]. unfold carried, store.
  fields. repeat split.
Qed.

Lemma reconnect_state (st : GameClient) (h : positive) (rest : list positive) :
  timeouts st = h :: rest ->
  let s := state_of (dispatch ReconnectTimeout st) in
  websocket s = Some CONNECTING /\ timeouts s = rest /\
  carried st s.
Proof.
  intros E. cbn [dispatch]. rewrite bind_this, E.
  unfold reconnect, connectToServer, try_catch. exec. cbn [state_of].
  unfold carried, store. fields. repeat split.
Qed.

Lemma onopen_state (st : GameClient) :
  let s := state_of (onopen st) in
  websocket s = Some OPEN /\ timeouts s = timeouts st /\
  wire s = wire st ++ [send_join_game "Robert"] /\
  store s = store st /\ pressedKeys s = pressedKeys st /\
  movementInterval s = movementInterval st.
Proof.
  unfold onopen, joinGame, websocket_send. exec. fields. exec.
  cbn [state_of]. unfold store. fields. repeat split.
Qed.

(** X29. A close schedules one reconnection; when it fires and the new
    socket opens, the client joins again under the same name.  Meanwhile
    the store, the pressed keys and the movement interval are kept, so an
    interval started before the close goes on ticking.  Closes that are
    not followed by their timeout leave one pending reconnection each. *)
Theorem lost_connection_is_reopened_and_rejoined (st : GameClient) :
  (let st' := run [SocketClose; ReconnectTimeout; SocketOpen] st in
   websocket st' = Some OPEN /\
   wire st' = wire st ++ [send_join_game "Robert"] /\
   length (timeouts st') = length (timeouts st) /\
   store st' = store st /\
   pressedKeys st' = pressedKeys st /\
   movementInterval st' = movementInterval st) /\
  (websocket (run [SocketClose; ReconnectTimeout] st) = Some CONNECTING) /\
  (forall n,
      length (timeouts (run (repeat SocketClose n) st))
        = (n + length (timeouts st))%nat).
Proof.
  assert (Hn : forall n s,
            length (timeouts (run (repeat SocketClose n) s))
              = (n + length (timeouts s))%nat).
  { intros n. induction n as [|n IH]; intros s; cbn [repeat run].
    - reflexivity.
    - rewrite IH. change (dispatch SocketClose s) with (onclose s).
      destruct (onclose_state s) as (_ & -> & _).
      rewrite length_app. cbn [length]. lia. }
  assert (Hfire : exists h rest,
            timeouts (state_of (onclose st)) = h :: rest /\
            length rest = length (timeouts st)).
  { destruct (onclose_state st) as (_ & -> & _).
    destruct (timeouts st) as [|h pending]; cbn [app].
    - exists (timers st), []. split; reflexivity.
    - exists h, (pending ++ [timers st]). split; [reflexivity |].
      rewrite length_app. cbn [length]. lia. }
  destruct Hfire as (h & rest & Eh & Hlen).
  destruct (onclose_state st) as (_ & _ & Ec).
  destruct (reconnect_state (state_of (onclose st)) h rest Eh)
    as (Ews & Et & Er).
  split; [| split].
  - cbn [run]. change (dispatch SocketClose st) with (onclose st).
    change (dispatch SocketOpen) with onopen.
    set (s := state_of (dispatch ReconnectTimeout (state_of (onclose st)))) in *.
    destruct (onopen_state s) as (Hws & Ht & Hwire & Hstore & Hk & Hi).
    destruct Er as (Ew & Es & Ek & Ei). destruct Ec as (Ew0 & Es0 & Ek0 & Ei0).
    rewrite Hws, Hwire, Ht, Hstore, Hk, Hi, Et, Ew, Es, Ek, Ei, Hlen,
      Ew0, Es0, Ek0, Ei0.
    repeat split.
  - cbn [run]. exact Ews.
  - intros n. apply Hn.
Qed.

End Reconnecting.

(** ** The theorems at the sample data *)

#[local] Existing Instance Sample.host.

(** The theorem at the joined sample client: the key C, a move of the local
    player to the origin, the snapshot itself, and a drag by (-30, 45). *)
Lemma camera_in_bounds_witness :
  camera_in_bounds (state_of (handleKeyDown "KeyC" Sample.joined)) /\
  camera_in_bounds
    (state_of (handleServerMessage
       (players_moved {[ "p1" := <["x" := VNum (Fin 0)]> (<["y" := VNum (Fin 0)]> Sample.p1) ]})
       Sample.joined)) /\
  camera_in_bounds (state_of (handleServerMessage Sample.snapshot Sample.joined)) /\
  camera_in_bounds
    (state_of (onmousemove 30 (-45)
                 (state_of (onmousedown 0 0 Sample.joined)))).
Proof.
  assert (Hj : worldImage Sample.joined <> None) by (vm_compute; discriminate).
  assert (Hd : worldImage (state_of (onmousedown 0 0 Sample.joined)) <> None)
    by (vm_compute; discriminate).
  destruct (camera_in_bounds_after_centering_or_panning Sample.joined Hj)
    as (HkeyC & Hmoved & Hjoin & _).
  destruct (camera_in_bounds_after_centering_or_panning
              (state_of (onmousedown 0 0 Sample.joined)) Hd)
    as (_ & _ & _ & Hdrag).
  split; [| split; [| split]].
  - apply (HkeyC Sample.p1 1000 1000).
    + vm_compute. reflexivity.
    + split; vm_compute; reflexivity.
  - apply (Hmoved _ (<["x" := VNum (Fin 0)]> (<["y" := VNum (Fin 0)]> Sample.p1)) 0 0).
    + vm_compute. reflexivity.
    + split; vm_compute; reflexivity.
  - apply (Hjoin _ _ _ Sample.p1 1000 1000).
    + vm_compute. reflexivity.
    + split; vm_compute; reflexivity.
  - apply Hdrag.
    + vm_compute. reflexivity.
    + eexists _, _. split; vm_compute; reflexivity.
Defined.

(** The join scenario of the sample: the camera ends at (600, 700). *)
Lemma centering_then_clamping_witness :
  cameraX Sample.joined =n= Fin 600 /\ cameraY Sample.joined =n= Fin 700.
Proof.
  assert (Hj : worldImage Sample.joined <> None) by (vm_compute; discriminate).
  assert (Hp : local_player Sample.joined = Some Sample.p1)
    by (vm_compute; reflexivity).
  assert (Hxy : positioned Sample.p1 1000 1000)
    by (split; vm_compute; reflexivity).
  destruct (centering_then_clamping Sample.joined Sample.p1 1000 1000 Hj Hp Hxy)
    as (_ & _ & _ & _ & _ & _ & Hscenario).
  unfold Sample.joined, Sample.snapshot.
  refine (Hscenario (state_of (onopen (constructed 800 600))) (VStr "p1")
            {[ "p1" := Sample.p1; "p2" := Sample.p2 ]}
            {[ "knight" := Sample.knight ]} _ _ _ _ _ _ _ _).
  - vm_compute. discriminate.
  - reflexivity.
  - reflexivity.
  - reflexivity.
  - reflexivity.
  - vm_compute. reflexivity.
  - reflexivity.
  - reflexivity.
Defined.

(** A move of [p2] alone leaves [p1] as it was. *)
Lemma players_moved_keeps_other_players_witness :
  players (state_of (handleServerMessage
             (players_moved {[ "p2" := <["x" := VNum (Fin 41)]> Sample.p2 ]})
             Sample.joined)) !! "p1"
    = players Sample.joined !! "p1".
Proof.
  apply players_moved_keeps_other_players.
  vm_compute. reflexivity.
Defined.

Lemma players_moved_replaces_player_witness :
  players (state_of (handleServerMessage
             (players_moved {[ "p1" := Sample.position_only ]}) Sample.joined)) !! "p1"
    = Some Sample.position_only.
Proof.
  apply players_moved_replaces_player.
  vm_compute. reflexivity.
Defined.

(** C2 fails as stated: after the update of [p1] that carries a position
    only, the stored [p1] has lost its [username]. *)
Lemma players_moved_drops_unsent_fields :
  ~ players_moved_merges_fields Sample.joined
      {[ "p1" := Sample.position_only ]} "p1".
Proof.
  intros Hmerge.
  destruct (Hmerge Sample.p1 Sample.position_only) as (new & Hnew & _ & Hkept).
  - vm_compute. reflexivity.
  - vm_compute. reflexivity.
  - rewrite players_after_players_moved in Hnew.
    rewrite (lookup_union_Some_l _ _ _ Sample.position_only) in Hnew
      by (vm_compute; reflexivity).
    injection Hnew as <-.
    specialize (Hkept "username"). vm_compute in Hkept.
    specialize (Hkept eq_refl). discriminate Hkept.
Qed.

(** The round trips at the sample client, whose camera is (600, 700). *)
Lemma round_trips_on_integer_pixels_witness :
  point_eq (world_screen_world Sample.joined (Fin 1000, Fin 1000))
           (Fin 1000, Fin 1000) /\
  point_eq (screen_world_screen Sample.joined (Fin 1000, Fin 1000))
           (Fin 1000, Fin 1000).
Proof.
  assert (Hrange : forall z, (Z.abs z <= 1000)%Z -> exact_range z).
  { unfold exact_range. intros z Hz.
    apply (Z.le_trans _ 1000); [exact Hz | discriminate]. }
  destruct (round_trips_on_integer_pixels Sample.joined 600 700
              eq_refl eq_refl
              (Hrange 600%Z ltac:(discriminate))
              (Hrange 700%Z ltac:(discriminate))
              1000%Z 1000%Z
              (Hrange 1000%Z ltac:(discriminate))
              (Hrange 1000%Z ltac:(discriminate)))
    as (_ & _ & Hworld & Hscreen).
  split; [exact Hworld | exact Hscreen].
Defined.

(** C4 fails as stated: in a window of 801x600 the camera is centered at
    (599.5, 700); the click at screen (10, 0) maps to world (609, 700),
    which [worldToScreen] maps to screen (9.5, 0). *)
Lemma click_then_worldToScreen_not_identity : ~ exact_inverses Sample.joined_odd.
Proof.
  intros Hinv.
  destruct (Hinv 10 0) as [_ [Hx _]].
  vm_compute in Hx. discriminate Hx.
Qed.

(** A payload that is not JSON, on the client that has just been built. *)
Lemma unparseable_message_is_dropped_witness :
  onmessage "not json" (constructed 800 600)
    = Normal tt (logged (console_error "Error parsing server message:")
                   (constructed 800 600)).
Proof.
  apply (unparseable_message_is_dropped (constructed 800 600) "not json").
  reflexivity.
Defined.

(** The socket of a client that has just been built is still connecting. *)
Lemma commands_dropped_when_socket_not_open_witness :
  wire (state_of (sendMoveCommand up (constructed 800 600))) = [] /\
  wire (state_of (sendStopCommand (constructed 800 600))) = [].
Proof.
  assert (Hws : websocket (constructed 800 600) <> Some OPEN)
    by (simpl; discriminate).
  destruct (commands_dropped_when_socket_not_open (constructed 800 600) up Hws)
    as ((_ & Hmove) & (_ & Hstop)).
  split; [exact Hmove | exact Hstop].
Defined.

(** The joined client, the key ArrowUp pressed and released: the join and
    one move are all that the socket has been handed. *)
Lemma single_key_sends_move_but_no_stop_witness :
  wire (run [KeyDown "ArrowUp"; KeyUp "ArrowUp"] Sample.joined)
    = wire Sample.joined ++ [send_move up] /\
  movementInterval (run [KeyDown "ArrowUp"; KeyUp "ArrowUp"] Sample.joined)
    = Some (timers Sample.joined).
Proof.
  assert (Hp : pressedKeys Sample.joined = []) by (vm_compute; reflexivity).
  assert (Hm : isMoving Sample.joined = false) by (vm_compute; reflexivity).
  assert (Hi : movementInterval Sample.joined = None) by (vm_compute; reflexivity).
  assert (Hws : websocket Sample.joined = Some OPEN) by (vm_compute; reflexivity).
  destruct (single_key_sends_move_but_no_stop Sample.joined "ArrowUp" up
              eq_refl Hp Hm Hi Hws) as (Hwire & _ & Htimer & _).
  split; [exact Hwire | exact Htimer].
Defined.


(** [p1] has no [animationFrame]: it is drawn with frame 0 of the east
    sequence, mirrored. *)
Lemma falsy_animation_frame_draws_first_frame_witness :
  drawn_with Sample.joined Sample.p1 (Fin 400) (Fin 300)
    (mirrored (mkImage "e0") 32)
    (renderAvatar Sample.p1 (Fin 400) (Fin 300) Sample.joined).
Proof.
  refine (proj2 (proj2 (falsy_animation_frame_draws_first_frame
            Sample.joined Sample.p1 (Fin 400) (Fin 300)
            Sample.knight Sample.knight_images
            (mkImage "e0") [mkImage "e1"] _ _ _ _)));
    vm_compute; reflexivity.
Defined.


(** C3 fails as stated.  After an update of the local player that carries
    no [x], and after a join whose player id is [toString], the camera that
    centering has produced is NaN. *)
Lemma centering_can_leave_the_camera_NaN :
  ~ camera_in_bounds
      (state_of (handleServerMessage
                   (players_moved {[ "p1" := Sample.height_only ]})
                   Sample.joined)) /\
  ~ camera_in_bounds
      (state_of (handleServerMessage Sample.nameless
                   (state_of (onopen (constructed 800 600))))).
Proof.
  split; intros [Hx _]; vm_compute in Hx; exact Hx.
Qed.

Lemma sample_joined_idle : idle Sample.joined.
Proof. repeat split; vm_compute; reflexivity. Qed.

Lemma sample_moving_keys : pressedKeys Sample.moving = ["ArrowUp"]%string.
Proof. vm_compute. reflexivity. Qed.

(** ArrowUp repeated while it is held. *)
Lemma repeated_key_down_is_ignored_witness :
  handleKeyDown "ArrowUp" Sample.moving = Normal tt Sample.moving.
Proof.
  apply (repeated_key_down_is_ignored Sample.moving "ArrowUp" up eq_refl).
  rewrite sample_moving_keys. apply list_elem_of_here.
Defined.

(** ArrowUp released on a client that holds no key. *)
Lemma key_up_of_unheld_key_is_ignored_witness :
  handleKeyUp "ArrowUp" Sample.joined = Normal tt Sample.joined.
Proof.
  apply key_up_of_unheld_key_is_ignored.
  destruct sample_joined_idle as (-> & _). apply not_elem_of_nil.
Defined.

(** The key Escape. *)
Lemma other_keys_are_ignored_witness :
  handleKeyDown "Escape" Sample.joined = Normal tt Sample.joined /\
  handleKeyUp "Escape" Sample.joined = Normal tt Sample.joined.
Proof.
  apply other_keys_are_ignored; [reflexivity | discriminate].
Defined.

(** KeyD pressed while ArrowUp is held. *)
Lemma further_key_does_not_restart_interval_witness :
  pressedKeys (state_of (handleKeyDown "KeyD" Sample.moving))
    = ["ArrowUp"; "KeyD"]%string /\
  movementInterval (state_of (handleKeyDown "KeyD" Sample.moving))
    = movementInterval Sample.moving.
Proof.
  assert (Hi : movementInterval Sample.moving = Some 1%positive)
    by (vm_compute; reflexivity).
  assert (Hws : websocket Sample.moving = Some OPEN)
    by (vm_compute; reflexivity).
  assert (Hnot : "KeyD" ∉ pressedKeys Sample.moving).
  { rewrite sample_moving_keys, list_elem_of_singleton. discriminate. }
  destruct (further_key_does_not_restart_interval Sample.moving "KeyD" dright
              1%positive eq_refl Hnot Hi Hws) as (Hp & _ & Hi' & _).
  split.
  - rewrite Hp, sample_moving_keys. reflexivity.
  - rewrite Hi', Hi. reflexivity.
Defined.

(** ArrowUp held for three ticks, then released for two. *)
Lemma held_key_repeats_its_move_then_falls_silent_witness :
  wire (run (KeyDown "ArrowUp" :: repeat IntervalTick 3
               ++ KeyUp "ArrowUp" :: repeat IntervalTick 2) Sample.joined)
    = wire Sample.joined ++ repeat (send_move up) 4.
Proof.
  apply held_key_repeats_its_move_then_falls_silent.
  - exact sample_joined_idle.
  - vm_compute. reflexivity.
  - reflexivity.
Defined.

(** ArrowUp, then KeyD, then ArrowUp released. *)
Lemma first_pressed_key_drives_the_interval_witness :
  wire (run [KeyDown "ArrowUp"; KeyDown "KeyD"; IntervalTick;
             KeyUp "ArrowUp"; IntervalTick] Sample.joined)
    = wire Sample.joined
      ++ [send_move up; send_move dright; send_move up; send_move dright].
Proof.
  apply first_pressed_key_drives_the_interval.
  - exact sample_joined_idle.
  - reflexivity.
  - reflexivity.
  - discriminate.
Defined.

(** Keys, a drag, and a lost connection that is opened again. *)
Lemma only_messages_change_the_store_witness :
  store (run [KeyDown "ArrowUp"; MouseDown 0 0; MouseMove 30 (-45);
              SocketClose; ReconnectTimeout; SocketOpen] Sample.joined)
    = store Sample.joined.
Proof.
  apply only_messages_change_the_store.
  repeat constructor.
Defined.

(** Keys pressed on a client whose socket is still connecting, then closes
    and is about to reconnect. *)
Lemma nothing_is_sent_until_the_socket_opens_witness :
  wire (run [KeyDown "ArrowUp"; IntervalTick; KeyUp "ArrowUp";
             SocketClose; ReconnectTimeout] (constructed 800 600)) = [].
Proof.
  refine (proj1 (nothing_is_sent_until_the_socket_opens
                   [KeyDown "ArrowUp"; IntervalTick; KeyUp "ArrowUp";
                    SocketClose; ReconnectTimeout] (constructed 800 600) _ _)).
  - simpl. discriminate.
  - repeat constructor.
Defined.

(** [newcomer] joins the sample client and leaves. *)
Lemma join_then_leave_restores_players_witness :
  players (state_of (handleServerMessage (player_left (VStr "p3"))
             (state_of (handleServerMessage
                          (player_joined Sample.newcomer Sample.knight)
                          Sample.joined))))
    = players Sample.joined.
Proof.
  refine (proj1 (join_then_leave_restores_players Sample.joined
                   Sample.newcomer Sample.knight _)).
  vm_compute. reflexivity.
Defined.

(** The images of [knight] after the avatar has been announced again with
    other frames. *)
Lemma loaded_images_are_never_replaced_witness :
  loadedAvatarImages
    (@run Sample.scripted [SocketMessage "repaint"; KeyDown "KeyC"] Sample.joined)
    !! "knight"
    = Some Sample.knight_images.
Proof.
  apply (@loaded_images_are_never_replaced Sample.scripted).
  vm_compute. reflexivity.
Defined.

(** The avatar [knight] on a client that has loaded nothing. *)
Lemma fresh_avatar_loads_three_directions_witness :
  exists sequences,
    loadedAvatarImages
      (state_of (loadAvatarImage Sample.knight (constructed 800 600)))
      !! "knight" = Some sequences /\
    (forall direction,
        direction ∈ loaded_directions ->
        sequences !! direction
          = map mkImage <$> frames Sample.knight !! direction) /\
    (forall direction,
        direction ∉ loaded_directions -> sequences !! direction = None).
Proof.
  apply (fresh_avatar_loads_three_directions (constructed 800 600) Sample.knight).
  reflexivity.
Defined.

(** The update of [p2] whose frame index names the length: the drawing
    throws, [onmessage] does not, and [p2] is stored as sent. *)
Lemma onmessage_never_throws_and_keeps_the_update_witness :
  completes (handleServerMessage
               (players_moved {[ "p2" := Sample.frame_length ]}) Sample.joined)
    = false /\
  completes (@onmessage Sample.scripted "bad frame" Sample.joined) = true /\
  players (state_of (@onmessage Sample.scripted "bad frame" Sample.joined)) !! "p2"
    = Some Sample.frame_length.
Proof.
  destruct (@onmessage_never_throws_and_keeps_the_update Sample.scripted
              Sample.joined "bad frame") as [Hcompletes Hkept].
  split; [vm_compute; reflexivity |]. split; [exact Hcompletes |].
  rewrite (Hkept {[ "p2" := Sample.frame_length ]} eq_refl).
  apply lookup_union_Some_l. apply lookup_singleton_eq.
Defined.

(** [frame_length] on the joined client. *)
Lemma frame_index_length_makes_drawImage_throw_witness :
  exists s,
    renderAvatar Sample.frame_length (Fin 10) (Fin 20) Sample.joined
      = Throw TypeError s /\
    ctx s = ctx Sample.joined.
Proof.
  apply (frame_index_length_makes_drawImage_throw Sample.joined
           Sample.frame_length (Fin 10) (Fin 20)
           Sample.knight Sample.knight_images
           [mkImage "s0"; mkImage "s1"]).
  - vm_compute. reflexivity.
  - vm_compute. reflexivity.
  - vm_compute. reflexivity.
  - discriminate.
  - vm_compute. reflexivity.
Defined.

(** The first drawing of the joined sample client. *)
Lemma drawWorld_shows_the_world_inside_its_edges_witness :
  exists (x y : Q) (avatarCalls : list CanvasOp),
    ctx (state_of (drawWorld Sample.joined))
      = ctx Sample.joined
        ++ clearRect (Fin 0) (Fin 0)
             (Fin (viewportWidth Sample.joined))
             (Fin (viewportHeight Sample.joined))
        :: drawImageSub (img (mkImage "world.jpg")) (Fin x) (Fin y)
             (Fin (viewportWidth Sample.joined))
             (Fin (viewportHeight Sample.joined))
             (Fin 0) (Fin 0)
             (Fin (viewportWidth Sample.joined))
             (Fin (viewportHeight Sample.joined))
        :: avatarCalls /\
    0 <= x /\ x + viewportWidth Sample.joined <= worldWidth Sample.joined /\
    0 <= y /\ y + viewportHeight Sample.joined <= worldHeight Sample.joined.
Proof.
  assert (Hw : worldImage Sample.joined = Some (mkImage "world.jpg"))
    by (vm_compute; reflexivity).
  assert (Hx : cameraX Sample.joined = Fin (1200 # 2)) by (vm_compute; reflexivity).
  assert (Hy : cameraY Sample.joined = Fin (1400 # 2)) by (vm_compute; reflexivity).
  destruct (drawWorld_shows_the_world_inside_its_edges
              Sample.joined (mkImage "world.jpg") (1200 # 2) (1400 # 2) Hw Hx Hy)
    as (x & y & calls & Hctx & _ & _ & Hfx & Hfy).
  exists x, y, calls. split; [exact Hctx |].
  assert (Hvw : viewportWidth Sample.joined <= worldWidth Sample.joined)
    by (vm_compute; discriminate).
  assert (Hvh : viewportHeight Sample.joined <= worldHeight Sample.joined)
    by (vm_compute; discriminate).
  destruct (Hfx Hvw) as [Hx0 Hx1]. destruct (Hfy Hvh) as [Hy0 Hy1].
  repeat split; assumption.
Defined.

(** Drawing the joined sample client twice. *)
Lemma drawWorld_is_idempotent_on_the_camera_witness :
  cameraX (state_of (drawWorld (state_of (drawWorld Sample.joined))))
    =n= cameraX (state_of (drawWorld Sample.joined)) /\
  cameraY (state_of (drawWorld (state_of (drawWorld Sample.joined))))
    =n= cameraY (state_of (drawWorld Sample.joined)).
Proof.
  assert (Hw : worldImage Sample.joined <> None) by (vm_compute; discriminate).
  destruct (drawWorld_is_idempotent_on_the_camera Sample.joined Hw)
    as [Htwice _].
  exact Htwice.
Defined.

(** The window of the joined sample client grows beyond the world. *)
Lemma resize_clamps_against_the_new_viewport_witness :
  canvas_width (state_of (onresize 3000 3000 Sample.joined)) = 3000%Z /\
  cameraX (state_of (onresize 3000 3000 Sample.joined))
    = clamp (cameraX Sample.joined) (worldWidth Sample.joined) (inject_Z 3000).
Proof.
  assert (Hw : worldImage Sample.joined = Some (mkImage "world.jpg"))
    by (vm_compute; reflexivity).
  destruct (resize_clamps_against_the_new_viewport
              Sample.joined (mkImage "world.jpg") 3000 3000 Hw)
    as (Hcw & _ & Hx & _).
  split; assumption.
Defined.

(** A drag of the joined sample client by (30, -45). *)
Lemma dragging_moves_the_camera_against_the_pointer_witness :
  let pressed := state_of (onmousedown 0 0 Sample.joined) in
  cameraX (state_of (onmousemove 30 (-45) pressed))
    = clamp (Fin ((1200 # 2) - (30 - lastMouseX pressed)))
        (worldWidth pressed) (viewportWidth pressed) /\
  lastMouseX (state_of (onmousemove 30 (-45) pressed)) = 30.
Proof.
  intros pressed.
  assert (Hd : isDragging pressed = true) by (vm_compute; reflexivity).
  assert (Hw : worldImage pressed = Some (mkImage "world.jpg"))
    by (vm_compute; reflexivity).
  assert (Hx : cameraX pressed = Fin (1200 # 2)) by (vm_compute; reflexivity).
  assert (Hy : cameraY pressed = Fin (1400 # 2)) by (vm_compute; reflexivity).
  destruct (dragging_moves_the_camera_against_the_pointer
              pressed (mkImage "world.jpg") (1200 # 2) (1400 # 2) 30 (-45) Hd Hw Hx Hy)
    as (Ex & _ & Elx & _).
  split; assumption.
Defined.

(** The joined sample client is dragged, then the other player moves. *)
Lemma movement_message_undoes_panning_witness :
  let pressed := state_of (onmousedown 0 0 Sample.joined) in
  cameraX
    (state_of (handleServerMessage (players_moved {[ "p2" := Sample.p2 ]})
                 (state_of (onmousemove 30 (-45) pressed))))
    = clamp (Fin (1000 - viewportWidth pressed / 2))
        (worldWidth pressed) (viewportWidth pressed).
Proof.
  intros pressed.
  assert (Hw : worldImage pressed <> None) by (vm_compute; discriminate).
  assert (Hp : local_player
                 (set_players ({[ "p2" := Sample.p2 ]} ∪ players pressed) pressed)
               = Some Sample.p1) by (vm_compute; reflexivity).
  assert (Hxy : positioned Sample.p1 1000 1000)
    by (split; vm_compute; reflexivity).
  destruct (movement_message_undoes_panning
              pressed {[ "p2" := Sample.p2 ]} Sample.p1 1000 1000 30 (-45)
              Hw Hp Hxy) as [Ex _].
  exact Ex.
Defined.

(** The key C on the joined sample client. *)
Lemma key_C_puts_the_local_player_at_the_viewport_center_witness :
  point_eq
    (worldToScreen (state_of (handleKeyDown "KeyC" Sample.joined))
       (Fin 1000) (Fin 1000))
    (Fin (viewportWidth Sample.joined / 2),
     Fin (viewportHeight Sample.joined / 2)).
Proof.
  apply (key_C_puts_the_local_player_at_the_viewport_center
           Sample.joined Sample.p1 1000 1000).
  - vm_compute. discriminate.
  - vm_compute. reflexivity.
  - split; vm_compute; reflexivity.
  - vm_compute. discriminate.
  - vm_compute. discriminate.
  - vm_compute. discriminate.
  - vm_compute. discriminate.
Defined.

(** The key C before the join has been answered. *)
Lemma without_local_player_the_camera_is_only_clamped_witness :
  cameraX (state_of (handleKeyDown "KeyC" (constructed 800 600)))
    = clamp (cameraX (constructed 800 600))
        (worldWidth (constructed 800 600))
        (viewportWidth (constructed 800 600)).
Proof.
  destruct (without_local_player_the_camera_is_only_clamped
              (constructed 800 600) (mkImage "world.jpg") ∅ eq_refl)
    as [HkeyC _].
  destruct (HkeyC eq_refl) as [Ex _].
  exact Ex.
Defined.

(** A scripted session: join, a move of the local player to the left edge,
    the key C, a drag, and a window larger than the world. *)
Lemma camera_stays_in_bounds_throughout_witness :
  camera_in_bounds
    (@run Sample.scripted
       (take 6
          [SocketOpen; SocketMessage "snapshot"; SocketMessage "move";
           KeyDown "KeyC"; MouseDown 0 0; MouseMove 30 (-45);
           Resize 3000 3000])
       (constructed 800 600)).
Proof.
  apply (@camera_stays_in_bounds_throughout Sample.scripted).
  assert (Esnap : @JSON_parse Sample.scripted "snapshot" = Some Sample.snapshot)
    by reflexivity.
  assert (Emove : @JSON_parse Sample.scripted "move"
                  = Some (players_moved
                            {[ "p1" := <["x" := VNum (Fin 0)]> Sample.p1 ]}))
    by reflexivity.
  repeat constructor.
  - intros m Hm. rewrite Esnap in Hm. injection Hm as <-.
    unfold Sample.snapshot. cbn [well_positioned].
    split; [| reflexivity].
    intros id p Hp.
    apply lookup_insert_Some in Hp. destruct Hp as [[_ <-] | [_ Hp]].
    + exists 1000, 1000. split; vm_compute; reflexivity.
    + apply lookup_singleton_Some in Hp. destruct Hp as [_ <-].
      exists 40, 50. split; vm_compute; reflexivity.
  - intros m Hm. rewrite Emove in Hm. injection Hm as <-.
    cbn [well_positioned]. split; intros id p Hp;
      apply lookup_singleton_Some in Hp; destruct Hp as [<- <-].
    + exists 0, 1000. split; vm_compute; reflexivity.
    + reflexivity.
Defined.
